(** * brahmandAI: command router, model fallback chains and built-in replies

    A shallow embedding of
      - [src/app/api/chat/route.ts]       (command router, generation chain),
      - [src/app/api/translate/route.ts]  (translation chain),
      - [src/components/features/VoiceAssistant.tsx] (built-in replies),
    and the properties of them that the specification states. *)

From Stdlib Require Import String Ascii NArith ZArith QArith Qround Lia.
From Stdlib Require Floats.SpecFloat.
From stdpp Require Import base list option gmap strings pretty.

Set Default Proof Using "Type".
Set Warnings "-register-all".
Local Open Scope N_scope.

(** ** JavaScript strings

    A JavaScript string is a sequence of UTF-16 code units; [length],
    [includes], [split], [trim] and regular expressions without the [u] flag
    all work on code units. *)

Abbreviation jsstring := (list N).

(** String literals of the source (all of them ASCII). *)
Fixpoint js (s : string) : jsstring :=
  match s with
  | EmptyString => []
  | String a s' => N_of_ascii a :: js s'
  end.

Module JS.

(** Truthiness of a string: every string but the empty one. *)
Definition truthy (s : jsstring) : bool :=
  match s with [] => false | _ :: _ => true end.

(** Truthiness of a value that is a string or [undefined]. *)
Definition truthy_opt (v : option jsstring) : bool :=
  match v with Some s => truthy s | None => false end.

(** [s.startsWith(p)] *)
Fixpoint startsWith (s p : jsstring) {struct p} : bool :=
  match p, s with
  | [], _ => true
  | _ :: _, [] => false
  | a :: p', b :: s' => (a =? b) && startsWith s' p'
  end.

(** [breakOn sep s]: the text before the first occurrence of [sep] in [s]
    and the text after it, when there is one. *)
Fixpoint breakOn (sep s : jsstring) : option (jsstring * jsstring) :=
  if startsWith s sep then Some ([], drop (length sep) s)
  else match s with
       | [] => None
       | c :: s' =>
           match breakOn sep s' with
           | Some (before, after) => Some (c :: before, after)
           | None => None
           end
       end.

(** [s.includes(sub)] *)
Definition includes (s sub : jsstring) : bool :=
  match breakOn sub s with Some _ => true | None => false end.

(** [s.split(sep)] for a non-empty separator.  Every piece cut off
    consumes the separator, so [length s] rounds are enough. *)
Fixpoint split_rounds (n : nat) (sep s : jsstring) : list jsstring :=
  match n with
  | O => [s]
  | S n' =>
      match breakOn sep s with
      | Some (before, after) => before :: split_rounds n' sep after
      | None => [s]
      end
  end.

Definition split (s sep : jsstring) : list jsstring :=
  split_rounds (length s) sep s.

(** [parts.join(sep)] *)
Fixpoint join (parts : list jsstring) (sep : jsstring) : jsstring :=
  match parts with
  | [] => []
  | [p] => p
  | p :: ps => p ++ sep ++ join ps sep
  end.

(** White space and line terminators, the code units [trim] removes. *)
Definition isWhiteSpace (c : N) : bool :=
  (c =? 9) || (c =? 10) || (c =? 11) || (c =? 12) || (c =? 13) || (c =? 32)
  || (c =? 160) || (c =? 5760) || ((8192 <=? c) && (c <=? 8202))
  || (c =? 8232) || (c =? 8233) || (c =? 8239) || (c =? 8287)
  || (c =? 12288) || (c =? 65279).

Fixpoint trimStart (s : jsstring) : jsstring :=
  match s with
  | c :: s' => if isWhiteSpace c then trimStart s' else s
  | [] => []
  end.

Definition trimEnd (s : jsstring) : jsstring :=
  reverse (trimStart (reverse s)).

Definition trim (s : jsstring) : jsstring := trimEnd (trimStart s).

(** [s.toLowerCase()] on ASCII text.  The handlers below take the
    lower-casing function as a parameter, so that what is proved of them
    holds for the full Unicode one; this one evaluates the examples. *)
Definition toLowerCaseASCII (s : jsstring) : jsstring :=
  (fun c => if (65 <=? c) && (c <=? 90) then c + 32 else c) <$> s.

(** [arr.slice(-n)]: the last [n] elements. *)
Definition slice_last {A} (n : nat) (l : list A) : list A :=
  drop (length l - n) l.

(** What evaluating a piece of code comes to: a value, or a thrown error
    (whose message is all the handlers ever read of it). *)
Inductive completion (A : Type) : Type :=
| Normal (a : A)
| Throw (message : jsstring).
Arguments Normal {A} a.
Arguments Throw {A} message.

#[export] Instance completion_ret : MRet completion := fun A a => Normal a.
#[export] Instance completion_bind : MBind completion := fun A B k m =>
  match m with
  | Normal a => k a
  | Throw e => Throw e
  end.

Definition TypeError : jsstring :=
  js "Cannot read properties of undefined".

(** [v.trim()] where [v] may be [undefined]. *)
Definition trim_of (v : option jsstring) : completion jsstring :=
  match v with
  | Some s => Normal (trim s)
  | None => Throw TypeError
  end.

(** [s.endsWith(p)] *)
Definition endsWith (s p : jsstring) : bool :=
  startsWith (reverse s) (reverse p).

End JS.

Export JS (completion_ret, completion_bind).

(** ** JavaScript numbers

    A JavaScript number is a binary64 value of IEEE 754: [Math.random() * n]
    and [count++] are the rounded product and sum.  A finite value is
    [m * 2^e] with a sign, written with [m < 2^53] and the exponent of the
    last place, which is -1074 at least and 971 at most; the operations
    round to the nearest value, a tie to the even mantissa. *)

Module Number.
Local Open Scope Z_scope.

Inductive t : Type :=
| Finite (negative : bool) (m e : Z)
| Infinite (negative : bool)
| NaN.

(** The number of binary digits of [m]. *)
Definition digits (m : Z) : Z := if m =? 0 then 0 else Z.log2 m + 1.

(** The exponent of the last place of the binary64 values around
    [m * 2^e]: 53 digits, and no exponent below -1074. *)
Definition exponent (m e : Z) : Z := Z.max (e + digits m - 53) (-1074).

(** [m * 2^e] in units of [2^e'], to the nearest integer, a tie to the
    even one. *)
Definition nearest (m e e' : Z) : Z :=
  if e' <=? e then m * 2 ^ (e - e')
  else
    let q := m / 2 ^ (e' - e) in
    let r := m mod 2 ^ (e' - e) in
    let half := 2 ^ (e' - e - 1) in
    if r <? half then q
    else if half <? r then q + 1
    else if Z.even q then q else q + 1.

(** The value [m * 2^e'] with [m] up to [2^53]: a mantissa that reached
    [2^53] moves to the next exponent, an exponent above 971 is infinite. *)
Definition pack (negative : bool) (m e' : Z) : t :=
  if m =? 0 then Finite negative 0 (-1074)
  else if m =? 2 ^ 53 then
    if 971 <? e' + 1 then Infinite negative
    else Finite negative (2 ^ 52) (e' + 1)
  else if 971 <? e' then Infinite negative
  else Finite negative m e'.

(** Round [m * 2^e], with [0 <= m], to the nearest binary64 value, a tie
    to the even mantissa. *)
Definition round (negative : bool) (m e : Z) : t :=
  pack negative (nearest m e (exponent m e)) (exponent m e).

(** The number that an integer literal or a [length] stands for. *)
Definition of_Z (z : Z) : t := round (z <? 0) (Z.abs z) 0.

Definition signed (negative : bool) (m : Z) : Z := if negative then - m else m.

(** [x + y] *)
Definition add (x y : t) : t :=
  match x, y with
  | NaN, _ | _, NaN => NaN
  | Infinite s1, Infinite s2 => if eqb s1 s2 then Infinite s1 else NaN
  | Infinite s, Finite _ _ _ | Finite _ _ _, Infinite s => Infinite s
  | Finite s1 m1 e1, Finite s2 m2 e2 =>
      let e := Z.min e1 e2 in
      let z := signed s1 (m1 * 2 ^ (e1 - e)) + signed s2 (m2 * 2 ^ (e2 - e)) in
      if z =? 0 then Finite (s1 && s2) 0 (-1074)
      else round (z <? 0) (Z.abs z) e
  end.

(** [x * y] *)
Definition mul (x y : t) : t :=
  match x, y with
  | NaN, _ | _, NaN => NaN
  | Infinite s1, Infinite s2 => Infinite (xorb s1 s2)
  | Infinite s1, Finite s2 m _ | Finite s1 m _, Infinite s2 =>
      if m =? 0 then NaN else Infinite (xorb s1 s2)
  | Finite s1 m1 e1, Finite s2 m2 e2 => round (xorb s1 s2) (m1 * m2) (e1 + e2)
  end.

(** [Math.floor(x)] of a finite number, as the integer it is. *)
Definition floor (x : t) : option Z :=
  match x with
  | Finite s m e =>
      Some (if 0 <=? e then signed s m * 2 ^ e else signed s m / 2 ^ (- e))
  | _ => None
  end.

Definition zero : t := of_Z 0.
Definition one : t := of_Z 1.

End Number.

(** ** Regular expressions

    The fragment of JavaScript regular expressions that [COMMAND_PATTERNS]
    is written in: literal characters, [.], character classes, sequence,
    alternation, [?] on a group, quantifiers on a single character matcher
    (greedy or lazy) and capture groups; matched by backtracking. *)

Module RegExp.

Inductive atom : Type :=
| Lit (c : N)                        (* a pattern character *)
| Dot                                (* [.] *)
| Class (ranges : list (N * N)).     (* [[a-zA-Z ]] as ranges lo-hi *)

Inductive regex : Type :=
| Empty
| Atom (a : atom)
| Seq (r1 r2 : regex)
| Alt (r1 r2 : regex)                          (* r1|r2 *)
| Opt (r : regex)                              (* (?:r)? *)
| Rep (greedy : bool) (a : atom) (lo : nat) (hi : option nat)
                                               (* a{lo,hi}, a+, a*, a+? *)
| Group (n : nat) (r : regex).                 (* the n-th ( ) *)

(** A regular expression literal [/source/flags]; none of the patterns
    carries [g] or [y], so matching keeps no state between calls. *)
Record t : Type := { source : regex; ignoreCase : bool }.

(** Canonicalize of the language definition, for the [i] flag without [u]:
    a code unit is compared by its upper case; a code unit of 128 or more
    never canonicalizes to one below 128, so against the ASCII characters
    of the patterns only the ASCII letters fold. *)
Definition canonicalize (ic : bool) (c : N) : N :=
  if ic && (97 <=? c) && (c <=? 122) then c - 32 else c.

Definition isLineTerminator (c : N) : bool :=
  (c =? 10) || (c =? 13) || (c =? 8232) || (c =? 8233).

Definition in_ranges (ranges : list (N * N)) (c : N) : bool :=
  existsb (fun '(lo, hi) => (lo <=? c) && (c <=? hi)) ranges.

(** The other-case form of an ASCII letter. *)
Definition other_case (c : N) : option N :=
  if (65 <=? c) && (c <=? 90) then Some (c + 32)
  else if (97 <=? c) && (c <=? 122) then Some (c - 32)
  else None.

(** A class matches [c] when one of its members canonicalizes like [c]:
    under [i] that is [c] itself or its other-case form. *)
Definition class_matches (ic : bool) (ranges : list (N * N)) (c : N) : bool :=
  in_ranges ranges c
  || (ic && match other_case c with
            | Some c' => in_ranges ranges c'
            | None => false
            end).

Definition atom_matches (ic : bool) (a : atom) (c : N) : bool :=
  match a with
  | Lit x => canonicalize ic x =? canonicalize ic c
  | Dot => negb (isLineTerminator c)
  | Class ranges => class_matches ic ranges c
  end.

(** Capture groups: number to matched text; an absent number is a group
    that took no part in the match ([undefined]). *)
Abbreviation captures := (gmap nat jsstring).

(** The text consumed between input [s] and its suffix [rest]. *)
Definition matched (s rest : jsstring) : jsstring :=
  take (length s - length rest) s.

(** The ways a quantified atom can match at the head of [s], as the
    remaining inputs in the order backtracking tries them: a greedy
    quantifier takes one more character before it tries to stop, a lazy
    one stops before it takes one more. *)
Fixpoint rep (ic greedy : bool) (a : atom) (s : jsstring)
    (lo : nat) (hi : option nat) {struct s} : list jsstring :=
  let stop := match lo with O => [s] | S _ => [] end in
  let more :=
    match hi, s with
    | Some O, _ => []
    | _, c :: s' =>
        if atom_matches ic a c
        then rep ic greedy a s' (pred lo) (pred <$> hi)
        else []
    | _, [] => []
    end in
  if greedy then more ++ stop else stop ++ more.

(** All the ways [r] can match at the head of [s], each with the remaining
    input and the captures, in the order backtracking tries them. *)
Fixpoint run (ic : bool) (r : regex) (s : jsstring) (caps : captures)
  : list (jsstring * captures) :=
  match r with
  | Empty => [(s, caps)]
  | Atom a =>
      match s with
      | c :: s' => if atom_matches ic a c then [(s', caps)] else []
      | [] => []
      end
  | Seq r1 r2 =>
      p ← run ic r1 s caps; run ic r2 p.1 p.2
  | Alt r1 r2 => run ic r1 s caps ++ run ic r2 s caps
  | Opt r1 => run ic r1 s caps ++ [(s, caps)]
  | Rep greedy a lo hi => (fun s' => (s', caps)) <$> rep ic greedy a s lo hi
  | Group n r1 =>
      (fun p => (p.1, <[n := matched s p.1]> p.2)) <$> run ic r1 s caps
  end.

(** The result array of a successful match: [m[0]] and the groups. *)
Record MatchResult : Type :=
  { index : nat; whole : jsstring; groups : captures }.

(** [m[i]] for [i >= 1]. *)
Definition group (m : MatchResult) (i : nat) : option jsstring :=
  groups m !! i.

(** [re.exec(s)]: the first way to match at the leftmost position that
    has one. *)
Fixpoint exec_from (re : t) (s : jsstring) (start : nat)
  : option MatchResult :=
  match head (run (ignoreCase re) (source re) s ∅) with
  | Some (rest, caps) =>
      Some {| index := start; whole := matched s rest; groups := caps |}
  | None =>
      match s with
      | [] => None
      | _ :: s' => exec_from re s' (S start)
      end
  end.

Definition exec (re : t) (s : jsstring) : option MatchResult :=
  exec_from re s 0.

(** [re.test(s)] *)
Definition test (re : t) (s : jsstring) : bool :=
  match exec re s with Some _ => true | None => false end.

(** Pattern text: a literal string, a sequence, an alternation. *)
Definition lit (s : string) : regex :=
  foldr (fun c r => Seq (Atom (Lit c)) r) Empty (js s).

Definition seq (rs : list regex) : regex := foldr Seq Empty rs.

Fixpoint alts (rs : list regex) : regex :=
  match rs with
  | [] => Empty
  | [r] => r
  | r :: rs' => Alt r (alts rs')
  end.

(** *** What a pattern tells about its matches *)

(** The least number of code units a match of [r] consumes. *)
Fixpoint min_len (r : regex) : nat :=
  match r with
  | Empty => 0
  | Atom _ => 1
  | Seq r1 r2 => (min_len r1 + min_len r2)%nat
  | Alt r1 r2 => (min_len r1 `min` min_len r2)%nat
  | Opt _ => 0
  | Rep _ _ lo _ => lo
  | Group _ r1 => min_len r1
  end.

(** Whether [r] contains group [n]. *)
Fixpoint writes (n : nat) (r : regex) : bool :=
  match r with
  | Empty | Atom _ | Rep _ _ _ _ => false
  | Seq r1 r2 | Alt r1 r2 => writes n r1 || writes n r2
  | Opt r1 => writes n r1
  | Group m r1 => bool_decide (m = n) || writes n r1
  end.

(** Whether every match of [r] passes through group [n] and consumes at
    least one code unit there. *)
Fixpoint defines (n : nat) (r : regex) : bool :=
  match r with
  | Empty | Atom _ | Rep _ _ _ _ | Opt _ => false
  | Seq r1 r2 => defines n r2 || (defines n r1 && negb (writes n r2))
  | Alt r1 r2 => defines n r1 && defines n r2
  | Group m r1 =>
      if bool_decide (m = n) then bool_decide (1 ≤ min_len r1)%nat
      else defines n r1
  end.

End RegExp.

(** ** The hosted inference API and the handlers' effects *)

Module Net.
Import JS.

(** A JSON response body, as far as the handlers look into it: the two
    fields they read are strings when present, as the inference API
    documents them. *)
Inductive json : Type :=
| JNull
| JScalar                                  (* a number, boolean or string *)
| JObject (generated_text translation_text : option jsstring)
| JArray (items : list json).

(** [v.generated_text]: throws on [null], [undefined] where there is no
    such property. *)
Definition get_generated_text (v : json) : completion (option jsstring) :=
  match v with
  | JNull => Throw TypeError
  | JObject g _ => Normal g
  | JScalar | JArray _ => Normal None
  end.

(** [v.translation_text] *)
Definition get_translation_text (v : json) : completion (option jsstring) :=
  match v with
  | JNull => Throw TypeError
  | JObject _ t => Normal t
  | JScalar | JArray _ => Normal None
  end.

(** [a || b] on values that are strings or [undefined]. *)
Definition or_else (a b : option jsstring) : option jsstring :=
  if truthy_opt a then a else b.

Inductive pvalue : Type :=
| PNum (q : Q)
| PBool (b : bool)
| PStr (s : jsstring).

(** The arguments of one [fetch] call; [signal] is the bound in
    milliseconds of [AbortSignal.timeout], where the call passes one. *)
Record request : Type :=
  { url : jsstring;
    authorization : jsstring;
    inputs : jsstring;
    parameters : option (list (jsstring * pvalue));
    signal : option Z }.

(** How a [fetch] call ends: the promise rejects (network failure, or the
    abort of its timeout signal), or a response arrives, whose body parses
    as JSON or does not ([None]).  Every call is taken to end in one of
    these ways; a call that stays pending for ever is not modelled. *)
Inductive outcome : Type :=
| Rejects (message : jsstring)
| Responds (status : Z) (body : option json).

(** [response.ok] *)
Definition ok (status : Z) : bool := ((200 <=? status) && (status <=? 299))%Z.

(** A value of [Math.random()]: a binary64 number from 0 up to but not
    including 1, here [mant * 2^expo]. *)
Definition unit_interval (m e : Z) : bool :=
  ((0 <=? m) && (m <? 2 ^ 53) && (-1074 <=? e) && (e <? 0)
   && (m <? 2 ^ (- e)))%Z.

Record sample : Type :=
  { mant : Z; expo : Z; in_unit : unit_interval mant expo = true }.

Definition number (u : sample) : Number.t :=
  Number.Finite false (mant u) (expo u).

(** [Math.floor(u * n)], the index that [pool[...]] is read at: the
    product is the binary64 one of [u] and [pool.length]; it is finite
    and below [n] (lemma [floor_times_lt]). *)
Definition floor_times (u : sample) (n : nat) : nat :=
  Z.to_nat
    (default 0%Z
       (Number.floor (Number.mul (number u) (Number.of_Z (Z.of_nat n))))).

(** What a handler's run depends on: the configured key, how the [k]-th
    [fetch] call of the run ends, the [k]-th value of [Math.random()], and
    the clock as [toLocaleTimeString] and [toLocaleDateString] print it. *)
Record env : Type :=
  { apiKey : option jsstring;
    fetch_outcome : nat -> request -> outcome;
    random : nat -> sample;
    timeString : jsstring;
    dateString : jsstring }.

(** What a run leaves behind: the [fetch] calls it issued, most recent
    last, and how many random numbers it drew. *)
Record world : Type := { calls : list request; draws : nat }.

Definition start : world := {| calls := []; draws := 0 |}.

(** Handler code: it may issue calls and draw numbers, and it returns or
    throws. *)
Definition M (A : Type) : Type := world -> completion A * world.

#[export] Instance M_ret : MRet M := fun A a w => (Normal a, w).
#[export] Instance M_bind : MBind M := fun A B k m w =>
  match m w with
  | (Normal a, w') => k a w'
  | (Throw e, w') => (Throw e, w')
  end.

Definition throw {A} (message : jsstring) : M A := fun w => (Throw message, w).

Definition lift {A} (c : completion A) : M A := fun w => (c, w).

(** [try { m } catch (e) { handler e }] *)
Definition try_catch {A} (m : M A) (handler : jsstring -> M A) : M A :=
  fun w =>
    match m w with
    | (Throw e, w') => handler e w'
    | r => r
    end.

Section WithEnv.
Context (E : env).

(** [await fetch(url, init)]: the status and body of the response. *)
Definition fetch (req : request) : M (Z * option json) :=
  fun w =>
    let w' := {| calls := calls w ++ [req]; draws := draws w |} in
    match fetch_outcome E (length (calls w)) req with
    | Rejects e => (Throw e, w')
    | Responds status body => (Normal (status, body), w')
    end.

(** [await response.json()] *)
Definition json_of (body : option json) : M json :=
  match body with
  | Some v => mret v
  | None => throw (js "Unexpected token in JSON")
  end.

(** [Math.random()] *)
Definition Math_random : M sample :=
  fun w => (Normal (random E (draws w)),
            {| calls := calls w; draws := S (draws w) |}).

(** [pool[Math.floor(Math.random() * pool.length)]]; the index is
    always within the pool (lemma [floor_times_lt]). *)
Definition pick (pool : list jsstring) : M jsstring :=
  u ← Math_random;
  mret (pool !!! floor_times u (length pool)).

End WithEnv.

End Net.

(** ** The chat endpoint: [src/app/api/chat/route.ts] *)

Module Chat.
Import JS RegExp.

(** *** Command patterns *)

Definition letters : list (N * N) := [(97, 122); (65, 90)].   (* a-zA-Z *)
Definition upper : list (N * N) := [(65, 90)].                (* A-Z *)
Definition space : N * N := (32, 32).
(** The class of the two quote characters, double (34) and single (39). *)
Definition quote : regex := Atom (Class [(34, 34); (39, 39)]).

(** [(?:what's|what is|how's|how is)] *)
Definition wh : regex :=
  alts [lit "what's"; lit "what is"; lit "how's"; lit "how is"].

Module COMMAND_PATTERNS.

(** [/(?:what's|what is|how's|how is) the weather(?: like)?(?: in| at)? ([a-zA-Z ]+)/i] *)
Definition weather : RegExp.t :=
  {| source := seq [wh; lit " the weather"; Opt (lit " like");
                    Opt (alts [lit " in"; lit " at"]); lit " ";
                    Group 1 (Rep true (Class (letters ++ [space])) 1 None)];
     ignoreCase := true |}.

(** [/(?:what's|what is|how's|how is) (?:the )?(?:stock|price)(?: (?:of|for))? ([A-Z]{1,5})/i] *)
Definition stockPrice : RegExp.t :=
  {| source := seq [wh; lit " "; Opt (lit "the ");
                    alts [lit "stock"; lit "price"];
                    Opt (Seq (lit " ") (alts [lit "of"; lit "for"]));
                    lit " ";
                    Group 1 (Rep true (Class upper) 1 (Some 5%nat))];
     ignoreCase := true |}.

(** [/(?:show|get|fetch|tell) (?:me )?(?:the )?news(?: about| on| for)? ?(G)/i]
    where the group [G] is the class [[a-zA-Z ]] under a star. *)
Definition news : RegExp.t :=
  {| source := seq [alts [lit "show"; lit "get"; lit "fetch"; lit "tell"];
                    lit " "; Opt (lit "me "); Opt (lit "the "); lit "news";
                    Opt (alts [lit " about"; lit " on"; lit " for"]);
                    Opt (lit " ");
                    Group 1 (Rep true (Class (letters ++ [space])) 0 None)];
     ignoreCase := true |}.

(** [/(?:translate|convert) Q(.+?)Q (?:to|into) ([a-zA-Z]+)/i]
    where [Q] is the class of the two quote characters. *)
Definition translate : RegExp.t :=
  {| source := seq [alts [lit "translate"; lit "convert"]; lit " "; quote;
                    Group 1 (Rep false Dot 1 None); quote; lit " ";
                    alts [lit "to"; lit "into"]; lit " ";
                    Group 2 (Rep true (Class letters) 1 None)];
     ignoreCase := true |}.

(** [/(?:add|create|make) (?:a )?(?:new )?(?:todo|task|reminder) (?:to|about|for)? (.+)/i] *)
Definition addTodo : RegExp.t :=
  {| source := seq [alts [lit "add"; lit "create"; lit "make"]; lit " ";
                    Opt (lit "a "); Opt (lit "new ");
                    alts [lit "todo"; lit "task"; lit "reminder"]; lit " ";
                    Opt (alts [lit "to"; lit "about"; lit "for"]); lit " ";
                    Group 1 (Rep true Dot 1 None)];
     ignoreCase := true |}.

(** [/(?:analyze|check) (?:sentiment|feeling|emotion) (?:for|of|about) Q(.+?)Q/i]
    where [Q] is the class of the two quote characters. *)
Definition sentiment : RegExp.t :=
  {| source := seq [alts [lit "analyze"; lit "check"]; lit " ";
                    alts [lit "sentiment"; lit "feeling"; lit "emotion"];
                    lit " "; alts [lit "for"; lit "of"; lit "about"];
                    lit " "; quote; Group 1 (Rep false Dot 1 None); quote];
     ignoreCase := true |}.

(** [/(?:help|assist|guidance|commands|what can you do)/i] *)
Definition help : RegExp.t :=
  {| source := alts [lit "help"; lit "assist"; lit "guidance";
                     lit "commands"; lit "what can you do"];
     ignoreCase := true |}.

(** [/(?:what|tell me)(?: is)? the (?:current )?time/i] *)
Definition time : RegExp.t :=
  {| source := seq [alts [lit "what"; lit "tell me"]; Opt (lit " is");
                    lit " the "; Opt (lit "current "); lit "time"];
     ignoreCase := true |}.

(** [/(?:what|tell me)(?: is)? (?:today's|the current) date/i] *)
Definition date : RegExp.t :=
  {| source := seq [alts [lit "what"; lit "tell me"]; Opt (lit " is");
                    lit " "; alts [lit "today's"; lit "the current"];
                    lit " date"];
     ignoreCase := true |}.

(** [/(?:tell|say)(?:me)? a joke/i] *)
Definition joke : RegExp.t :=
  {| source := seq [alts [lit "tell"; lit "say"]; Opt (lit "me");
                    lit " a joke"];
     ignoreCase := true |}.

End COMMAND_PATTERNS.

(** *** [detectCommands] *)

(** [{ command: string | null; params: string[] }] *)
Record detection : Type :=
  { command : option jsstring; params : list jsstring }.

(** [m && m[i]] as a condition: the match is not [null] and its group [i]
    is a non-empty string. *)
Definition has_group (m : option MatchResult) (i : nat) : bool :=
  match m with
  | Some r => truthy_opt (group r i)
  | None => false
  end.

(** [m[i].trim()]: throws when [m] is [null] or [m[i]] is [undefined]. *)
Definition group_trim (m : option MatchResult) (i : nat)
  : completion jsstring :=
  match m with
  | Some r => trim_of (group r i)
  | None => Throw TypeError
  end.

(** The text of group [n] in the match of [re] on [text] (empty when
    there is no match or the group took no part in it). *)
Definition captured (re : RegExp.t) (text : jsstring) (n : nat) : jsstring :=
  default [] (exec re text ≫= fun m => group m n).

Definition detectCommands (text : jsstring) : completion detection :=
  (* Check for help command first *)
  if test COMMAND_PATTERNS.help text then
    mret {| command := Some (js "help"); params := [] |}
  (* Check for time command *)
  else if test COMMAND_PATTERNS.time text then
    mret {| command := Some (js "time"); params := [] |}
  (* Check for date command *)
  else if test COMMAND_PATTERNS.date text then
    mret {| command := Some (js "date"); params := [] |}
  (* Check for joke command *)
  else if test COMMAND_PATTERNS.joke text then
    mret {| command := Some (js "joke"); params := [] |}
  else
  (* Check for weather command *)
  let weatherMatch := exec COMMAND_PATTERNS.weather text in
  if has_group weatherMatch 1 then
    p ← group_trim weatherMatch 1;
    mret {| command := Some (js "weather"); params := [p] |}
  else
  (* Check for stock price command *)
  let stockMatch := exec COMMAND_PATTERNS.stockPrice text in
  if has_group stockMatch 1 then
    p ← group_trim stockMatch 1;
    mret {| command := Some (js "stock"); params := [p] |}
  else
  (* Check for news command *)
  let newsMatch := exec COMMAND_PATTERNS.news text in
  if newsMatch is Some _ then
    ps ← (if has_group newsMatch 1
          then p ← group_trim newsMatch 1; mret [p]
          else mret [js "general"]);
    mret {| command := Some (js "news"); params := ps |}
  else
  (* Check for translation command *)
  let translateMatch := exec COMMAND_PATTERNS.translate text in
  if has_group translateMatch 1 && has_group translateMatch 2 then
    p1 ← group_trim translateMatch 1;
    p2 ← group_trim translateMatch 2;
    mret {| command := Some (js "translate"); params := [p1; p2] |}
  else
  (* Check for sentiment analysis command *)
  let sentimentMatch := exec COMMAND_PATTERNS.sentiment text in
  if has_group sentimentMatch 1 then
    p ← group_trim sentimentMatch 1;
    mret {| command := Some (js "sentiment"); params := [p] |}
  else
  (* No specific command found, treat as general chat *)
  mret {| command := None; params := [] |}.

(** *** Command handlers *)

Import Net.

Definition dq : jsstring := [34].     (* the double quote *)
Definition nl : jsstring := [10].     (* the line feed *)

Definition help_text : jsstring :=
  js "I can help you with several tasks through voice commands:" ++ nl
  ++ js "1. Get weather: " ++ dq ++ js "What's the weather in London?" ++ dq ++ nl
  ++ js "2. Check stocks: " ++ dq ++ js "What's the stock price of AAPL?" ++ dq ++ nl
  ++ js "3. Read news: " ++ dq ++ js "Show me news about technology" ++ dq ++ nl
  ++ js "4. Translate text: " ++ dq ++ js "Translate 'Hello world' to Spanish" ++ dq ++ nl
  ++ js "5. Analyze sentiment: " ++ dq ++ js "Analyze sentiment for 'I love this product'" ++ dq ++ nl
  ++ js "6. Ask about the time: " ++ dq ++ js "What is the current time?" ++ dq ++ nl
  ++ js "7. Ask about the date: " ++ dq ++ js "What is today's date?" ++ dq ++ nl
  ++ js "8. Request a joke: " ++ dq ++ js "Tell me a joke" ++ dq ++ nl
  ++ js "9. Chat about any topic you'd like to discuss" ++ nl
  ++ js "What would you like to do?".

Definition jokes : list jsstring :=
  [ js "Why don't scientists trust atoms? Because they make up everything!";
    js "What do you call a fake noodle? An impasta!";
    js "Why did the scarecrow win an award? Because he was outstanding in his field!";
    js "Why don't eggs tell jokes? They'd crack each other up!";
    js "What's the best thing about Switzerland? I don't know, but the flag is a big plus!";
    js "Did you hear about the mathematician who's afraid of negative numbers? He'll stop at nothing to avoid them!";
    js "Why was the math book sad? It had too many problems.";
    js "What's orange and sounds like a parrot? A carrot!";
    js "How do you organize a space party? You planet!";
    js "Why did the bicycle fall over? Because it was two-tired!" ].

(** Fallback answers for when the model fails to respond *)
Definition fallbackResponses : list jsstring :=
  [ js "I'm still learning, but I'd be happy to help you with that if you could rephrase your question.";
    js "I'm not sure I understood correctly. Could you please try asking in a different way?";
    js "That's an interesting question. Let me think about it and get back to you.";
    js "I'm having trouble processing that request. Could we try something else?";
    js "I'd like to help with that, but I'm not sure I have the right information. Could you provide more details?" ].

(** [interface ConversationContext] *)
Record ConversationContext : Type :=
  { previousTopic : option jsstring;
    recentEntities : option (list jsstring);
    messageCount : Number.t;
    lastCommand : option jsstring }.

(** The parsed request body. *)
Record chat_body : Type :=
  { message : option jsstring;
    context : option ConversationContext;
    history : option (list jsstring) }.

(** What [NextResponse.json] is given: the JSON fields and the status. *)
Record reply : Type :=
  { status : Z;
    response : jsstring;
    error : option jsstring;
    details : option jsstring;
    reply_context : option ConversationContext;
    detected_command : option jsstring;
    command_params : option (list jsstring);
    model_used : option jsstring }.

Definition error_reply (status : Z) (error response : jsstring)
    (details : option jsstring) : reply :=
  {| status := status; response := response; error := Some error;
     details := details; reply_context := None; detected_command := None;
     command_params := None; model_used := None |}.

(** Clean up the response - remove the prompt part if it's included
    (the statements between the two fallback checks of the handler). *)
Definition cleanResponse (aiResponse : jsstring) : completion jsstring :=
  if includes aiResponse (js "AI:") then
    trim_of (split aiResponse (js "AI:") !! 1%nat)
  else if includes aiResponse (js "Human:") then
    (* If the model repeated the prompt, extract just the answer part *)
    let parts := split aiResponse (js "Human:") in
    if (1 <? length parts)%nat then trim_of (parts !! 0%nat)
    else mret aiResponse
  else mret aiResponse.

(** The statements that read [generated_text] off a parsed result; the
    text stays empty where neither branch assigns it. *)
Definition read_generated (result : json) : completion jsstring :=
  match result with
  | JArray (first :: _) =>
      (* aiResponse = result[0].generated_text, or the empty string *)
      g ← get_generated_text first; mret (default [] g)
  | JScalar => mret []                 (* typeof result is not 'object' *)
  | JNull | JObject _ _ | JArray [] =>
      (* if result.generated_text is truthy, aiResponse = that text *)
      g ← get_generated_text result; mret (default [] g)
  end.

Definition api : jsstring := js "https://api-inference.huggingface.co/models/".

Definition primaryModel : jsstring := js "google/flan-t5-xl".
Definition backupModel : jsstring := js "facebook/bart-large".

Section WithEnv.
Context (E : env).

Definition bearer : jsstring := js "Bearer " ++ default [] (apiKey E).

(** Execute a command with its parameters *)
Definition executeCommand (command : jsstring) (params : list jsstring)
  : M jsstring :=
  if bool_decide (command = js "help") then mret help_text
  else if bool_decide (command = js "time") then
    mret (js "The current time is " ++ timeString E ++ js ".")
  else if bool_decide (command = js "date") then
    mret (js "Today's date is " ++ dateString E ++ js ".")
  else if bool_decide (command = js "joke") then pick E jokes
  else
    mret (js "I recognized your " ++ command
          ++ js " command with parameters: " ++ join params (js ", ")
          ++ js ". This feature will be implemented soon.").

(** One attempt: the call, the status check and the reading of the
    generated text. *)
Definition attempt (req : request) (error_prefix : jsstring)
  : M jsstring :=
  r ← fetch E req;
  if negb (ok r.1) then throw (error_prefix ++ js (pretty r.1))
  else
    result ← json_of r.2;
    lift (read_generated result).

Definition primary_request (promptText : jsstring) : request :=
  {| url := api ++ primaryModel;
     authorization := bearer;
     inputs := promptText;
     parameters :=
       Some [ (js "max_length", PNum 250);
              (js "temperature", PNum (7 # 10));
              (js "top_p", PNum (9 # 10));
              (js "do_sample", PBool true);
              (js "repetition_penalty", PNum (12 # 10)) ];
     signal := Some 5000%Z |}.

Definition backup_request (promptText : jsstring) : request :=
  {| url := api ++ backupModel;
     authorization := bearer;
     inputs := promptText;
     parameters :=
       Some [ (js "max_length", PNum 250);
              (js "temperature", PNum (7 # 10)) ];
     signal := None |}.

(** Build conversation history for context-aware responses *)
Definition build_prompt (message : jsstring)
    (conversationHistory : list jsstring) : jsstring :=
  (* Include up to 10 recent messages for context *)
  (if (0 <? length conversationHistory)%nat
   then join (slice_last 10 conversationHistory) nl ++ nl
   else [])
  (* Add current message *)
  ++ js "Human: " ++ message ++ nl ++ js "AI:".

(** The two attempts: [aiResponse] and [modelUsed] as they leave them. *)
Definition attempts (promptText : jsstring) : M (jsstring * jsstring) :=
  (* First attempt with primary model *)
  try_catch
    (aiResponse ← attempt (primary_request promptText)
                          (js "Hugging Face API error: ");
     mret (aiResponse, primaryModel))
    (fun primaryError =>
       (* Fall back to secondary model *)
       try_catch
         (aiResponse ← attempt (backup_request promptText)
                               (js "Backup model error: ");
          mret (aiResponse, backupModel))
         (fun backupError => throw backupError)).

(** From the attempts' text to the reply. *)
Definition respond (context : ConversationContext)
    (r : jsstring * jsstring) : M reply :=
  (* If no valid response from either model, use fallback *)
  r ← (if negb (truthy r.1)
       then f ← pick E fallbackResponses; mret (f, js "fallback")
       else mret r);
  aiResponse ← lift (cleanResponse r.1);
  (* If response is empty or too short, use fallback *)
  r ← (if negb (truthy aiResponse) || (length aiResponse <? 5)%nat
       then f ← pick E fallbackResponses; mret (f, js "fallback")
       else mret (aiResponse, r.2));
  mret {| status := 200;
          response := r.1;
          error := None;
          details := None;
          reply_context :=
            Some {| previousTopic := previousTopic context;
                    recentEntities := recentEntities context;
                    messageCount :=
                      Number.add (messageCount context) Number.one;
                    lastCommand := lastCommand context |};
          detected_command := None;
          command_params := None;
          model_used := Some r.2 |}.

(** For general conversation, use Hugging Face model: the inner [try]
    block of the handler. *)
Definition generate (message : jsstring) (context : ConversationContext)
    (conversationHistory : list jsstring) : M reply :=
  r ← attempts (build_prompt message conversationHistory);
  respond context r.

(** Main API handler *)
Definition POST (req : option chat_body) : M reply :=
  try_catch
    ((* Check for valid API key *)
     if negb (truthy_opt (apiKey E)) then
       mret (error_reply 400 (js "API key not configured")
               (js "I'm sorry, but the Hugging Face API key is not configured. Please add your HUGGINGFACE_API_KEY to the .env.local file to enable me to respond to your messages.")
               None)
     else
       match req with
       | None =>
           mret (error_reply 400 (js "Invalid request body")
                   (js "Error: Could not parse request body.") None)
       | Some body =>
           let context :=
             default {| previousTopic := None; recentEntities := None;
                        messageCount := Number.zero;
                        lastCommand := None |}
                     (context body) in
           let conversationHistory := default [] (history body) in
           if negb (truthy_opt (message body)) then
             mret (error_reply 400 (js "Message is required")
                     (js "Error: No message provided.") None)
           else
             let message := default [] (message body) in
             (* Check if message contains a command *)
             d ← lift (detectCommands message);
             if truthy_opt (command d) then
               let command := default [] (command d) in
               response ← executeCommand command (params d);
               mret {| status := 200;
                       response := response;
                       error := None;
                       details := None;
                       reply_context :=
                         Some {| previousTopic := previousTopic context;
                                 recentEntities := recentEntities context;
                                 messageCount :=
                                   Number.add (messageCount context)
                                              Number.one;
                                 lastCommand := Some command |};
                       detected_command := Some command;
                       command_params := Some (params d);
                       model_used := None |}
             else
               try_catch
                 (generate message context conversationHistory)
                 (fun apiError =>
                    (* Use a random fallback response *)
                    fallbackResponse ← pick E fallbackResponses;
                    mret (error_reply 200 (js "API processing failed")
                            fallbackResponse (Some apiError)))
       end)
    (fun error =>
       (* Use a random fallback response for general errors too *)
       fallbackResponse ← pick E fallbackResponses;
       mret (error_reply 200 (js "Failed to process message")
               fallbackResponse (Some error))).

End WithEnv.

End Chat.

(** ** The translation endpoint: [src/app/api/translate/route.ts] *)

Module Translate.
Import JS Net.

(** An object literal used as a table, with the entries written; what it
    answers at the names it inherits is not modelled (see
    [Notions.inherited]). *)
Definition table (entries : list (string * string)) : gmap jsstring jsstring :=
  list_to_map ((fun e => (js e.1, js e.2)) <$> entries).

(** Define specialized models for Indian languages *)
Definition INDIAN_LANGUAGE_MODELS : gmap jsstring jsstring :=
  table [ ("en-hi", "Helsinki-NLP/opus-mt-en-hi");
          ("hi-en", "Helsinki-NLP/opus-mt-hi-en");
          ("en-ta", "Helsinki-NLP/opus-mt-en-ta");
          ("ta-en", "Helsinki-NLP/opus-mt-ta-en");
          ("en-te", "Helsinki-NLP/opus-mt-en-ta");
          ("te-en", "Helsinki-NLP/opus-mt-mul-en");
          ("en-bn", "Helsinki-NLP/opus-mt-en-NORTH_INDIAN");
          ("bn-en", "Helsinki-NLP/opus-mt-NORTH_INDIAN-en");
          ("en-ml", "Helsinki-NLP/opus-mt-en-dra");
          ("ml-en", "Helsinki-NLP/opus-mt-mul-en");
          ("en-kn", "Helsinki-NLP/opus-mt-en-dra");
          ("kn-en", "Helsinki-NLP/opus-mt-mul-en") ]%string.

(** Advanced backup models with better multilingual support *)
Definition BACKUP_MODELS : list jsstring :=
  [ js "facebook/mbart-large-50-many-to-many-mmt";
    js "facebook/nllb-200-distilled-600M";
    js "ai4bharat/indictrans2-indic-en-1B" ].

Definition indicCodes : gmap jsstring jsstring :=
  table [ ("en", "eng_Latn"); ("hi", "hin_Deva"); ("te", "tel_Telu");
          ("ta", "tam_Taml"); ("kn", "kan_Knda"); ("ml", "mal_Mlym");
          ("bn", "ben_Beng"); ("gu", "guj_Gujr"); ("mr", "mar_Deva");
          ("pa", "pan_Guru"); ("or", "ory_Orya"); ("as", "asm_Beng") ]%string.

Definition languageCodes : gmap jsstring jsstring :=
  table [ ("english", "en"); ("spanish", "es"); ("french", "fr");
          ("german", "de"); ("italian", "it"); ("portuguese", "pt");
          ("russian", "ru"); ("japanese", "ja"); ("chinese", "zh");
          ("korean", "ko"); ("arabic", "ar"); ("hindi", "hi");
          ("telugu", "te"); ("tamil", "ta"); ("kannada", "kn");
          ("malayalam", "ml"); ("bengali", "bn"); ("turkish", "tr");
          ("dutch", "nl"); ("swedish", "sv"); ("polish", "pl");
          ("vietnamese", "vi"); ("thai", "th") ]%string.

Definition m2mCodes : gmap jsstring jsstring :=
  table [ ("english", "en_XX"); ("spanish", "es_XX"); ("french", "fr_XX");
          ("german", "de_DE"); ("italian", "it_IT"); ("portuguese", "pt_XX");
          ("russian", "ru_RU"); ("japanese", "ja_XX"); ("chinese", "zh_CN");
          ("korean", "ko_KR"); ("arabic", "ar_AR"); ("hindi", "hi_IN");
          ("telugu", "te_IN"); ("tamil", "ta_IN"); ("kannada", "kn_IN");
          ("malayalam", "ml_IN"); ("bengali", "bn_IN"); ("turkish", "tr_TR");
          ("dutch", "nl_XX"); ("swedish", "sv_XX"); ("polish", "pl_XX");
          ("vietnamese", "vi_VN"); ("thai", "th_TH") ]%string.

(** The parsed request body. *)
Record translate_body : Type :=
  { text : option jsstring;
    sourceLang : option jsstring;
    targetLang : option jsstring }.

(** What [NextResponse.json] is given: the JSON fields and the status. *)
Record reply : Type :=
  { status : Z;
    translation : jsstring;
    error : option jsstring;
    details : option jsstring;
    model_used : option jsstring;
    is_indian_language_pair : option bool;
    modelsTried : option (list jsstring);
    mockData : option bool }.

Definition error_reply (status : Z) (error translation : jsstring)
    (details : option jsstring) : reply :=
  {| status := status; translation := translation; error := Some error;
     details := details; model_used := None;
     is_indian_language_pair := None; modelsTried := None;
     mockData := None |}.

(** [translation] and [usedModel], both [null] at first. *)
Abbreviation progress := (option jsstring * option jsstring)%type.

(** The primary model's result: the translation it assigns, if any. *)
Definition read_primary (result : json) : completion (option jsstring) :=
  (* Array.isArray(result) && result.length > 0 && result[0].translation_text *)
  t ← match result with
      | JArray (first :: _) => get_translation_text first
      | _ => mret None
      end;
  if truthy_opt t then mret t
  else
    (* else if (result.translation_text) *)
    t ← get_translation_text result;
    if truthy_opt t then mret t else mret None.

(** [result.translation_text || (Array.isArray(result) && result.length > 0)] *)
Definition usable (result : json) : completion bool :=
  t ← get_translation_text result;
  mret (truthy_opt t
        || match result with JArray (_ :: _) => true | _ => false end).

(** [Array.isArray(result) ? result[0] : result] *)
Definition first_or_self (result : json) : completion json :=
  match result with
  | JArray [] => Throw TypeError
  | JArray (first :: _) => Normal first
  | _ => Normal result
  end.

(** The specialized model's result: [Some v] when the handler assigns [v]
    (which may be [undefined]) to [translation]. *)
Definition read_indic (result : json)
  : completion (option (option jsstring)) :=
  c ← usable result;
  if c : bool then
    item ← first_or_self result;
    t ← get_translation_text item;
    mret (Some t)
  else mret None.

(** A backup model's result, likewise; it also accepts [generated_text]. *)
Definition read_backup (result : json)
  : completion (option (option jsstring)) :=
  c ← usable result;
  if c : bool then
    item ← first_or_self result;
    t ← get_translation_text item;
    if truthy_opt t then mret (Some t)
    else g ← get_generated_text item; mret (Some g)
  else mret None.

Definition api : jsstring := js "https://api-inference.huggingface.co/models/".

Definition indicModel : jsstring := js "ai4bharat/indictrans2-indic-en-1B".


Section WithEnv.
Context (toLowerCase : jsstring -> jsstring) (E : env).

(** Check if a language code is an Indian language *)
Definition isIndianLanguage (code : jsstring) : bool :=
  bool_decide (toLowerCase code ∈
    [js "hi"; js "te"; js "ta"; js "kn"; js "ml"; js "bn"; js "gu";
     js "mr"; js "pa"; js "or"; js "as"; js "sa"]).

(** Get ai4bharat/indictrans2 specific codes for Indian languages *)
Definition getIndicCode (code : jsstring) : jsstring :=
  default (js "eng_Latn")
    (or_else (indicCodes !! toLowerCase code) (Some (js "eng_Latn"))).

(** Helper function to convert language names to language codes *)
Definition getLanguageCode (language : jsstring) : jsstring :=
  (* Try to match by name (case insensitive) *)
  let lowerCaseLanguage := toLowerCase language in
  if truthy_opt (languageCodes !! lowerCaseLanguage) then
    default [] (languageCodes !! lowerCaseLanguage)
  (* If it's already a code like 'en', 'fr', etc., return as is *)
  else if (length lowerCaseLanguage =? 2)%nat then lowerCaseLanguage
  (* Default to English if language not recognized *)
  else js "en".

(** Helper function to get Facebook's M2M100/MBart specific language codes *)
Definition getM2MLangCode (language : jsstring) : jsstring :=
  default (js "en_XX")
    (or_else (m2mCodes !! toLowerCase language) (Some (js "en_XX"))).

Definition bearer : jsstring := js "Bearer " ++ default [] (apiKey E).

Definition primary_request (primaryModel text : jsstring) : request :=
  {| url := api ++ primaryModel;
     authorization := bearer;
     inputs := text;
     parameters := None;
     signal := Some 6000%Z |}.

Definition indic_request (text sourceCode targetCode : jsstring) : request :=
  {| url := api ++ indicModel;
     authorization := bearer;
     inputs := text;
     parameters :=
       Some [ (js "src_lang", PStr (getIndicCode sourceCode));
              (js "tgt_lang", PStr (getIndicCode targetCode)) ];
     signal := None |}.

Definition backup_request (backupModel text sourceLang targetLang : jsstring)
  : request :=
  {| url := api ++ backupModel;
     authorization := bearer;
     inputs := text;
     parameters :=
       Some [ (js "src_lang", PStr (getM2MLangCode sourceLang));
              (js "tgt_lang", PStr (getM2MLangCode targetLang)) ];
     signal := None |}.

(** One turn of a guarded attempt: [Some p] when the attempt assigned
    [translation] and [usedModel], [None] when it left them as they
    were (a response that is not ok, a result that is not usable, or an
    error, which the [catch] only logs). *)
Definition guarded (req : request) (model : jsstring)
    (read : json -> completion (option (option jsstring)))
  : M (option progress) :=
  try_catch
    (r ← fetch E req;
     if ok r.1 then
       result ← json_of r.2;
       a ← lift (read result);
       match a with
       | Some t => mret (Some (t, Some model))
       | None => mret None
       end
     else mret None)
    (fun _ => mret None).

(** Try each backup model in sequence until one works *)
Fixpoint try_backups (models : list jsstring)
    (text sourceLang targetLang : jsstring) (p : progress) : M progress :=
  match models with
  | [] => mret p
  | backupModel :: rest =>
      if truthy_opt p.1 then mret p       (* Stop if we already have a translation *)
      else
        a ← guarded (backup_request backupModel text sourceLang targetLang)
                    backupModel read_backup;
        match a with
        | Some p' => mret p'              (* break *)
        | None => try_backups rest text sourceLang targetLang p
        end
  end.

(** If primary model failed or returned empty result, try backup
    models in sequence *)
Definition fall_back (isIndianLanguagePair : bool)
    (text sourceLang targetLang sourceCode targetCode : jsstring)
    (p : progress) : M progress :=
  if negb (truthy_opt p.1) then
    (* For Indian languages, use specialized indic backup first if
       applicable *)
    p ← (if isIndianLanguagePair then
           a ← guarded (indic_request text sourceCode targetCode)
                       indicModel read_indic;
           mret (default p a)
         else mret p);
    try_backups BACKUP_MODELS text sourceLang targetLang p
  else mret p.

(** Select the best model for the language pair *)
Definition select_primary (isIndianLanguagePair : bool)
    (sourceCode targetCode : jsstring) : jsstring :=
  let languagePair := sourceCode ++ js "-" ++ targetCode in
  if isIndianLanguagePair
     && truthy_opt (INDIAN_LANGUAGE_MODELS !! languagePair)
  then
    (* Use specialized model for Indian language pairs *)
    default [] (INDIAN_LANGUAGE_MODELS !! languagePair)
  else
    (* Use generic Helsinki-NLP model for other pairs *)
    js "Helsinki-NLP/opus-mt-" ++ sourceCode ++ js "-" ++ targetCode.

Definition POST (req : option translate_body) : M reply :=
  try_catch
    ((* Check for valid API key *)
     if negb (truthy_opt (apiKey E)) then
       mret {| status := 200;
               translation := js "API key not configured. Please add your HUGGINGFACE_API_KEY to .env.local file.";
               error := None; details := None; model_used := None;
               is_indian_language_pair := None; modelsTried := None;
               mockData := Some true |}
     else
       match req with
       | None =>
           mret (error_reply 400 (js "Invalid request body")
                   (js "Error: Could not parse request body.") None)
       | Some body =>
           if negb (truthy_opt (text body))
              || negb (truthy_opt (sourceLang body))
              || negb (truthy_opt (targetLang body))
           then
             mret (error_reply 400
                     (js "Text, source language, and target language are required")
                     (js "Error: Missing required fields (text, sourceLang, or targetLang).")
                     None)
           else
             let text := default [] (text body) in
             let sourceLang := default [] (sourceLang body) in
             let targetLang := default [] (targetLang body) in
             (* Get source and target language codes *)
             let sourceCode := getLanguageCode sourceLang in
             let targetCode := getLanguageCode targetLang in
             (* Check if we're dealing with an Indian language pair *)
             let isIndianLanguagePair :=
               isIndianLanguage sourceCode || isIndianLanguage targetCode in
             let primaryModel :=
               select_primary isIndianLanguagePair sourceCode targetCode in
             try_catch
               ((* First try with specialized/primary model *)
                r ← fetch E (primary_request primaryModel text);
                p ← (if ok r.1 then
                       result ← json_of r.2;
                       t ← lift (read_primary result);
                       mret (if truthy_opt t then (t, Some primaryModel)
                             else (None, None))
                     else mret (None, None));
                p ← fall_back isIndianLanguagePair text sourceLang
                              targetLang sourceCode targetCode p;
                (* If all models failed, provide a helpful error *)
                if negb (truthy_opt p.1) then
                  mret {| status := 200;
                          translation :=
                            js "Translation not available for " ++ sourceLang
                            ++ js " to " ++ targetLang
                            ++ js ". Please try another language pair.";
                          error := Some (js "All translation models failed");
                          details := None; model_used := None;
                          is_indian_language_pair := None;
                          modelsTried := Some (primaryModel :: BACKUP_MODELS);
                          mockData := None |}
                else
                  mret {| status := 200;
                          translation := default [] p.1;
                          error := None; details := None;
                          model_used := p.2;
                          is_indian_language_pair := Some isIndianLanguagePair;
                          modelsTried := None; mockData := None |})
               (fun error => throw error)
       end)
    (fun error =>
       (* Provide a more detailed error message *)
       mret (error_reply 500 (js "Failed to translate text")
               (js "Error occurred: " ++ error) (Some error))).

End WithEnv.

End Translate.

(** ** The voice assistant: [src/components/features/VoiceAssistant.tsx] *)

Module VoiceAssistant.
Import JS.

(** An object literal used as a table: its entries in the order written,
    which is the order [Object.keys] lists them in. *)
Abbreviation record := (list (jsstring * jsstring)).

(** [table[key]], looked up among the entries written; what an object
    literal answers at the names it inherits, [constructor] and
    [__proto__], is not modelled. *)
Fixpoint get (table : record) (key : jsstring) : option jsstring :=
  match table with
  | [] => None
  | (k, v) :: rest => if bool_decide (k = key) then Some v else get rest key
  end.

(** [Object.keys(table)] *)
Definition keys (table : record) : list jsstring := table.*1.

(** [for (const key of ks) { if (hit key) return table[key]; }]: the
    value the loop returns with, or [None] when it runs to its end. *)
Fixpoint first_hit (table : record) (ks : list jsstring)
    (hit : jsstring -> bool) : option (option jsstring) :=
  match ks with
  | [] => None
  | key :: rest => if hit key then Some (get table key)
                   else first_hit table rest hit
  end.

(** The date and time as the module printed them when it was loaded:
    [toLocaleTimeString()], and [toLocaleDateString] with the weekday
    alone and with weekday, month, day and year. *)
Record clock : Type :=
  { localeTime : jsstring;
    weekday : jsstring;
    fullDate : jsstring }.

(** Enhanced built-in responses for common queries *)
Definition BUILT_IN_RESPONSES (now : clock) : record :=
  [ (* Greetings *)
    (js "hello", js "Hello! How can I assist you today?");
    (js "hi", js "Hi there! How can I help you?");
    (js "hey", js "Hey! What can I do for you?");
    (js "how are you", js "I'm doing well, thank you! How can I help you?");
    (* Help and capabilities *)
    (js "what can you do", js "I can help with various tasks including: answering questions, checking weather, searching information, providing news updates, analyzing sentiment, and translating text. Just ask what you need!");
    (js "help", js "I can assist with various tasks. Try asking about the weather, news, or just chat with me about any topic!");
    (* Time inquiries *)
    (js "what time is it", js "It's currently " ++ localeTime now ++ js ".");
    (js "what day is it", js "Today is " ++ weekday now ++ js ".");
    (js "what is the date", js "Today's date is " ++ fullDate now ++ js ".");
    (* About inquiries *)
    (js "who are you", js "I'm your AI voice assistant, designed to help you with various tasks through voice commands or text input.");
    (js "what is your name", js "I'm your AI assistant, designed to make your life easier through voice and text interaction.");
    (* Weather patterns *)
    (js "what is the weather", js "I'd need to know your location to provide accurate weather information. You can say something like 'What's the weather in London?'");
    (* Jokes *)
    (js "tell me a joke", js "Why don't scientists trust atoms? Because they make up everything!");
    (js "another joke", js "What do you call a fake noodle? An impasta!");
    (* Thank you responses *)
    (js "thank you", js "You're welcome! Is there anything else I can help you with?");
    (js "thanks", js "No problem at all! Let me know if you need anything else.") ].

(** Enhanced general-purpose answers for common questions *)
Definition generalAnswers : list jsstring :=
  [ js "Based on my knowledge, "; js "I believe ";
    js "As far as I understand, "; js "From what I know, " ].

(** Common question patterns and answers *)
Definition COMMON_QUESTIONS : record :=
  [ (js "what is the capital of france", js "The capital of France is Paris.");
    (js "how tall is mount everest", js "Mount Everest is approximately 29,032 feet (8,849 meters) tall, making it the highest mountain on Earth.");
    (js "who wrote romeo and juliet", js "Romeo and Juliet was written by William Shakespeare.");
    (js "what is the largest planet", js "Jupiter is the largest planet in our solar system.");
    (js "when was the declaration of independence signed", js "The Declaration of Independence was signed on July 4, 1776.");
    (js "how many continents are there", js "There are seven continents: Africa, Antarctica, Asia, Europe, North America, Australia/Oceania, and South America.");
    (js "what is the speed of light", js "The speed of light in a vacuum is approximately 299,792,458 meters per second (about 186,282 miles per second).");
    (js "who invented the telephone", js "Alexander Graham Bell is credited with inventing the first practical telephone in 1876.");
    (js "what is the chemical symbol for gold", js "The chemical symbol for gold is Au (from the Latin word " ++ [34] ++ js "aurum" ++ [34] ++ js ").");
    (js "how many elements are in the periodic table", js "There are 118 elements in the modern periodic table.") ].

(** What a handler does to the component and the outside, in order.
    [ReplyLater delay content] is the [setTimeout] whose callback adds
    [content] as an assistant message and speaks it; [SendMessageToAPI]
    is the call of [sendMessageToAPI], the one function of the component
    that calls [fetch] on the chat endpoint. *)
Inductive effect : Type :=
| AddUserMessage (content : jsstring)
| SetInputText (value : jsstring)
| ReplyLater (delay : Z) (content : jsstring)
| SendMessageToAPI (text : jsstring).

Definition calls_api (e : effect) : bool :=
  match e with SendMessageToAPI _ => true | _ => false end.

Section WithEnv.
Context (toLowerCase : jsstring -> jsstring) (now : clock).

(** [words.filter(word => others.includes(word))] *)
Definition common_words (words others : list jsstring) : list jsstring :=
  filter (fun word => word ∈ others) words.

(** Fuzzy match helper for finding the closest built-in response *)
Definition findBestMatch (input : jsstring) : option jsstring :=
  let normalizedInput := trim (toLowerCase input) in
  (* Exact match *)
  if truthy_opt (get (BUILT_IN_RESPONSES now) normalizedInput) then
    get (BUILT_IN_RESPONSES now) normalizedInput
  else
    (* Check for partial matches *)
    match first_hit (BUILT_IN_RESPONSES now) (keys (BUILT_IN_RESPONSES now))
            (fun key => includes normalizedInput key
                        || includes key normalizedInput) with
    | Some r => r
    | None =>
        (* Check for semantic similarity - simple implementation *)
        match first_hit (BUILT_IN_RESPONSES now)
                (keys (BUILT_IN_RESPONSES now))
                (fun key =>
                   let keyWords := split key (js " ") in
                   let inputWords := split normalizedInput (js " ") in
                   (* Check for overlapping words *)
                   let overlap := common_words keyWords inputWords in
                   (* overlap.length >= keyWords.length / 2 *)
                   (0 <? length overlap)%nat
                   && (length keyWords <=? 2 * length overlap)%nat) with
        | Some r => r
        | None => None
        end
    end.

(** Simple similarity calculation between two strings, compared with
    0.7: [commonWords.length / totalUniqueWords > 0.7], on the word
    counts as exact numbers. *)
Definition similar (a b : jsstring) : bool :=
  let aWords := split (toLowerCase a) (js " ") in
  let bWords := split (toLowerCase b) (js " ") in
  let commonWords := common_words aWords bWords in
  let totalUniqueWords := length (remove_dups (aWords ++ bWords)) in
  (7 * totalUniqueWords <? 10 * length commonWords)%nat.

(** Check if a question matches a common question pattern *)
Definition checkCommonQuestion (text : jsstring) : option jsstring :=
  let normalizedText := trim (toLowerCase text) in
  (* Direct match *)
  if truthy_opt (get COMMON_QUESTIONS normalizedText) then
    get COMMON_QUESTIONS normalizedText
  else
    (* Fuzzy match for common questions *)
    match first_hit COMMON_QUESTIONS (keys COMMON_QUESTIONS)
            (fun question => includes normalizedText question
                             || includes question normalizedText
                             || similar normalizedText question) with
    | Some r => r
    | None => None
    end.

(** [text.toLowerCase().startsWith(prefix)] *)
Definition starts (text : jsstring) (prefix : string) : bool :=
  startsWith (toLowerCase text) (js prefix).

(** Process voice input and determine the best response method;
    [u] is the value [Math.random()] gives if it is called. *)
Definition processVoiceInput (u : Net.sample) (text : jsstring)
  : list effect :=
  (* Add user message to the chat *)
  AddUserMessage text ::
  (* Check for built-in responses *)
  let builtInResponse := findBestMatch text in
  if truthy_opt builtInResponse then
    [ReplyLater 300 (default [] builtInResponse)]
  else
    (* Check for common questions *)
    let commonAnswer := checkCommonQuestion text in
    if truthy_opt commonAnswer then
      let prefix :=
        generalAnswers !!! Net.floor_times u (length generalAnswers) in
      let fullAnswer :=
        if starts text "what" || starts text "who"
           || starts text "when" || starts text "how"
        then default [] commonAnswer
        else prefix ++ toLowerCase (default [] commonAnswer) in
      [ReplyLater 300 fullAnswer]
    else
      (* Otherwise, send to API *)
      [SendMessageToAPI text].

(** Handle form submission, with [inputText] the text typed. *)
Definition handleSubmit (u : Net.sample) (inputText : jsstring)
  : list effect :=
  if negb (truthy (trim inputText)) then []
  else
    let text := inputText in
    AddUserMessage inputText :: SetInputText [] ::
    (* First check for built-in responses *)
    let builtInResponse := findBestMatch (toLowerCase text) in
    if truthy_opt builtInResponse then
      [ReplyLater 300 (default [] builtInResponse)]
    else
      (* Check for common questions *)
      let commonAnswer := checkCommonQuestion text in
      if truthy_opt commonAnswer then
        let prefix :=
          generalAnswers !!! Net.floor_times u (length generalAnswers) in
        let fullAnswer :=
          if starts text "what" || starts text "who"
          then default [] commonAnswer
          else prefix ++ toLowerCase (default [] commonAnswer) in
        [ReplyLater 300 fullAnswer]
      else
        (* Otherwise send to API *)
        [SendMessageToAPI text].

End WithEnv.

(** *** Sending a message to the chat API, and the local fallback *)

Inductive Role : Type := user | assistant.

(** [interface Message] *)
Record Message : Type :=
  { role : Role; content : jsstring; timestamp : jsstring }.

(** The body of the chat API's response, as far as the component reads it:
    [null], or a value whose [response] is a string ([Some]) or is not. *)
Inductive chat_data : Type :=
| DataNull
| Data (response : option jsstring).

(** How the call of the chat API ends: the promise rejects, or a response
    arrives, whose body parses as JSON or does not ([None]). *)
Inductive chat_outcome : Type :=
| ChatRejects (message : jsstring)
| ChatResponds (status : Z) (body : option chat_data).

(** What [sendMessageToAPI] does, in order. *)
Inductive api_effect : Type :=
| SetIsProcessing (value : bool)
| RetryLater (delay : Z) (text : jsstring)
| SetLastAPICallTime (time : Z)
| FetchChat (message : jsstring) (history : list jsstring)
| AddAssistantMessage (content : jsstring)
| SpeakText (content : jsstring).

(** Remove common stop words *)
Definition stopWords : list jsstring :=
  js <$> [ "a"; "an"; "the"; "is"; "are"; "was"; "were"; "be"; "been"; "being";
           "to"; "of"; "and"; "or"; "but"; "in"; "on"; "at"; "for"; "with";
           "about"; "against"; "between"; "into"; "through"; "during"; "before";
           "after"; "above"; "below"; "from"; "up"; "down"; "i"; "you"; "he";
           "she"; "it"; "we"; "they"; "me"; "him"; "her"; "us"; "them" ]%string.

(** The class [\w]: ASCII letters, digits and the underscore. *)
Definition isWordChar (c : N) : bool :=
  ((48 <=? c) && (c <=? 57)) || ((65 <=? c) && (c <=? 90)) || (c =? 95)
  || ((97 <=? c) && (c <=? 122)).

(** Throttle API calls to prevent overuse: [now] is [Date.now()]. *)
Definition isThrottled (now lastAPICallTime : Z) : bool :=
  (now - lastAPICallTime <? 1000)%Z.

(** One line of the history sent along: the speaker's tag and the text. *)
Definition history_line (msg : Message) : jsstring :=
  (match role msg with user => js "Human" | assistant => js "AI" end)
  ++ js ": " ++ content msg.

Section Sending.
Context (toLowerCase : jsstring -> jsstring).

(** Extract important keywords from the text: lower-case it, drop every
    code unit that [/[^\w\s]/g] matches, split at the spaces, and keep
    the words longer than two that are no stop words. *)
Definition extractKeywords (text : jsstring) : list jsstring :=
  filter (fun word => (2 <? length word)%nat
                      && negb (bool_decide (word ∈ stopWords)) = true)
    (split (filter (fun c => isWordChar c || isWhiteSpace c = true)
                   (toLowerCase text))
           (js " ")).

(** Generate a fallback response based on keywords *)
Definition generateFallbackResponse (keywords : list jsstring)
    (originalText : jsstring) : jsstring :=
  if (length keywords =? 0)%nat then
    js "I'm not sure how to respond to that. Could you rephrase your question?"
  else
    (* Check if it's a question *)
    let isQuestion :=
      endsWith originalText (js "?")
      || startsWith (toLowerCase originalText) (js "what")
      || startsWith (toLowerCase originalText) (js "how")
      || startsWith (toLowerCase originalText) (js "why")
      || startsWith (toLowerCase originalText) (js "when")
      || startsWith (toLowerCase originalText) (js "where")
      || startsWith (toLowerCase originalText) (js "which")
      || startsWith (toLowerCase originalText) (js "who")
      || startsWith (toLowerCase originalText) (js "can") in
    if isQuestion then
      js "I'd be happy to help with information about "
      ++ join (take 3 keywords) (js ", ")
      ++ js ". Could you provide more specific details about what you'd like to know?"
    else
      js "I understand you're interested in "
      ++ join (take 3 keywords) (js ", ")
      ++ js ". Let me know if you'd like more specific information about this topic.".

(** The [try] block of [sendMessageToAPI] after the call: the message to
    show, or the error thrown. *)
Definition read_chat (o : chat_outcome) (text : jsstring)
  : completion jsstring :=
  match o with
  | ChatRejects e => Throw e
  | ChatResponds status body =>
      if negb (Net.ok status) then Throw (js "Server error: " ++ js (pretty status))
      else
        match body with
        | None => Throw (js "Unexpected token in JSON")
        | Some DataNull => Throw TypeError
        | Some (Data r) =>
            (* Check if we got a valid response *)
            if truthy_opt r then Normal (default [] r)
            (* Fallback to a generic response with the key query terms *)
            else Normal (generateFallbackResponse (extractKeywords text) text)
        end
  end.

(** Send a message to the API.  [messages] and [lastAPICallTime] are the
    component's state as the function sees it, [now] and [now'] the two
    values of [Date.now()], [o] how the call of the chat API ends. *)
Definition sendMessageToAPI (messages : list Message) (lastAPICallTime : Z)
    (now now' : Z) (o : chat_outcome) (text : jsstring) : list api_effect :=
  SetIsProcessing true ::
  (* Prevent API overuse *)
  if isThrottled now lastAPICallTime then [RetryLater 1000 text]
  else
    let shown :=
      match read_chat o text with
      | Normal message => message
      | Throw _ =>
          (* Create a smart fallback based on the query *)
          generateFallbackResponse (extractKeywords text) text
      end in
    [ SetLastAPICallTime now';
      FetchChat text (history_line <$> slice_last 6 messages);
      AddAssistantMessage shown;
      SpeakText shown;
      SetIsProcessing false ].

End Sending.


End VoiceAssistant.

(** ** The translator component: [src/components/features/Translator.tsx] *)

Module Translator.
Import JS.

(** The languages offered: code and name. *)
Definition languages : list (jsstring * jsstring) :=
  [ (js "en", js "English"); (js "hi", js "Hindi"); (js "te", js "Telugu");
    (js "ta", js "Tamil"); (js "kn", js "Kannada"); (js "ml", js "Malayalam");
    (js "bn", js "Bengali"); (js "es", js "Spanish"); (js "fr", js "French");
    (js "de", js "German"); (js "zh", js "Chinese"); (js "ja", js "Japanese") ].

(** [languages.find(lang => lang.code === code)?.name || fallback] *)
Definition name_of (code fallback : jsstring) : jsstring :=
  match list_find (fun lang => lang.1 = code) languages with
  | Some (_, lang) => if truthy lang.2 then lang.2 else fallback
  | None => fallback
  end.

(** The component's state. *)
Record state : Type :=
  { sourceText : jsstring;
    translatedText : jsstring;
    sourceLang : jsstring;
    targetLang : jsstring;
    loading : bool;
    error : option jsstring;
    modelUsed : option jsstring;
    isIndianLanguagePair : bool }.

(** The fields of the translation endpoint's response that the component
    reads; every reply of the endpoint carries a [translation]. *)
Record data : Type :=
  { translation : jsstring;
    model_used : option jsstring;
    is_indian_language_pair : option bool }.

(** How the call of the translation endpoint ends: the promise rejects, or
    a response arrives, whose body does not parse ([None]), is [null]
    ([Some None]) or is an object. *)
Inductive outcome : Type :=
| Rejects (message : jsstring)
| Responds (status : Z) (body : option (option data)).

(** The body the component sends. *)
Definition request_body (s : state) : Translate.translate_body :=
  {| Translate.text := Some (sourceText s);
     Translate.sourceLang := Some (name_of (sourceLang s) (js "English"));
     Translate.targetLang := Some (name_of (targetLang s) (js "Hindi")) |}.

(** The [try] block of [translate]: the state it leaves, or the error. *)
Definition receive (o : outcome) (s : state) : completion state :=
  match o with
  | Rejects e => Throw e
  | Responds status body =>
      if negb (Net.ok status) then Throw (js "Failed to translate text")
      else
        match body with
        | None => Throw (js "Unexpected token in JSON")
        | Some None => Throw TypeError
        | Some (Some d) =>
            Normal
              {| sourceText := sourceText s;
                 translatedText := translation d;
                 sourceLang := sourceLang s;
                 targetLang := targetLang s;
                 loading := loading s;
                 error := error s;
                 (* Set additional information if available *)
                 modelUsed := if truthy_opt (model_used d) then model_used d
                              else modelUsed s;
                 isIndianLanguagePair :=
                   default (isIndianLanguagePair s)
                           (is_indian_language_pair d) |}
        end
  end.

(** [translate], with [server] giving how the call of the endpoint ends
    for the body sent. *)
Definition translate (server : Translate.translate_body -> outcome)
    (s : state) : state :=
  if negb (truthy (trim (sourceText s))) then s
  else
    let s1 :=
      {| sourceText := sourceText s; translatedText := translatedText s;
         sourceLang := sourceLang s; targetLang := targetLang s;
         loading := true; error := None; modelUsed := None;
         isIndianLanguagePair := isIndianLanguagePair s |} in
    let s2 :=
      match receive (server (request_body s)) s1 with
      | Normal s' => s'
      | Throw e =>
          {| sourceText := sourceText s1; translatedText := translatedText s1;
             sourceLang := sourceLang s1; targetLang := targetLang s1;
             loading := loading s1; error := Some e; modelUsed := modelUsed s1;
             isIndianLanguagePair := isIndianLanguagePair s1 |}
      end in
    {| sourceText := sourceText s2; translatedText := translatedText s2;
       sourceLang := sourceLang s2; targetLang := targetLang s2;
       loading := false; error := error s2; modelUsed := modelUsed s2;
       isIndianLanguagePair := isIndianLanguagePair s2 |}.

Definition swapLanguages (s : state) : state :=
  {| sourceText := translatedText s;
     translatedText := sourceText s;
     sourceLang := targetLang s;
     targetLang := sourceLang s;
     loading := loading s;
     error := error s;
     modelUsed := None;
     isIndianLanguagePair := isIndianLanguagePair s |}.

(** The translation endpoint seen from the component: the handler's reply
    as the response that [fetch] resolves to. *)
Definition server (toLowerCase : jsstring -> jsstring) (E : Net.env)
    (body : Translate.translate_body) : outcome :=
  match Translate.POST toLowerCase E (Some body) Net.start with
  | (Normal rep, _) =>
      Responds (Translate.status rep)
        (Some (Some {| translation := Translate.translation rep;
                       model_used := Translate.model_used rep;
                       is_indian_language_pair :=
                         Translate.is_indian_language_pair rep |}))
  | (Throw _, _) => Responds 500 None
  end.

End Translator.

(** ** The specification's wording, to compare the code with *)

Module Spec.
Import JS RegExp Chat.

(** Check order: help, time, date, joke, weather, stock, news, translate,
    sentiment; each intent with the pattern that stands for it. *)
Definition PRIORITY : list (jsstring * RegExp.t) :=
  [ (js "help", COMMAND_PATTERNS.help);
    (js "time", COMMAND_PATTERNS.time);
    (js "date", COMMAND_PATTERNS.date);
    (js "joke", COMMAND_PATTERNS.joke);
    (js "weather", COMMAND_PATTERNS.weather);
    (js "stock", COMMAND_PATTERNS.stockPrice);
    (js "news", COMMAND_PATTERNS.news);
    (js "translate", COMMAND_PATTERNS.translate);
    (js "sentiment", COMMAND_PATTERNS.sentiment) ].

(** The pattern of an entry matches the text. *)
Definition matches (text : jsstring) (entry : jsstring * RegExp.t) : Prop :=
  test entry.2 text = true.

#[export] Instance matches_dec text entry : Decision (matches text entry).
Proof. unfold matches. apply _. Defined.

(** The intent of the first entry, in check order, whose pattern matches;
    none when no pattern does. *)
Definition first_matching (text : jsstring) : option jsstring :=
  (fun hit => hit.2.1) <$> list_find (matches text) PRIORITY.

(** A model call that timed out or met a network error (the promise
    rejects), answered with a non-success status, or answered with a body
    that cannot be read. *)
Definition failed (o : Net.outcome) : bool :=
  match o with
  | Net.Rejects _ => true
  | Net.Responds status body =>
      negb (Net.ok status)
      || match body with
         | Some result =>
             if read_generated result is Throw _ then true else false
         | None => true
         end
  end.

(** The text a model call produced. *)
Definition output (o : Net.outcome) : jsstring :=
  match o with
  | Net.Responds _ (Some result) =>
      if read_generated result is Normal text then text else []
  | _ => []
  end.

(** The pool sentence that the [k]-th random number of a run selects. *)
Definition drawn (E : Net.env) (k : nat) : jsstring :=
  fallbackResponses
    !!! Net.floor_times (Net.random E k) (length fallbackResponses).

(** The built-in matcher as the claim states it: whichever key the
    normalized input contains, or is contained in, the matcher returns
    the canned response of that key. *)
Definition answers_with_that_key (toLowerCase : jsstring → jsstring)
    (now : VoiceAssistant.clock) (input : jsstring) : Prop :=
  ∀ key reply,
    (key, reply) ∈ VoiceAssistant.BUILT_IN_RESPONSES now →
    includes (trim (toLowerCase input)) key = true
    ∨ includes key (trim (toLowerCase input)) = true →
    VoiceAssistant.findBestMatch toLowerCase now input = Some reply.

(** Post-processing as the specification states it, both rules applying
    to every raw output: with an assistant marker in it, nothing up to and
    including that marker is left, so the result lies within the text
    that follows the marker; with a human marker in it, the result is cut
    before that marker, so none is left in the result. *)
Definition postprocessed_as_stated (raw out : jsstring) : Prop :=
  (includes raw (js "AI:") = true →
   ∃ before after, raw = before ++ js "AI:" ++ after
                   ∧ ∃ a b, after = a ++ out ++ b)
  ∧ (includes raw (js "Human:") = true → includes out (js "Human:") = false).

End Spec.

(** ** Concrete runs, for the examples *)

Module Examples.
Import JS Net.

(** The binary64 number nearest to 2/5. *)
Definition two_fifths : sample :=
  {| mant := 7205759403792794; expo := -54; in_unit := eq_refl |}.

(** A configured server whose every model call fails to connect. *)
Definition offline : env :=
  {| apiKey := Some (js "hf_key");
     fetch_outcome := fun _ _ => Rejects (js "fetch failed");
     random := fun _ => two_fifths;
     timeString := js "10:00:00 AM";
     dateString := js "Monday, November 2, 2026" |}.

Definition good_evening : Chat.chat_body :=
  {| Chat.message := Some (js "Good evening");
     Chat.context := None;
     Chat.history := None |}.

(** A request to translate from French to German. *)
Definition french_to_german : Translate.translate_body :=
  {| Translate.text := Some (js "Bonjour");
     Translate.sourceLang := Some (js "French");
     Translate.targetLang := Some (js "German") |}.

Definition morning : VoiceAssistant.clock :=
  {| VoiceAssistant.localeTime := js "10:00:00 AM";
     VoiceAssistant.weekday := js "Monday";
     VoiceAssistant.fullDate := js "Monday, November 2, 2026" |}.

End Examples.

(** ** Notions that the further properties are stated with *)

Module Notions.
Import JS RegExp.

(** Two strings that differ at most in the case of ASCII letters. *)
Definition same_letters (s t : jsstring) : Prop :=
  Forall2 (fun a b => canonicalize true a = canonicalize true b) s t.

(** An ASCII letter, of either case. *)
Definition isLetter (c : N) : bool :=
  ((65 <=? c) && (c <=? 90)) || ((97 <=? c) && (c <=? 122)).

(** Every occurrence of group [n] in [r] has the body [body]. *)
Fixpoint group_is (n : nat) (body r : regex) : Prop :=
  match r with
  | Empty | Atom _ | Rep _ _ _ _ => True
  | Seq r1 r2 | Alt r1 r2 => group_is n body r1 ∧ group_is n body r2
  | Opt r1 => group_is n body r1
  | Group m r1 => if decide (m = n) then r1 = body else group_is n body r1
  end.

(** The pattern of a literal text; [lit] is this on a source literal. *)
Definition literal (p : jsstring) : regex :=
  foldr (fun c r => Seq (Atom (Lit c)) r) Empty p.

(** What the quantified atom [a{lo,hi}] can have consumed. *)
Definition repeats (ic : bool) (a : atom) (lo : nat) (hi : option nat)
    (v : jsstring) : Prop :=
  Forall (fun c => atom_matches ic a c = true) v
  ∧ (lo ≤ length v)%nat
  ∧ ∀ h, hi = Some h → (length v ≤ h)%nat.

(** [out] is a contiguous part of [s]. *)
Definition part_of (out s : jsstring) : Prop := ∃ a b, s = a ++ out ++ b.

(** A model call that brings no response to read: the promise rejects,
    or the status is not a success. *)
Definition declined (o : Net.outcome) : Prop :=
  match o with
  | Net.Rejects _ => True
  | Net.Responds status _ => Net.ok status = false
  end.

(** Whenever there is a translation, [usedModel] names the model that the
    last call went to. *)
Definition names_last_call (p : Translate.progress) (cs : list Net.request)
  : Prop :=
  truthy_opt p.1 = true →
  ∃ m call, p.2 = Some m ∧ last cs = Some call
            ∧ Net.url call = Translate.api ++ m.

(** A reply that came about by calling models: a first call and at most
    four more; then either status 500 after the first call alone, or the
    reply that all models failed, or a success that names the model called
    last. *)
Definition answered_by_models (rep : Translate.reply) (w : Net.world)
  : Prop :=
  ∃ first rest,
    Net.calls w = first :: rest ∧ (length rest ≤ 4)%nat
    ∧ ((Translate.status rep = 500%Z ∧ rest = []
        ∧ Translate.model_used rep = None)
       ∨ (Translate.status rep = 200%Z
          ∧ Translate.error rep = Some (js "All translation models failed")
          ∧ Translate.model_used rep = None)
       ∨ (Translate.status rep = 200%Z ∧ Translate.error rep = None
          ∧ Translate.mockData rep = None
          ∧ ∃ m call, Translate.model_used rep = Some m
                      ∧ last (Net.calls w) = Some call
                      ∧ Net.url call = Translate.api ++ m)).

(** The lower-case names that every object literal answers to without
    having them written: looked up at one of them, a table yields an
    object or a function, none of its entries.  The tables are modelled
    with the entries written alone; the properties of the translation
    endpoint that look a table up at a text of the caller are therefore
    stated for the other names. *)
Definition inherited : list jsstring := [js "constructor"; js "__proto__"].

(** A language name that is looked up, lower-cased, as itself and as the
    code computed for it. *)
Definition plain_name (toLowerCase : jsstring → jsstring)
    (language : jsstring) : Prop :=
  (toLowerCase language ∉ inherited)
  ∧ (toLowerCase (Translate.getLanguageCode toLowerCase language)
     ∉ inherited).

Definition plain_names (toLowerCase : jsstring → jsstring)
    (req : option Translate.translate_body) : Prop :=
  ∀ body language,
    req = Some body →
    Translate.sourceLang body = Some language
    ∨ Translate.targetLang body = Some language →
    plain_name toLowerCase language.

(** The request parses and carries its three fields, none of them empty. *)
Definition has_fields (req : option Translate.translate_body) : bool :=
  truthy_opt (req ≫= Translate.text)
  && truthy_opt (req ≫= Translate.sourceLang)
  && truthy_opt (req ≫= Translate.targetLang).

(** A number in the Standard Library's specification of IEEE 754, to
    compare the operations of [Number] with those of the specification. *)
Definition to_spec (x : Number.t) : SpecFloat.spec_float :=
  match x with
  | Number.Finite s (Zpos m) e => SpecFloat.S754_finite s m e
  | Number.Finite s _ _ => SpecFloat.S754_zero s
  | Number.Infinite s => SpecFloat.S754_infinity s
  | Number.NaN => SpecFloat.S754_nan
  end.

(** Pairs of numbers to compare them on: 3/5 and 5, 7/10 and 10, 2/5 and
    5, the largest number below one and 10, the smallest positive number
    and 3, [2^53] and 1, [2^53 + 2] and 1, -1 and 1, 3/2 and 1, and the
    largest finite number and itself. *)
Definition number_pairs : list (Number.t * Number.t) :=
  [ (Number.Finite false 5404319552844595 (-53), Number.of_Z 5);
    (Number.Finite false 6305039478318694 (-53), Number.of_Z 10);
    (Number.Finite false 7205759403792794 (-54), Number.of_Z 5);
    (Number.Finite false 9007199254740991 (-53), Number.of_Z 10);
    (Number.Finite false 1 (-1074), Number.of_Z 3);
    (Number.of_Z 9007199254740992, Number.of_Z 1);
    (Number.of_Z 9007199254740994, Number.of_Z 1);
    (Number.of_Z (-1), Number.of_Z 1);
    (Number.Finite false 6755399441055744 (-52), Number.of_Z 1);
    (Number.Finite false 9007199254740991 971,
     Number.Finite false 9007199254740991 971) ]%Z.

(** The chat endpoint answered with [r]: a success status and a body
    whose [response] is the non-empty string [r]. *)
Definition answered (o : VoiceAssistant.chat_outcome) (r : jsstring) : Prop :=
  ∃ status,
    o = VoiceAssistant.ChatResponds status
          (Some (VoiceAssistant.Data (Some r)))
    ∧ Net.ok status = true ∧ r ≠ [].

(** The phrases of the help pattern. *)
Definition help_phrases : list jsstring :=
  [js "help"; js "assist"; js "guidance"; js "commands"; js "what can you do"].

(** The five intents that have no handler. *)
Definition unimplemented : list jsstring :=
  [js "weather"; js "stock"; js "news"; js "translate"; js "sentiment"].

(** Lower-casing that agrees with JavaScript's on ASCII text: code units
    from [A] to [Z] go to [a] to [z], the other code units below 128 stay. *)
Definition lowers_ascii (toLowerCase : jsstring → jsstring) : Prop :=
  ∀ s, Forall (fun c => c < 128) s → toLowerCase s = toLowerCaseASCII s.

End Notions.

(** ** Further environments and requests to evaluate on *)

Module MoreExamples.
Import JS Net.

(** A configured server whose every model call is answered. *)
Definition answering : env :=
  {| apiKey := Some (js "hf_key");
     fetch_outcome := fun _ _ =>
       Responds 200
         (Some (JArray [JObject (Some (js "AI: Paris is the capital."))
                                (Some (js "Hallo"))]));
     random := fun _ => Examples.two_fifths;
     timeString := js "10:00:00 AM";
     dateString := js "Monday, November 2, 2026" |}.

(** The binary64 number nearest to 3/5. *)
Definition three_fifths : sample :=
  {| mant := 5404319552844595; expo := -53; in_unit := eq_refl |}.

Definition price_of_msft : Chat.chat_body :=
  {| Chat.message := Some (js "what is the price of msft");
     Chat.context := None;
     Chat.history := None |}.

Definition name_the_capital : Chat.chat_body :=
  {| Chat.message := Some (js "Name the capital of France");
     Chat.context := None;
     Chat.history := None |}.

(** A configured server whose every model call meets status 503. *)
Definition unavailable : env :=
  {| apiKey := Some (js "hf_key");
     fetch_outcome := fun _ _ => Responds 503 None;
     random := fun _ => Examples.two_fifths;
     timeString := js "10:00:00 AM";
     dateString := js "Monday, November 2, 2026" |}.

(** A request to translate from English to Hindi. *)
Definition english_to_hindi : Translate.translate_body :=
  {| Translate.text := Some (js "Good morning");
     Translate.sourceLang := Some (js "English");
     Translate.targetLang := Some (js "Hindi") |}.

End MoreExamples.


(** * Properties *)

(** Running handler code: unfold the plumbing of [Net.M]. *)
Ltac run_M :=
  unfold mbind, mret, Net.M_bind, Net.M_ret, Net.try_catch, Net.throw, Net.lift.

(** ** JavaScript numbers *)

Module NumberFacts.
Import Number.
Local Open Scope Z_scope.

Lemma digits_bounds m :
  0 < m → 1 <= digits m ∧ 2 ^ (digits m - 1) <= m ∧ m < 2 ^ digits m.
Proof.
  intros Hm. unfold digits. rewrite (proj2 (Z.eqb_neq m 0)) by lia.
  pose proof (Z.log2_nonneg m). pose proof (Z.log2_spec m Hm) as Hs.
  replace (Z.log2 m + 1 - 1) with (Z.log2 m) by lia.
  replace (Z.log2 m + 1) with (Z.succ (Z.log2 m)) by lia. lia.
Qed.

Lemma digits_unique m d :
  1 <= d → 2 ^ (d - 1) <= m → m < 2 ^ d → digits m = d.
Proof.
  intros Hd Hm Hm'.
  assert (0 < m) by (pose proof (Z.pow_pos_nonneg 2 (d - 1)); lia).
  unfold digits. rewrite (proj2 (Z.eqb_neq m 0)) by lia.
  rewrite (Z.log2_unique m (d - 1)); [lia|lia|].
  replace (Z.succ (d - 1)) with d by lia. done.
Qed.

Lemma pow2_split a b : 0 <= a → 0 <= b → 2 ^ (a + b) = 2 ^ a * 2 ^ b.
Proof. intros. by apply Z.pow_add_r. Qed.

Lemma pow2_pos a : 0 <= a → 0 < 2 ^ a.
Proof. intros. by apply Z.pow_pos_nonneg. Qed.

Lemma pow2_le a b : a <= b → 0 <= a → 2 ^ a <= 2 ^ b.
Proof. intros. apply Z.pow_le_mono_r; lia. Qed.

Lemma pow2_lt a b : a < b → 0 <= a → 2 ^ a < 2 ^ b.
Proof. intros. apply Z.pow_lt_mono_r; lia. Qed.

(** Below the value [w * 2^(-t)]: what [floor] gives for a mantissa and
    an exponent. *)
Lemma floor_below m e' n t :
  0 <= m → 0 < n → 0 <= t → 0 <= e' + t →
  m * 2 ^ (e' + t) < n * 2 ^ t →
  ∃ f, floor (Finite false m e') = Some f ∧ 0 <= f ∧ f < n.
Proof.
  intros Hm Hn Ht Het Hlt. cbn [floor signed].
  pose proof (pow2_pos t Ht) as Hpt.
  destruct (0 <=? e') eqn:He.
  - apply Z.leb_le in He. pose proof (pow2_pos e' He).
    rewrite pow2_split in Hlt by lia.
    eexists. split; [done|]. split; nia.
  - apply Z.leb_gt in He. pose proof (pow2_pos (- e') ltac:(lia)) as Hpe.
    pose proof (pow2_pos (e' + t) Het) as Hpet.
    pose proof (pow2_split (e' + t) (- e') ltac:(lia) ltac:(lia)) as Hsp.
    replace (e' + t + - e') with t in Hsp by lia.
    eexists. split; [done|]. split.
    + apply Z.div_pos; lia.
    + apply Z.div_lt_upper_bound; [lia|]. nia.
Qed.

(** The product of a number below one and a positive integer, rounded,
    stays below the integer. *)
Lemma round_product_below m e a k n :
  0 <= m → m < 2 ^ 53 → -1074 <= e → e < 0 → m < 2 ^ (- e) →
  0 <= k → k <= 52 → 2 ^ 52 <= a → a < 2 ^ 53 → a = n * 2 ^ k →
  ∃ f, floor (round false (m * a) (e - k)) = Some f ∧ 0 <= f ∧ f < n.
Proof.
  intros Hm0 Hm He He' Hu Hk Hk' Ha Ha' Han.
  assert (Hn : 0 < n).
  { pose proof (pow2_pos k). pose proof (pow2_pos 52). nia. }
  pose proof (pow2_pos k ltac:(lia)) as Hpk.
  pose proof (pow2_pos (- e) ltac:(lia)) as Hpe.
  set (M := m * a). set (E := e - k).
  assert (HE : E < 0) by (unfold E; lia).
  (* the exact product stays [a] units of [2^E] below [n] *)
  assert (HW : M + a <= a * 2 ^ (- e)) by (unfold M; nia).
  assert (HS : n * 2 ^ (- E) = a * 2 ^ (- e)).
  { unfold E. replace (- (e - k)) with (k + - e) by lia.
    rewrite pow2_split by lia. nia. }
  unfold round. set (e' := exponent M E).
  (* it is enough that the rounded mantissa stays below [n] *)
  assert (Hpack : ∀ m', 0 <= m' → m' <= 2 ^ 53 → e' < 971 →
            E <= e' → m' * 2 ^ (e' - E) < n * 2 ^ (- E) →
            ∃ f, floor (pack false m' e') = Some f ∧ 0 <= f ∧ f < n).
  { intros m' Hm'0 Hm'1 He'1 He'2 Hm'2. unfold pack.
    destruct (Z.eqb_spec m' 0) as [->|Hne0].
    { apply (floor_below 0 (-1074) n 1074); lia. }
    replace (e' - E) with (e' + - E) in Hm'2 by lia.
    destruct (Z.eqb_spec m' (2 ^ 53)) as [->|Hne53].
    - rewrite (proj2 (Z.ltb_ge _ _)) by lia.
      apply (floor_below _ _ _ (- E)); try lia.
      replace (e' + 1 + - E) with (1 + (e' + - E)) by lia.
      rewrite pow2_split by lia.
      change (2 ^ 53) with (2 ^ 52 * 2 ^ 1) in Hm'2. lia.
    - rewrite (proj2 (Z.ltb_ge _ _)) by lia.
      apply (floor_below _ _ _ (- E)); lia. }
  destruct (Z.eq_dec M 0) as [HM|HM].
  { assert (nearest M E e' = 0) as ->.
    { rewrite HM. unfold nearest.
      destruct (e' <=? E) eqn:Hle; [lia|]. apply Z.leb_gt in Hle.
      cbv zeta. rewrite Z.mod_0_l, Z.div_0_l
        by (pose proof (pow2_pos (e' - E)); lia).
      pose proof (pow2_pos (e' - E - 1)).
      by rewrite (proj2 (Z.ltb_lt 0 _)) by lia. }
    unfold pack. rewrite Z.eqb_refl.
    apply (floor_below 0 (-1074) n 1074); lia. }
  assert (HMpos : 0 < M) by (unfold M in *; nia).
  destruct (digits_bounds M HMpos) as (Hd1 & Hlo & Hhi).
  assert (Hd : digits M <= 106).
  { destruct (Z_le_gt_dec (digits M) 106) as [?|Hgt]; [done|].
    pose proof (pow2_le 106 (digits M - 1) ltac:(lia) ltac:(lia)) as Hp.
    change (2 ^ 106) with (2 ^ 53 * 2 ^ 53) in Hp. unfold M in *. nia. }
  assert (He'971 : e' < 971) by (unfold e', exponent; lia).
  unfold nearest.
  destruct (e' <=? E) eqn:Hle.
  - (* the product is a binary64 value *)
    apply Z.leb_le in Hle.
    pose proof (pow2_pos (E - e') ltac:(lia)) as Hps.
    assert (Hm' : M * 2 ^ (E - e') < 2 ^ 53).
    { assert (digits M + (E - e') <= 53) by (unfold e', exponent; lia).
      pose proof (pow2_split (digits M) (E - e') ltac:(lia) ltac:(lia)).
      pose proof (pow2_le (digits M + (E - e')) 53 ltac:(lia) ltac:(lia)).
      nia. }
    unfold pack.
    rewrite (proj2 (Z.eqb_neq _ 0)) by nia.
    rewrite (proj2 (Z.eqb_neq _ (2 ^ 53))) by lia.
    rewrite (proj2 (Z.ltb_ge _ _)) by lia.
    apply (floor_below _ _ _ (- e')); try lia.
    rewrite Z.add_opp_diag_r, Z.mul_1_r.
    replace (- e') with (- E + (E - e')) by lia.
    rewrite pow2_split by lia. nia.
  - (* the product is rounded *)
    apply Z.leb_gt in Hle. cbv zeta.
    set (s := e' - E) in *.
    pose proof (pow2_pos s ltac:(lia)) as Hps.
    pose proof (pow2_pos (s - 1) ltac:(lia)) as Hph.
    assert (Hhalf : 2 ^ s = 2 * 2 ^ (s - 1)).
    { replace s with (1 + (s - 1)) at 1 by lia.
      rewrite pow2_split by lia. done. }
    pose proof (Z.div_mod M (2 ^ s) ltac:(lia)) as Hdm.
    pose proof (Z.mod_pos_bound M (2 ^ s) ltac:(lia)) as Hr.
    set (q := M / 2 ^ s) in *. set (r := M mod 2 ^ s) in *.
    (* half a unit is less than [a] *)
    assert (Hsa : 2 ^ (s - 1) < a).
    { destruct (Z.max_spec (E + digits M - 53) (-1074)) as [[_ He'']|[_ He'']];
        fold (exponent M E) in He''; fold e' in He''.
      - assert (s <= k) by (unfold s, E; lia).
        pose proof (pow2_le (s - 1) 51 ltac:(lia) ltac:(lia)).
        pose proof (pow2_lt 51 52 ltac:(lia) ltac:(lia)). lia.
      - assert (digits M - 1 = 52 + s) as Hds by (unfold s; lia).
        rewrite Hds in Hlo. rewrite pow2_split in Hlo by lia.
        unfold M in Hlo. rewrite Hhalf in Hlo.
        change (2 ^ 53) with (2 * 2 ^ 52) in Hm. nia. }
    assert (Hq : 0 <= q) by (apply Z.div_pos; lia).
    assert (Hq53 : q < 2 ^ 53).
    { apply Z.div_lt_upper_bound; [lia|].
      assert (digits M <= 53 + s) by (unfold s, e', exponent; lia).
      pose proof (pow2_le (digits M) (53 + s) ltac:(lia) ltac:(lia)) as Hdd.
      rewrite pow2_split in Hdd by lia. lia. }
    apply Hpack; try lia.
    + destruct (r <? 2 ^ (s - 1)); [lia|].
      destruct (2 ^ (s - 1) <? r); [lia|]. destruct (Z.even q); lia.
    + destruct (r <? 2 ^ (s - 1)); [lia|].
      destruct (2 ^ (s - 1) <? r); [lia|]. destruct (Z.even q); lia.
    + fold s. rewrite HS.
      destruct (r <? 2 ^ (s - 1)) eqn:Hlt; [nia|].
      apply Z.ltb_ge in Hlt.
      assert (Hup : (q + 1) * 2 ^ s < a * 2 ^ (- e)) by nia.
      destruct (2 ^ (s - 1) <? r); [done|].
      destruct (Z.even q); [nia|done].
Qed.

Lemma digits_shift m j : 0 < m → 0 <= j → digits (m * 2 ^ j) = digits m + j.
Proof.
  intros Hm Hj. destruct (digits_bounds m Hm) as (Hd1 & Hlo & Hhi).
  pose proof (pow2_pos j Hj).
  apply digits_unique; [lia| |].
  - replace (digits m + j - 1) with (digits m - 1 + j) by lia.
    rewrite pow2_split by lia. nia.
  - rewrite pow2_split by lia. nia.
Qed.

(** Rounding looks at the value, not at the way it is written. *)
Lemma round_scale s m e j :
  0 < m → 0 <= j → round s (m * 2 ^ j) (e - j) = round s m e.
Proof.
  intros Hm Hj. unfold round, exponent. rewrite digits_shift by done.
  replace (e - j + (digits m + j) - 53) with (e + digits m - 53) by lia.
  set (e' := Z.max _ _). f_equal. unfold nearest.
  pose proof (pow2_pos j Hj) as Hpj.
  destruct (e' <=? e - j) eqn:H1.
  { apply Z.leb_le in H1. rewrite (proj2 (Z.leb_le e' e)) by lia.
    replace (e - e') with (j + (e - j - e')) by lia.
    rewrite pow2_split by lia. lia. }
  apply Z.leb_gt in H1. cbv zeta.
  destruct (e' <=? e) eqn:H2.
  { apply Z.leb_le in H2.
    pose proof (pow2_pos (e' - (e - j)) ltac:(lia)) as Hp.
    pose proof (pow2_pos (e' - (e - j) - 1) ltac:(lia)) as Hh.
    assert (Hm2 : m * 2 ^ j = m * 2 ^ (e - e') * 2 ^ (e' - (e - j))).
    { rewrite <-Z.mul_assoc, <-pow2_split by lia. f_equal. f_equal. lia. }
    rewrite Hm2, Z.mod_mul, Z.div_mul by lia.
    by rewrite (proj2 (Z.ltb_lt 0 _)) by lia. }
  apply Z.leb_gt in H2.
  pose proof (pow2_pos (e' - e) ltac:(lia)) as Hp.
  pose proof (pow2_pos (e' - e - 1) ltac:(lia)) as Hh.
  replace (e' - (e - j)) with (e' - e + j) by lia.
  replace (e' - e + j - 1) with (e' - e - 1 + j) by lia.
  rewrite !pow2_split by lia.
  rewrite Z.div_mul_cancel_r, Z.mul_mod_distr_r by lia.
  set (q := m / 2 ^ (e' - e)). set (r := m mod 2 ^ (e' - e)).
  set (h := 2 ^ (e' - e - 1)) in *.
  destruct (Z.ltb_spec r h), (Z.ltb_spec (r * 2 ^ j) (h * 2 ^ j));
    try nia.
  destruct (Z.ltb_spec h r), (Z.ltb_spec (h * 2 ^ j) (r * 2 ^ j));
    try nia; try done.
Qed.

Lemma round_small s z :
  0 < z < 2 ^ 53 →
  round s z 0 = Finite s (z * 2 ^ (53 - digits z)) (digits z - 53)
  ∧ 1 <= digits z ∧ digits z <= 53.
Proof.
  intros Hz. destruct (digits_bounds z) as (Hd1 & Hlo & Hhi); [lia|].
  assert (Hd : digits z <= 53).
  { destruct (Z_le_gt_dec (digits z) 53) as [?|Hgt]; [done|].
    pose proof (pow2_le 53 (digits z - 1)). lia. }
  split; [|lia].
  unfold round, exponent, nearest, pack.
  rewrite Z.add_0_l.
  rewrite Z.max_l by lia.
  rewrite (proj2 (Z.leb_le (digits z - 53) 0)) by lia.
  replace (0 - (digits z - 53)) with (53 - digits z) by lia.
  pose proof (pow2_pos (53 - digits z)) as Hp.
  pose proof (pow2_split (digits z) (53 - digits z)) as Hs.
  replace (digits z + (53 - digits z)) with 53 in Hs by lia.
  assert (z * 2 ^ (53 - digits z) < 2 ^ 53) by nia.
  rewrite (proj2 (Z.eqb_neq _ 0)) by nia.
  rewrite (proj2 (Z.eqb_neq _ (2 ^ 53))) by lia.
  rewrite (proj2 (Z.ltb_ge _ _)) by lia. done.
Qed.

(** Adding one to an integer below [2^53] in magnitude is exact. *)
Lemma add_one z :
  - 2 ^ 53 <= z → z < 2 ^ 53 → add (of_Z z) (of_Z 1) = of_Z (z + 1).
Proof.
  intros Hlo Hhi.
  change (of_Z 1) with (Finite false (2 ^ 52) (-52)).
  destruct (Z.eq_dec z (- 2 ^ 53)) as [->|Hmin]; [by vm_compute|].
  destruct (Z.eq_dec z 0) as [->|Hz]; [by vm_compute|].
  assert (Hform : of_Z z
                  = Finite (z <? 0) (Z.abs z * 2 ^ (53 - digits (Z.abs z)))
                      (digits (Z.abs z) - 53)
                    ∧ 1 <= digits (Z.abs z) ∧ digits (Z.abs z) <= 53).
  { unfold of_Z. apply round_small. lia. }
  destruct Hform as (-> & Hd1 & Hd53).
  set (d := digits (Z.abs z)) in *. unfold add.
  rewrite Z.min_r by lia.
  replace (d - 53 - -52) with (d - 1) by lia.
  replace (-52 - -52) with 0 by lia. rewrite Z.pow_0_r, Z.mul_1_r.
  rewrite <-Z.mul_assoc, <-pow2_split by lia.
  replace (53 - d + (d - 1)) with 52 by lia.
  assert (Hsum : signed (z <? 0) (Z.abs z * 2 ^ 52) + signed false (2 ^ 52)
                 = (z + 1) * 2 ^ 52).
  { unfold signed. destruct (Z.ltb_spec z 0); lia. }
  rewrite Hsum.
  destruct (Z.eq_dec z (-1)) as [->|Hm1]; [by vm_compute|].
  rewrite (proj2 (Z.eqb_neq _ 0)) by lia.
  assert (Z.abs ((z + 1) * 2 ^ 52) = Z.abs (z + 1) * 2 ^ 52) as -> by lia.
  assert (((z + 1) * 2 ^ 52 <? 0) = (z + 1 <? 0)) as ->.
  { destruct (Z.ltb_spec ((z + 1) * 2 ^ 52) 0), (Z.ltb_spec (z + 1) 0);
      lia. }
  unfold of_Z. by rewrite <-(round_scale _ (Z.abs (z + 1)) 0 52) by lia.
Qed.

(** On the pairs of [number_pairs], product and sum are those of the
    Standard Library's specification of binary64 arithmetic. *)
Lemma agrees_with_specification :
  Forall (fun p =>
            Notions.to_spec (mul p.1 p.2)
            = SpecFloat.SFmul 53 1024 (Notions.to_spec p.1)
                (Notions.to_spec p.2)
            ∧ Notions.to_spec (add p.1 p.2)
              = SpecFloat.SFadd 53 1024 (Notions.to_spec p.1)
                  (Notions.to_spec p.2))
         Notions.number_pairs.
Proof. repeat constructor; vm_compute; reflexivity. Qed.

(** At [2^53] the sum with one is a tie and rounds back: the count
    stays. *)
Lemma add_one_limit : add (of_Z (2 ^ 53)) (of_Z 1) = of_Z (2 ^ 53).
Proof. by vm_compute. Qed.

End NumberFacts.

(** ** JavaScript strings *)

Module JSFacts.
Import JS Notions.

Lemma startsWith_true s p : startsWith s p = true ↔ ∃ rest, s = p ++ rest.
Proof.
  revert s. induction p as [|a p IH]; intros s; simpl.
  - split; [eauto|done].
  - destruct s as [|b s]; simpl.
    + split; [done|]. by intros [? ?].
    + rewrite andb_true_iff, N.eqb_eq, IH. split.
      * intros (-> & rest & ->). eauto.
      * intros (rest & [= -> ->]). eauto.
Qed.

Lemma startsWith_app s p x :
  (length p ≤ length s)%nat → startsWith (s ++ x) p = startsWith s p.
Proof.
  revert s. induction p as [|a p IH]; intros s; simpl; [done|].
  destruct s as [|b s]; simpl; [lia|].
  intros Hlen. rewrite IH by lia. done.
Qed.

Lemma breakOn_eq sep s :
  breakOn sep s =
  if startsWith s sep then Some ([], drop (length sep) s)
  else match s with
       | [] => None
       | c :: s' =>
           match breakOn sep s' with
           | Some (before, after) => Some (c :: before, after)
           | None => None
           end
       end.
Proof. by destruct s. Qed.

Lemma breakOn_Some sep s a b :
  breakOn sep s = Some (a, b) → s = a ++ sep ++ b.
Proof.
  revert a. induction s as [|c s IH]; intros a; simpl.
  - destruct (startsWith [] sep) eqn:Hs; [|done].
    apply startsWith_true in Hs as [rest Hs]. intros [= <- <-].
    destruct sep; [done|discriminate Hs].
  - destruct (startsWith (c :: s) sep) eqn:Hs.
    + apply startsWith_true in Hs as [rest Hs]. intros [= <- <-].
      rewrite Hs at 1. simpl. f_equal.
      by rewrite Hs, drop_app_length.
    + destruct (breakOn sep s) as [[a' b']|] eqn:Hb; [|done].
      intros [= <- <-]. simpl. f_equal. by apply IH.
Qed.

(** [includes] is what it says: the text occurs in the string. *)
Lemma includes_true s sub :
  includes s sub = true ↔ ∃ a b, s = a ++ sub ++ b.
Proof.
  unfold includes. split.
  - destruct (breakOn sub s) as [[a b]|] eqn:Hb; [|done].
    intros _. apply breakOn_Some in Hb. eauto.
  - intros (a & b & ->). induction a as [|c a IH]; simpl.
    + assert (Hs : startsWith (sub ++ b) sub = true)
        by (apply startsWith_true; eauto).
      by rewrite breakOn_eq, Hs.
    + destruct (startsWith (c :: a ++ sub ++ b) sub); [done|].
      by destruct (breakOn sub (a ++ sub ++ b)) as [[? ?]|].
Qed.

Lemma includes_cons_false c s sub :
  includes (c :: s) sub = false →
  startsWith (c :: s) sub = false ∧ includes s sub = false.
Proof.
  unfold includes. simpl.
  destruct (startsWith (c :: s) sub); [done|].
  by destruct (breakOn sub s) as [[? ?]|].
Qed.

(** The first occurrence: no occurrence of [sep] starts within [pre]. *)
Lemma breakOn_first sep pre post :
  sep ≠ [] → includes (pre ++ removelast sep) sep = false →
  breakOn sep (pre ++ sep ++ post) = Some (pre, post).
Proof.
  intros Hsep. induction pre as [|c pre IH]; intros Hno.
  - assert (Hs : startsWith (sep ++ post) sep = true)
      by (apply startsWith_true; eauto).
    simpl app. by rewrite breakOn_eq, Hs, drop_app_length.
  - simpl app in *. apply includes_cons_false in Hno as [Hs Hno].
    assert (Hs' : startsWith (c :: pre ++ sep ++ post) sep = false).
    { rewrite (app_removelast_last 0 Hsep) at 1.
      rewrite <-(app_assoc (removelast sep)), app_assoc, app_comm_cons.
      rewrite startsWith_app; [done|].
      simpl. rewrite length_app.
      rewrite (app_removelast_last 0 Hsep) at 1.
      rewrite length_app. simpl. lia. }
    rewrite breakOn_eq, Hs', (IH Hno). done.
Qed.

Lemma breakOn_None sep s : includes s sep = false → breakOn sep s = None.
Proof. unfold includes. by destruct (breakOn sep s). Qed.

Lemma split_rounds_None n sep s :
  breakOn sep s = None → split_rounds n sep s = [s].
Proof. intros Hb. destruct n; simpl; [done|]. by rewrite Hb. Qed.

(** The separator occurring once cuts the string in two. *)
Lemma split_once sep pre post :
  sep ≠ [] → includes (pre ++ removelast sep) sep = false →
  includes post sep = false →
  split (pre ++ sep ++ post) sep = [pre; post].
Proof.
  intros Hsep Hpre Hpost. unfold split.
  destruct (length (pre ++ sep ++ post)) as [|n] eqn:Hlen.
  - rewrite !length_app in Hlen. destruct sep; [done|simpl in Hlen; lia].
  - simpl. rewrite breakOn_first by done.
    by rewrite split_rounds_None by by apply breakOn_None.
Qed.

(** Before the first occurrence comes the first piece, and another
    piece follows it. *)
Lemma split_first sep pre post :
  sep ≠ [] → includes (pre ++ removelast sep) sep = false →
  ∃ piece rest, split (pre ++ sep ++ post) sep = pre :: piece :: rest.
Proof.
  intros Hsep Hpre. unfold split.
  destruct (length (pre ++ sep ++ post)) as [|n] eqn:Hlen.
  - rewrite !length_app in Hlen. destruct sep; [done|simpl in Hlen; lia].
  - simpl. rewrite breakOn_first by done.
    destruct n; simpl; [by eauto|].
    destruct (breakOn sep post) as [[a b]|]; eauto.
Qed.

(** A string that includes the separator splits into two pieces at
    least. *)
Lemma split_includes s sep :
  sep ≠ [] → includes s sep = true →
  ∃ first second rest, split s sep = first :: second :: rest.
Proof.
  intros Hsep. unfold includes, split.
  destruct (breakOn sep s) as [[a b]|] eqn:Hb; [intros _|done].
  destruct s as [|c s].
  { apply breakOn_Some in Hb. destruct a, sep; done. }
  simpl length. unfold split_rounds; fold split_rounds. rewrite Hb.
  destruct (length s); simpl; [by eauto|].
  destruct (breakOn sep b) as [[? ?]|]; eauto.
Qed.

(** *** Parts of a string *)

Lemma part_of_refl s : part_of s s.
Proof. exists [], []. by rewrite app_nil_r. Qed.

Lemma part_of_trans x y z : part_of x y → part_of y z → part_of x z.
Proof.
  intros (a & b & ->) (a' & b' & ->). exists (a' ++ a), (b ++ b').
  by rewrite <-!app_assoc.
Qed.

Lemma trimStart_suffix s : ∃ a, s = a ++ trimStart s.
Proof.
  induction s as [|c s [a IH]]; [by exists []|]. simpl.
  destruct (isWhiteSpace c); [|by exists []].
  exists (c :: a). simpl. by f_equal.
Qed.

Lemma trimEnd_prefix s : ∃ b, s = trimEnd s ++ b.
Proof.
  unfold trimEnd. destruct (trimStart_suffix (reverse s)) as [a Ha].
  exists (reverse a). apply (f_equal reverse) in Ha.
  by rewrite reverse_involutive, reverse_app in Ha.
Qed.

Lemma trim_part s : part_of (trim s) s.
Proof.
  unfold trim. destruct (trimStart_suffix s) as [a Ha].
  destruct (trimEnd_prefix (trimStart s)) as [b Hb].
  exists a, b. by rewrite <-Hb.
Qed.

Lemma split_rounds_part n sep s p : p ∈ split_rounds n sep s → part_of p s.
Proof.
  revert s. induction n as [|n IH]; intros s; cbn [split_rounds].
  - rewrite list_elem_of_singleton. intros ->. apply part_of_refl.
  - destruct (breakOn sep s) as [[before after]|] eqn:Hb.
    + apply breakOn_Some in Hb as ->. rewrite elem_of_cons.
      intros [->|(a & b & ->)%IH].
      * by exists [], (sep ++ after).
      * exists (before ++ sep ++ a), b. by rewrite <-!app_assoc.
    + rewrite list_elem_of_singleton. intros ->. apply part_of_refl.
Qed.

(** The pieces of a string split at a separator: the text before the
    first separator, and the pieces of the text after it. *)
Lemma split_cons s sep b a :
  sep ≠ [] → breakOn sep s = Some (b, a) →
  ∃ n, split s sep = b :: split_rounds n sep a.
Proof.
  intros Hsep Hb. unfold split. destruct s as [|c s].
  { apply breakOn_Some in Hb. destruct b, sep; done. }
  exists (length s). simpl length. cbn [split_rounds]. by rewrite Hb.
Qed.

Lemma split_rounds_head n sep s :
  ∃ x l, split_rounds n sep s = x :: l ∧ part_of x s.
Proof.
  assert (∃ x l, split_rounds n sep s = x :: l) as (x & l & Hs).
  { destruct n; cbn [split_rounds]; [by eauto|].
    destruct (breakOn sep s) as [[? ?]|]; eauto. }
  exists x, l. split; [done|].
  apply (split_rounds_part n sep). rewrite Hs. apply list_elem_of_here.
Qed.

(** The text before the first separator holds no separator. *)
Lemma breakOn_before sep s b a :
  sep ≠ [] → breakOn sep s = Some (b, a) → includes b sep = false.
Proof.
  intros Hsep. revert b. induction s as [|c s IH]; intros b;
    rewrite breakOn_eq.
  - destruct (startsWith [] sep); [|done]. intros [= <- <-].
    unfold includes. rewrite breakOn_eq. by destruct sep.
  - destruct (startsWith (c :: s) sep) eqn:Hs.
    { intros [= <- <-]. unfold includes. rewrite breakOn_eq.
      by destruct sep. }
    destruct (breakOn sep s) as [[b' a']|] eqn:Hb; [|done].
    intros [= <- <-]. specialize (IH b' eq_refl).
    unfold includes in *. rewrite breakOn_eq.
    destruct (startsWith (c :: b') sep) eqn:Hs'.
    + apply startsWith_true in Hs' as [rest Hrest].
      apply breakOn_Some in Hb. rewrite Hb, app_comm_cons, Hrest in Hs.
      rewrite <-app_assoc in Hs.
      assert (startsWith (sep ++ rest ++ sep ++ a') sep = true)
        by (apply startsWith_true; eauto).
      congruence.
    + by destruct (breakOn sep b') as [[? ?]|].
Qed.

Lemma includes_part x y sep :
  part_of x y → includes x sep = true → includes y sep = true.
Proof.
  intros (a & b & ->) (a' & b' & ->)%includes_true. apply includes_true.
  exists (a ++ a'), (b' ++ b). by rewrite <-!app_assoc.
Qed.

(** A string with two separators or more: its second piece is the text
    between the first two. *)
Lemma split_second sep pre mid post :
  sep ≠ [] → includes (pre ++ removelast sep) sep = false →
  includes (mid ++ removelast sep) sep = false →
  split (pre ++ sep ++ mid ++ sep ++ post) sep !! 1%nat = Some mid.
Proof.
  intros Hsep Hpre Hmid. unfold split.
  destruct (length (pre ++ sep ++ mid ++ sep ++ post)) as [|[|n]] eqn:Hlen.
  - rewrite !length_app in Hlen. destruct sep; [done|simpl in Hlen; lia].
  - rewrite !length_app in Hlen. destruct sep; [done|simpl in Hlen; lia].
  - cbn [split_rounds]. rewrite breakOn_first by done.
    by rewrite breakOn_first by done.
Qed.

End JSFacts.

(** ** Regular expression matching *)

Module RegExpFacts.
Import JS RegExp.

Lemma rep_length ic greedy a s lo hi s' :
  s' ∈ rep ic greedy a s lo hi → (length s' + lo ≤ length s)%nat.
Proof.
  revert lo hi. induction s as [|c s IH]; intros lo hi; simpl.
  - destruct lo, hi as [[|h]|], greedy; simpl;
      rewrite ?elem_of_nil, ?list_elem_of_singleton; try tauto;
      intros ->; simpl; lia.
  - assert (Hmore : s' ∈ (if atom_matches ic a c
                          then rep ic greedy a s (pred lo) (pred <$> hi)
                          else []) → (length s' + lo ≤ S (length s))%nat).
    { destruct (atom_matches ic a c); [|by rewrite elem_of_nil].
      intros H%IH. lia. }
    assert (Hstop : s' ∈ match lo with O => [c :: s] | S _ => [] end →
                    (length s' + lo ≤ S (length s))%nat).
    { destruct lo; [|by rewrite elem_of_nil].
      rewrite list_elem_of_singleton. intros ->. simpl. lia. }
    destruct hi as [[|h]|], greedy; rewrite ?elem_of_app, ?elem_of_nil;
      intuition.
Qed.

Lemma run_length ic r s caps p :
  p ∈ run ic r s caps → (length p.1 + min_len r ≤ length s)%nat.
Proof.
  revert s caps p. induction r; intros s caps p; simpl.
  - rewrite list_elem_of_singleton. intros ->. simpl. lia.
  - destruct s as [|c s]; [by rewrite elem_of_nil|].
    destruct (atom_matches ic a c); [|by rewrite elem_of_nil].
    rewrite list_elem_of_singleton. intros ->. simpl. lia.
  - rewrite list_elem_of_bind. intros (q & Hp & Hq).
    apply IHr1 in Hq. apply IHr2 in Hp. lia.
  - rewrite elem_of_app. intros [H|H]; [apply IHr1 in H|apply IHr2 in H]; lia.
  - rewrite elem_of_app, list_elem_of_singleton.
    intros [H%IHr| ->]; simpl; lia.
  - rewrite list_elem_of_fmap. intros (s' & -> & H%rep_length). simpl. lia.
  - rewrite list_elem_of_fmap. intros (q & -> & H%IHr). simpl. lia.
Qed.

Lemma run_frame n ic r s caps p :
  writes n r = false → p ∈ run ic r s caps → p.2 !! n = caps !! n.
Proof.
  revert s caps p. induction r; intros s caps p; simpl; intros Hw.
  - rewrite list_elem_of_singleton. by intros ->.
  - destruct s as [|c s]; [by rewrite elem_of_nil|].
    destruct (atom_matches ic a c); [|by rewrite elem_of_nil].
    rewrite list_elem_of_singleton. by intros ->.
  - apply orb_false_elim in Hw as [Hw1 Hw2].
    rewrite list_elem_of_bind. intros (q & Hp & Hq).
    rewrite (IHr2 _ _ _ Hw2 Hp). eauto.
  - apply orb_false_elim in Hw as [Hw1 Hw2].
    rewrite elem_of_app. intros [H|H]; eauto.
  - rewrite elem_of_app, list_elem_of_singleton. intros [H| ->]; eauto.
  - rewrite list_elem_of_fmap. by intros (s' & -> & _).
  - apply orb_false_elim in Hw as [Hn Hw].
    apply bool_decide_eq_false in Hn.
    rewrite list_elem_of_fmap. intros (q & -> & Hq). simpl.
    rewrite lookup_insert_ne by done. eauto.
Qed.

Lemma matched_nonempty s rest :
  (length rest + 1 ≤ length s)%nat → matched s rest ≠ [].
Proof.
  intros Hlen Hnil. apply (f_equal length) in Hnil.
  unfold matched in Hnil. rewrite length_take in Hnil. simpl in Hnil. lia.
Qed.

Lemma run_defines n ic r s caps p :
  defines n r = true → p ∈ run ic r s caps →
  ∃ g, p.2 !! n = Some g ∧ g ≠ [].
Proof.
  revert s caps p. induction r; intros s caps p; simpl; try done.
  - intros Hd. rewrite list_elem_of_bind. intros (q & Hp & Hq).
    apply orb_true_iff in Hd as [Hd|[Hd Hw]%andb_true_iff]; [by eauto|].
    apply negb_true_iff in Hw. rewrite (run_frame _ _ _ _ _ _ Hw Hp). eauto.
  - intros [Hd1 Hd2]%andb_true_iff. rewrite elem_of_app. intros [H|H]; eauto.
  - intros Hd. rewrite list_elem_of_fmap. intros (q & -> & Hq). simpl.
    case_bool_decide as Hn.
    + subst n0. apply bool_decide_eq_true in Hd.
      rewrite lookup_insert_eq. eexists; split; [done|].
      apply matched_nonempty. apply run_length in Hq. lia.
    + rewrite lookup_insert_ne by done. eauto.
Qed.

Lemma exec_from_defines n re s start m :
  defines n (source re) = true → exec_from re s start = Some m →
  ∃ g, group m n = Some g ∧ g ≠ [].
Proof.
  intros Hd. revert start. induction s as [|c s IH]; intros start; simpl.
  - destruct (head _) as [[rest caps]|] eqn:Hh; [|done].
    intros [= <-]. apply head_Some_elem_of in Hh.
    by apply (run_defines _ _ _ _ _ _ Hd) in Hh.
  - destruct (head _) as [[rest caps]|] eqn:Hh; [|by eauto].
    intros [= <-]. apply head_Some_elem_of in Hh.
    by apply (run_defines _ _ _ _ _ _ Hd) in Hh.
Qed.

(** A group that every match of the pattern fills is a non-empty string
    in every result of [exec]. *)
Lemma exec_defines n re s m :
  defines n (source re) = true → exec re s = Some m →
  ∃ g, group m n = Some g ∧ g ≠ [].
Proof. apply exec_from_defines. Qed.

End RegExpFacts.

(** ** The command router *)

Module RouterFacts.
Import JS RegExp RegExpFacts Chat Spec.

Lemma has_group_test n re text :
  defines n (source re) = true →
  has_group (exec re text) n = test re text.
Proof.
  intros Hd. unfold has_group, test.
  destruct (exec re text) as [m|] eqn:He; [|done].
  destruct (exec_defines _ _ _ _ Hd He) as (g & -> & Hg).
  by destruct g.
Qed.

Lemma group_trim_has_group m n :
  has_group m n = true →
  group_trim m n = Normal (trim (default [] (m ≫= fun r => group r n))).
Proof.
  destruct m as [r|]; simpl; [|done].
  by destruct (group r n).
Qed.

Lemma group_trim_test n re text :
  defines n (source re) = true → test re text = true →
  group_trim (exec re text) n = Normal (trim (captured re text n)).
Proof.
  intros Hd Ht. apply group_trim_has_group. by rewrite has_group_test.
Qed.

(** The router with the guards on the groups resolved: a pattern that
    matches decides the intent. *)
Lemma detectCommands_eq text :
  detectCommands text =
  Normal
    (if test COMMAND_PATTERNS.help text then
       {| command := Some (js "help"); params := [] |}
     else if test COMMAND_PATTERNS.time text then
       {| command := Some (js "time"); params := [] |}
     else if test COMMAND_PATTERNS.date text then
       {| command := Some (js "date"); params := [] |}
     else if test COMMAND_PATTERNS.joke text then
       {| command := Some (js "joke"); params := [] |}
     else if test COMMAND_PATTERNS.weather text then
       {| command := Some (js "weather");
          params := [trim (captured COMMAND_PATTERNS.weather text 1)] |}
     else if test COMMAND_PATTERNS.stockPrice text then
       {| command := Some (js "stock");
          params := [trim (captured COMMAND_PATTERNS.stockPrice text 1)] |}
     else if test COMMAND_PATTERNS.news text then
       {| command := Some (js "news");
          params :=
            if has_group (exec COMMAND_PATTERNS.news text) 1
            then [trim (captured COMMAND_PATTERNS.news text 1)]
            else [js "general"] |}
     else if test COMMAND_PATTERNS.translate text then
       {| command := Some (js "translate");
          params := [trim (captured COMMAND_PATTERNS.translate text 1);
                     trim (captured COMMAND_PATTERNS.translate text 2)] |}
     else if test COMMAND_PATTERNS.sentiment text then
       {| command := Some (js "sentiment");
          params := [trim (captured COMMAND_PATTERNS.sentiment text 1)] |}
     else {| command := None; params := [] |}).
Proof.
  unfold detectCommands.
  rewrite (has_group_test 1 COMMAND_PATTERNS.weather) by reflexivity.
  rewrite (has_group_test 1 COMMAND_PATTERNS.stockPrice) by reflexivity.
  rewrite (has_group_test 1 COMMAND_PATTERNS.translate) by reflexivity.
  rewrite (has_group_test 2 COMMAND_PATTERNS.translate) by reflexivity.
  rewrite (has_group_test 1 COMMAND_PATTERNS.sentiment) by reflexivity.
  destruct (test COMMAND_PATTERNS.help text); [done|].
  destruct (test COMMAND_PATTERNS.time text); [done|].
  destruct (test COMMAND_PATTERNS.date text); [done|].
  destruct (test COMMAND_PATTERNS.joke text); [done|].
  destruct (test COMMAND_PATTERNS.weather text) eqn:?;
    [by rewrite group_trim_test|].
  destruct (test COMMAND_PATTERNS.stockPrice text) eqn:?;
    [by rewrite group_trim_test|].
  assert (Hnews : test COMMAND_PATTERNS.news text
                  = bool_decide (is_Some (exec COMMAND_PATTERNS.news text))).
  { unfold test. by destruct (exec COMMAND_PATTERNS.news text). }
  rewrite Hnews.
  destruct (exec COMMAND_PATTERNS.news text) as [m|] eqn:Hm.
  { rewrite bool_decide_eq_true_2 by eauto.
    destruct (has_group (Some m) 1) eqn:Hg; [|done].
    rewrite group_trim_has_group by done. unfold captured. by rewrite Hm. }
  rewrite bool_decide_eq_false_2 by (by intros [? ?]).
  destruct (test COMMAND_PATTERNS.translate text) eqn:?.
  { rewrite (group_trim_test 1) by done.
    unfold mbind at 1, completion_bind at 1.
    by rewrite (group_trim_test 2). }
  cbn [andb].
  destruct (test COMMAND_PATTERNS.sentiment text) eqn:?;
    [by rewrite group_trim_test|].
  done.
Qed.

Lemma first_matching_eq text :
  first_matching text =
  if test COMMAND_PATTERNS.help text then Some (js "help")
  else if test COMMAND_PATTERNS.time text then Some (js "time")
  else if test COMMAND_PATTERNS.date text then Some (js "date")
  else if test COMMAND_PATTERNS.joke text then Some (js "joke")
  else if test COMMAND_PATTERNS.weather text then Some (js "weather")
  else if test COMMAND_PATTERNS.stockPrice text then Some (js "stock")
  else if test COMMAND_PATTERNS.news text then Some (js "news")
  else if test COMMAND_PATTERNS.translate text then Some (js "translate")
  else if test COMMAND_PATTERNS.sentiment text then Some (js "sentiment")
  else None.
Proof.
  unfold first_matching, PRIORITY. cbn [list_find].
  repeat (match goal with
          | |- context [decide (matches text (?name, ?re))] =>
              let Ht := fresh "Ht" in
              destruct (decide (matches text (name, re))) as [Ht|Ht];
              unfold matches in Ht; cbn [snd] in Ht;
              [rewrite Ht|apply not_true_is_false in Ht; rewrite Ht]
          end; try done).
Qed.

(** C2. The router checks its patterns in the order help, time, date,
    joke, weather, stock, news, translate, sentiment and returns the
    intent of the first pattern that matches the input, whatever later
    patterns match as well; when no pattern matches it returns the none
    sentinel with no parameters. *)
Theorem detectCommands_first_matching (text : jsstring) :
  ∃ d, detectCommands text = Normal d
       ∧ command d = first_matching text
       ∧ (first_matching text = None → params d = []).
Proof.
  eexists. split; [apply detectCommands_eq|].
  rewrite first_matching_eq.
  repeat (match goal with
          | |- context [test ?re text] => destruct (test re text)
          end; try done).
Qed.

(** C5. The router is a total function of the input text alone: for
    every string it returns, without throwing, a result that is either
    one of the nine intents with its parameter list or the none sentinel
    with no parameters. *)
Theorem detectCommands_total (text : jsstring) :
  ∃ d, detectCommands text = Normal d
       ∧ ((command d = None ∧ params d = [])
          ∨ (∃ intent, command d = Some intent ∧ intent ∈ PRIORITY.*1)).
Proof.
  eexists. split; [apply detectCommands_eq|].
  repeat (match goal with
          | |- context [test ?re text] => destruct (test re text)
          end;
          try (right; eexists; split; [reflexivity|];
               unfold PRIORITY; cbn [fmap list_fmap fst]; set_solver)).
  by left.
Qed.

(** The weather example of the handler's help text. *)
Example detectCommands_weather_in_Paris :
  detectCommands (js "What's the weather in Paris?")
  = Normal {| command := Some (js "weather"); params := [js "Paris"] |}.
Proof. vm_compute. reflexivity. Qed.

(** An input that the joke pattern and the weather pattern both match
    goes to the joke handler, which is checked first. *)
Example detectCommands_joke_before_weather :
  test COMMAND_PATTERNS.weather (js "say a joke, what's the weather in Paris")
  = true
  ∧ detectCommands (js "say a joke, what's the weather in Paris")
    = Normal {| command := Some (js "joke"); params := [] |}.
Proof. split; vm_compute; reflexivity. Qed.

(** A ticker that follows [stock] directly is captured. *)
Example detectCommands_stock_AAPL :
  detectCommands (js "What's the stock AAPL")
  = Normal {| command := Some (js "stock"); params := [js "AAPL"] |}.
Proof. vm_compute. reflexivity. Qed.

(** C3 (the code departs from the claim). For the input
    [What's the stock price of AAPL] the router returns intent stock with
    the parameter list [price], not [AAPL]: under the [i] flag the ticker
    class takes the word after [stock]. *)
Theorem detectCommands_stock_price_of_AAPL :
  detectCommands (js "What's the stock price of AAPL")
  = Normal {| command := Some (js "stock"); params := [js "price"] |}.
Proof. vm_compute. reflexivity. Qed.

(** C4 (the code departs from the claim). For the input
    [tell me a joke about the weather] no pattern matches, the joke
    pattern included, and the router returns the none sentinel. *)
Theorem detectCommands_joke_about_the_weather :
  detectCommands (js "tell me a joke about the weather")
  = Normal {| command := None; params := [] |}
  ∧ test COMMAND_PATTERNS.joke (js "tell me a joke about the weather") = false.
Proof. split; vm_compute; reflexivity. Qed.

End RouterFacts.

(** ** The generation chain of the chat endpoint *)

Module GenerationFacts.
Import JS JSFacts Net Chat Spec.

(** *** Post-processing *)

Lemma cleanResponse_total raw : ∃ out, cleanResponse raw = Normal out.
Proof.
  unfold cleanResponse.
  destruct (includes raw (js "AI:")) eqn:HAI.
  { apply split_includes in HAI as (a & b & rest & ->); [|done].
    simpl. eauto. }
  destruct (includes raw (js "Human:")) eqn:HH; [|by eauto].
  apply split_includes in HH as (a & b & rest & ->); [|done].
  simpl. eauto.
Qed.

(** *** Random draws from the pool *)

(** The index drawn lies within the pool, whatever the number drawn. *)
Lemma floor_times_lt u n :
  (0 < n)%nat → (Z.of_nat n < 2 ^ 53)%Z → (floor_times u n < n)%nat.
Proof.
  intros Hn Hn53. unfold floor_times, number.
  destruct u as [m e Hu]; cbn [mant expo].
  unfold unit_interval in Hu. rewrite !andb_true_iff in Hu.
  destruct Hu as ((((Hm0 & Hm53) & He0) & He1) & Hm1).
  apply Z.leb_le in Hm0, He0. apply Z.ltb_lt in Hm53, He1, Hm1.
  destruct (NumberFacts.round_small false (Z.of_nat n))
    as (Hform & Hd1 & Hd53); [lia|].
  destruct (NumberFacts.digits_bounds (Z.of_nat n)) as (_ & Hlo & Hhi);
    [lia|].
  set (d := Number.digits (Z.of_nat n)) in *.
  unfold Number.of_Z. rewrite (proj2 (Z.ltb_ge _ 0)) by lia.
  rewrite Z.abs_eq by lia. rewrite Hform. cbn [Number.mul xorb].
  replace (e + (d - 53))%Z with (e - (53 - d))%Z by lia.
  pose proof (NumberFacts.pow2_pos (53 - d) ltac:(lia)) as Hp.
  pose proof (NumberFacts.pow2_split (d - 1) (53 - d) ltac:(lia) ltac:(lia))
    as Hs1.
  pose proof (NumberFacts.pow2_split d (53 - d) ltac:(lia) ltac:(lia)) as Hs2.
  replace (d - 1 + (53 - d))%Z with 52%Z in Hs1 by lia.
  replace (d + (53 - d))%Z with 53%Z in Hs2 by lia.
  destruct (NumberFacts.round_product_below m e
              (Z.of_nat n * 2 ^ (53 - d)) (53 - d) (Z.of_nat n))
    as (f & -> & Hf0 & Hf); try lia; try nia.
  cbn [default from_option id]. lia.
Qed.

(** The product is the rounded one: for the number nearest to 3/5 and a
    pool of five the index is 3, where the exact product gives 2. *)
Lemma floor_times_rounds :
  floor_times MoreExamples.three_fifths 5 = 3%nat
  ∧ (mant MoreExamples.three_fifths * 5
     / 2 ^ (- expo MoreExamples.three_fifths) = 2)%Z.
Proof. split; vm_compute; reflexivity. Qed.

Lemma fallback_pool :
  Forall (fun f => cleanResponse f = Normal f ∧ (5 ≤ length f)%nat)
         fallbackResponses.
Proof. repeat constructor; vm_compute; (reflexivity || lia). Qed.

Lemma drawn_pool E k :
  drawn E k ∈ fallbackResponses
  ∧ cleanResponse (drawn E k) = Normal (drawn E k)
  ∧ (5 ≤ length (drawn E k))%nat.
Proof.
  assert (Hin : drawn E k ∈ fallbackResponses).
  { apply list_elem_of_lookup_total_2, floor_times_lt; simpl; lia. }
  split; [done|].
  by apply (proj1 (Forall_forall _ _) fallback_pool).
Qed.

(** *** The attempts *)

(** One attempt issues its call and ends with the text read, or throws
    when the call failed. *)
Lemma attempt_run E req prefix w :
  let o := fetch_outcome E (length (calls w)) req in
  let w' := {| calls := calls w ++ [req]; draws := draws w |} in
  (failed o = false ∧ attempt E req prefix w = (Normal (output o), w'))
  ∨ (failed o = true ∧ ∃ e, attempt E req prefix w = (Throw e, w')).
Proof.
  unfold attempt, fetch, json_of, failed, output. run_M. simpl.
  destruct (fetch_outcome E (length (calls w)) req) as [e|st [result|]];
    simpl; [by eauto| |].
  - destruct (ok st); simpl; [|by eauto].
    destruct (read_generated result); by eauto.
  - destruct (ok st); simpl; by eauto.
Qed.

(** When the primary call fails exactly one backup call follows it; when
    it does not, none does. *)
Lemma attempts_run E prompt :
  let p := primary_request E prompt in
  let b := backup_request E prompt in
  let o1 := fetch_outcome E 0 p in
  let o2 := fetch_outcome E 1 b in
  if failed o1 then
    if failed o2 then
      ∃ e, attempts E prompt start = (Throw e, {| calls := [p; b]; draws := 0 |})
    else
      attempts E prompt start
      = (Normal (output o2, backupModel), {| calls := [p; b]; draws := 0 |})
  else
    attempts E prompt start
    = (Normal (output o1, primaryModel), {| calls := [p]; draws := 0 |}).
Proof.
  cbv zeta. unfold attempts. run_M.
  destruct (attempt_run E (primary_request E prompt)
              (js "Hugging Face API error: ") start)
    as [[Hf ->]|(Hf & e & ->)]; cbn [start calls length] in Hf;
    rewrite Hf; [done|].
  destruct (attempt_run E (backup_request E prompt)
              (js "Backup model error: ")
              {| calls := calls start ++ [primary_request E prompt];
                 draws := draws start |})
    as [[Hf' ->]|(Hf' & e' & ->)];
    cbn [start calls length app] in Hf'; rewrite Hf'; [done|by eauto].
Qed.

(** From the text of the attempts to the reply: the text post-processed
    when that has five code units or more, a sentence drawn from the pool
    when it has fewer. *)
Lemma respond_run E context raw model w :
  draws w = 0%nat →
  ∃ out rep,
    cleanResponse raw = Normal out
    ∧ respond E context (raw, model) w
      = (Normal rep, {| calls := calls w;
                        draws := if (length out <? 5)%nat then 1 else 0 |})
    ∧ status rep = 200%Z
    ∧ response rep = (if (length out <? 5)%nat then drawn E 0 else out)
    ∧ model_used rep
      = Some (if (length out <? 5)%nat then js "fallback" else model).
Proof.
  intros Hw. destruct w as [cs ds]; simpl in Hw; subst ds.
  destruct (drawn_pool E 0) as (_ & Hclean & Hlen).
  apply Nat.ltb_ge in Hlen.
  unfold respond, pick, Math_random. run_M. cbn [fst snd calls draws].
  fold (drawn E 0).
  destruct raw as [|c raw]; cbn [truthy negb fst snd calls draws];
    fold (drawn E 0).
  - exists []. rewrite Hclean.
    destruct (drawn E 0) as [|c' d] eqn:Hd; [done|].
    cbn [truthy negb orb]. rewrite Hlen.
    eexists. split; [done|]. repeat split.
  - destruct (cleanResponse_total (c :: raw)) as [out ->]. exists out.
    destruct out as [|c' out]; cbn [truthy negb orb].
    + eexists. split; [done|]. repeat split.
    + destruct (length (c' :: out) <? 5)%nat eqn:Hout;
        eexists; (split; [done|]); repeat split.
Qed.

Lemma long_nonempty (s : jsstring) : (5 ≤ length s)%nat → s ≠ [].
Proof. by destruct s; simpl; [lia|]. Qed.

(** C1. On the generation path of the chat endpoint: the primary model is
    called first; if that call times out, errors or answers with a
    non-success status, exactly one backup call follows, and none
    otherwise; if the backup fails as well, or the post-processed output
    is empty or shorter than five code units, the reply is the sentence
    of the fallback pool that the run's random number selects; and in
    every case the endpoint returns, with status 200 and without throwing,
    a non-empty response string. *)
Theorem POST_generation_fallback
    (E : env) (body : chat_body) (text : jsstring) :
  truthy_opt (apiKey E) = true →
  message body = Some text → truthy text = true →
  detectCommands text = Normal {| command := None; params := [] |} →
  let prompt := build_prompt text (default [] (history body)) in
  let p := primary_request E prompt in
  let b := backup_request E prompt in
  let o1 := fetch_outcome E 0 p in
  let o2 := fetch_outcome E 1 b in
  let o := if failed o1 then o2 else o1 in
  ∃ rep w,
    POST E (Some body) start = (Normal rep, w)
    ∧ status rep = 200%Z
    ∧ response rep ≠ []
    ∧ calls w = (if failed o1 then [p; b] else [p])
    ∧ drawn E 0 ∈ fallbackResponses
    ∧ (failed o1 = true → failed o2 = true → response rep = drawn E 0)
    ∧ (∀ out, cleanResponse (output o) = Normal out →
              (length out < 5)%nat → response rep = drawn E 0)
    ∧ (∀ out, failed o = false → cleanResponse (output o) = Normal out →
              (5 ≤ length out)%nat → response rep = out).
Proof.
  intros Hkey Hmsg Htext Hdet. cbv zeta.
  destruct (drawn_pool E 0) as (Hin & _ & Hlen).
  pose proof (attempts_run E (build_prompt text (default [] (history body))))
    as Ha. cbv zeta in Ha.
  unfold POST, generate. run_M.
  rewrite Hkey, Hmsg. cbn [negb truthy_opt default from_option id].
  rewrite Htext.
  cbn [negb]. rewrite Hdet. cbn [command truthy_opt].
  set (context := default _ (Chat.context body)).
  set (prompt := build_prompt _ _) in *.
  set (o1 := fetch_outcome E 0 _) in *.
  set (o2 := fetch_outcome E 1 _) in *.
  destruct (failed o1) eqn:Hf1; [destruct (failed o2) eqn:Hf2|].
  - destruct Ha as [e ->].
    unfold pick, Math_random. run_M. cbn [calls draws]. fold (drawn E 0).
    eexists _, _. split; [reflexivity|]. cbn [status response calls].
    repeat split; try done. by apply long_nonempty.
  - rewrite Ha.
    destruct (respond_run E context (output o2) backupModel
                {| calls := [primary_request E prompt;
                             backup_request E prompt];
                   draws := 0 |} eq_refl)
      as (out & rep & Hc & -> & Hst & Hresp & Hmodel).
    eexists _, _. split; [reflexivity|]. cbn [calls].
    repeat split; try done.
    + rewrite Hresp. destruct (length out <? 5)%nat eqn:Ho.
      * by apply long_nonempty.
      * apply long_nonempty. by apply Nat.ltb_ge.
    + intros out' Hc' Hshort. rewrite Hc in Hc'. injection Hc' as <-.
      rewrite Hresp. by apply Nat.ltb_lt in Hshort as ->.
    + intros out' _ Hc' Hlong. rewrite Hc in Hc'. injection Hc' as <-.
      rewrite Hresp. by apply Nat.ltb_ge in Hlong as ->.
  - rewrite Ha.
    destruct (respond_run E context (output o1) primaryModel
                {| calls := [primary_request E prompt]; draws := 0 |}
                eq_refl)
      as (out & rep & Hc & -> & Hst & Hresp & Hmodel).
    eexists _, _. split; [reflexivity|]. cbn [calls].
    repeat split; try done.
    + rewrite Hresp. destruct (length out <? 5)%nat eqn:Ho.
      * by apply long_nonempty.
      * apply long_nonempty. by apply Nat.ltb_ge.
    + intros out' Hc' Hshort. rewrite Hc in Hc'. injection Hc' as <-.
      rewrite Hresp. by apply Nat.ltb_lt in Hshort as ->.
    + intros out' _ Hc' Hlong. rewrite Hc in Hc'. injection Hc' as <-.
      rewrite Hresp. by apply Nat.ltb_ge in Hlong as ->.
Qed.

(** With every model call failing, the reply to a greeting is the third
    sentence of the pool, which the number 2/5 selects. *)
Lemma POST_generation_fallback_witness :
  truthy_opt (apiKey Examples.offline) = true
  ∧ detectCommands (js "Good evening")
    = Normal {| command := None; params := [] |}
  ∧ ∃ rep w,
      POST Examples.offline (Some Examples.good_evening) start
      = (Normal rep, w)
      ∧ length (calls w) = 2%nat
      ∧ response rep
        = js "That's an interesting question. Let me think about it and get back to you.".
Proof.
  split; [reflexivity|]. split; [vm_compute; reflexivity|].
  destruct (POST_generation_fallback Examples.offline Examples.good_evening
              (js "Good evening") eq_refl eq_refl eq_refl
              ltac:(vm_compute; reflexivity))
    as (rep & w & HP & _ & _ & Hcalls & _ & Hboth & _).
  exists rep, w. split; [exact HP|]. split.
  - rewrite Hcalls. reflexivity.
  - rewrite Hboth by reflexivity. vm_compute. reflexivity.
Defined.

(** C6, as stated, fails: an output with both markers keeps the leaked
    human turn. *)
Lemma cleanResponse_keeps_leaked_turn :
  cleanResponse (js "AI: Sure. Human: thanks")
  = Normal (js "Sure. Human: thanks")
  ∧ ¬ postprocessed_as_stated (js "AI: Sure. Human: thanks")
                              (js "Sure. Human: thanks").
Proof.
  split; [vm_compute; reflexivity|].
  intros [_ Hhuman]. specialize (Hhuman eq_refl). vm_compute in Hhuman.
  discriminate Hhuman.
Qed.

(** C6, amended. Post-processing never throws, and: with an assistant
    marker in the output, everything up to and including its first
    occurrence is stripped, as stated: the result lies within the text
    that follows it, and it is the text between the first two markers,
    trimmed, or all the text after the marker when that occurs once,
    whatever human marker that text holds; only without an assistant
    marker is the output cut before its first human marker and trimmed,
    so that no human marker is left; an output with neither marker stays
    as it is. *)
Theorem cleanResponse_by_marker (raw : jsstring) :
  (∃ out, cleanResponse raw = Normal out)
  ∧ (∀ before after,
       raw = before ++ js "AI:" ++ after →
       includes (before ++ js "AI") (js "AI:") = false →
       includes after (js "AI:") = false →
       cleanResponse raw = Normal (trim after))
  ∧ (∀ before after,
       includes raw (js "AI:") = false →
       raw = before ++ js "Human:" ++ after →
       includes (before ++ js "Human") (js "Human:") = false →
       cleanResponse raw = Normal (trim before))
  ∧ (includes raw (js "AI:") = false →
     includes raw (js "Human:") = false →
     cleanResponse raw = Normal raw)
  ∧ (includes raw (js "AI:") = true →
     ∃ out before after,
       cleanResponse raw = Normal out
       ∧ raw = before ++ js "AI:" ++ after
       ∧ ∃ a b, after = a ++ out ++ b)
  ∧ (∀ before between rest,
       raw = before ++ js "AI:" ++ between ++ js "AI:" ++ rest →
       includes (before ++ js "AI") (js "AI:") = false →
       includes (between ++ js "AI") (js "AI:") = false →
       cleanResponse raw = Normal (trim between))
  ∧ (includes raw (js "AI:") = false →
     includes raw (js "Human:") = true →
     ∃ out, cleanResponse raw = Normal out
            ∧ includes out (js "Human:") = false).
Proof.
  split; [apply cleanResponse_total|]. unfold cleanResponse.
  split; [|split; [|split; [|split; [|split]]]].
  - intros before after -> Hfirst Honce.
    assert (includes (before ++ js "AI:" ++ after) (js "AI:") = true) as ->
      by (apply includes_true; eauto).
    by rewrite (split_once (js "AI:")).
  - intros before after -> -> Hfirst.
    assert (includes (before ++ js "Human:" ++ after) (js "Human:") = true)
      as -> by (apply includes_true; eauto).
    destruct (split_first (js "Human:") before after)
      as (piece & rest & ->); done.
  - by intros -> ->.
  - intros HAI. rewrite HAI. unfold includes in HAI.
    destruct (breakOn (js "AI:") raw) as [[before after]|] eqn:Hb; [|done].
    destruct (split_cons raw (js "AI:") before after) as [n ->]; [done..|].
    destruct (split_rounds_head n (js "AI:") after) as (x & l & -> & Hx).
    apply breakOn_Some in Hb.
    exists (trim x), before, after. do 2 (split; [done|]).
    eapply part_of_trans; [apply trim_part|done].
  - intros before between rest -> Hfirst Hsecond.
    assert (includes (before ++ js "AI:" ++ between ++ js "AI:" ++ rest)
              (js "AI:") = true) as ->
      by (apply includes_true; eauto).
    by rewrite (split_second (js "AI:")).
  - intros -> HH. rewrite HH. unfold includes in HH.
    destruct (breakOn (js "Human:") raw) as [[before after]|] eqn:Hb;
      [|done].
    destruct (split_cons raw (js "Human:") before after) as [n ->];
      [done..|].
    destruct (split_rounds_head n (js "Human:") after) as (x & l & -> & _).
    cbn [length Nat.ltb Nat.leb lookup list_lookup trim_of].
    eexists. split; [done|].
    apply breakOn_before in Hb; [|done].
    destruct (includes (trim before) (js "Human:")) eqn:Hin; [|done].
    apply (includes_part _ before) in Hin; [congruence|apply trim_part].
Qed.

(** One assistant marker, with a human turn after it; and two assistant
    markers. *)
Lemma cleanResponse_by_marker_witness :
  cleanResponse (js "AI: Sure. Human: thanks")
  = Normal (trim (js " Sure. Human: thanks"))
  ∧ cleanResponse (js "x AI: first AI: second")
    = Normal (trim (js " first ")).
Proof.
  split.
  - destruct (cleanResponse_by_marker (js "AI: Sure. Human: thanks"))
      as (_ & HAI & _).
    apply (HAI [] (js " Sure. Human: thanks")); reflexivity.
  - destruct (cleanResponse_by_marker (js "x AI: first AI: second"))
      as (_ & _ & _ & _ & _ & Htwo & _).
    apply (Htwo (js "x ") (js " first ") (js " second")); reflexivity.
Defined.

End GenerationFacts.

(** ** The translation chain *)

Module TranslateFacts.
Import JS Net Translate Notions.

Section WithEnv.
Context (toLowerCase : jsstring → jsstring) (E : env).





(** When the primary call is rejected the handler stops there: it
    answers with status 500 and the error's message, and no other model
    is called. *)
Lemma POST_primary_rejected body t sl tl e :
  truthy_opt (apiKey E) = true →
  text body = Some t → truthy t = true →
  sourceLang body = Some sl → truthy sl = true →
  targetLang body = Some tl → truthy tl = true →
  let sourceCode := getLanguageCode toLowerCase sl in
  let targetCode := getLanguageCode toLowerCase tl in
  let primary :=
    primary_request E
      (select_primary
         (isIndianLanguage toLowerCase sourceCode
          || isIndianLanguage toLowerCase targetCode)
         sourceCode targetCode) t in
  fetch_outcome E 0 primary = Rejects e →
  POST toLowerCase E (Some body) start
  = (Normal (error_reply 500 (js "Failed to translate text")
               (js "Error occurred: " ++ e) (Some e)),
     {| calls := [primary]; draws := 0 |}).
Proof.
  intros Hkey Ht Ht' Hsl Hsl' Htl Htl'. cbv zeta. intros Hrej.
  unfold POST. run_M.
  rewrite Hkey, Ht, Hsl, Htl.
  cbn [negb truthy_opt default from_option id orb].
  rewrite Ht', Hsl', Htl'. cbn [negb orb].
  unfold fetch at 1. cbn [start calls draws length app].
  by rewrite Hrej.
Qed.


End WithEnv.


(** C8 (the code departs from the claim). Only the primary calls carry a
    timeout: the backup call of the chat endpoint and the specialized and
    backup calls of the translation endpoint carry none.  And when the
    primary call of the translation endpoint is rejected, as it is when
    its timeout expires, the handler answers with status 500 after that
    single call: no other model is tried. *)
Theorem fallback_calls_unbounded_and_primary_rejection_ends_chain :
  signal (Chat.backup_request Examples.offline (js "Human: hi")) = None
  ∧ signal (indic_request toLowerCaseASCII Examples.offline
              (js "Bonjour") (js "fr") (js "hi")) = None
  ∧ Forall (fun m => signal (backup_request toLowerCaseASCII Examples.offline
                               m (js "Bonjour") (js "French") (js "German"))
                     = None) BACKUP_MODELS
  ∧ POST toLowerCaseASCII Examples.offline
      (Some Examples.french_to_german) start
    = (Normal (error_reply 500 (js "Failed to translate text")
                 (js "Error occurred: fetch failed")
                 (Some (js "fetch failed"))),
       {| calls := [primary_request Examples.offline
                      (js "Helsinki-NLP/opus-mt-fr-de") (js "Bonjour")];
          draws := 0 |}).
Proof.
  split; [reflexivity|]. split; [reflexivity|].
  split; [by repeat constructor|].
  vm_compute. reflexivity.
Qed.

End TranslateFacts.

(** ** The built-in replies of the voice assistant *)

Module VoiceAssistantFacts.
Import JS JSFacts VoiceAssistant Spec.

Lemma get_Some table key value :
  NoDup (keys table) → (key, value) ∈ table → get table key = Some value.
Proof.
  unfold keys. induction table as [|[k v] table IH]; simpl.
  - by rewrite elem_of_nil.
  - rewrite NoDup_cons, elem_of_cons. intros [Hk Hnd] [[= -> ->]|Hin].
    + by rewrite bool_decide_eq_true_2.
    + rewrite bool_decide_eq_false_2; [by apply IH|].
      intros ->. apply Hk, list_elem_of_fmap. by exists (key, value).
Qed.

Lemma get_None table key : key ∉ keys table → get table key = None.
Proof.
  unfold keys. induction table as [|[k v] table IH]; simpl; [done|].
  rewrite not_elem_of_cons. intros [Hne Hnot].
  rewrite bool_decide_eq_false_2 by done. by apply IH.
Qed.

Lemma get_elem_of table key value :
  get table key = Some value → (key, value) ∈ table.
Proof.
  induction table as [|[k v] table IH]; simpl; [done|].
  case_bool_decide as Hk.
  - intros [= ->]. subst. apply list_elem_of_here.
  - intros H. by apply list_elem_of_further, IH.
Qed.

(** The loop over the keys returns at the first key that hits. *)
Lemma first_hit_find table ks (hit : jsstring → bool) :
  first_hit table ks hit
  = (fun found => get table found.2)
      <$> list_find (fun key => hit key = true) ks.
Proof.
  induction ks as [|k ks IH]; simpl; [done|].
  destruct (decide (hit k = true)) as [Hk|Hk].
  - by rewrite Hk.
  - apply not_true_is_false in Hk. rewrite Hk, IH.
    by destruct (list_find _ ks) as [[? ?]|].
Qed.

Section WithEnv.
Context (toLowerCase : jsstring → jsstring) (now : clock).

Lemma BUILT_IN_RESPONSES_keys : NoDup (keys (BUILT_IN_RESPONSES now)).
Proof. refine (bool_decide_unpack _ _). vm_compute. exact I. Qed.

Lemma BUILT_IN_RESPONSES_truthy key reply :
  (key, reply) ∈ BUILT_IN_RESPONSES now → truthy reply = true.
Proof.
  assert (H : Forall (fun e => truthy e.2 = true) (BUILT_IN_RESPONSES now))
    by (repeat constructor).
  intros Hin. by apply (proj1 (Forall_forall _ _) H _ Hin).
Qed.

(** An input whose normalized text is a key gets that key's reply. *)
Lemma findBestMatch_exact input key reply :
  (key, reply) ∈ BUILT_IN_RESPONSES now →
  trim (toLowerCase input) = key →
  findBestMatch toLowerCase now input = Some reply.
Proof.
  intros Hin Hkey. unfold findBestMatch. rewrite Hkey.
  rewrite (get_Some _ _ _ BUILT_IN_RESPONSES_keys Hin). simpl.
  by rewrite (BUILT_IN_RESPONSES_truthy _ _ Hin).
Qed.

(** A built-in reply is scheduled and nothing is sent to the API. *)
Lemma processVoiceInput_built_in u input key reply :
  (key, reply) ∈ BUILT_IN_RESPONSES now →
  findBestMatch toLowerCase now input = Some reply →
  processVoiceInput toLowerCase now u input
  = [AddUserMessage input; ReplyLater 300 reply].
Proof.
  intros Hin Hfind. unfold processVoiceInput. rewrite Hfind. simpl.
  by rewrite (BUILT_IN_RESPONSES_truthy _ _ Hin).
Qed.

Lemma handleSubmit_built_in u input key reply :
  truthy (trim input) = true →
  (key, reply) ∈ BUILT_IN_RESPONSES now →
  findBestMatch toLowerCase now (toLowerCase input) = Some reply →
  handleSubmit toLowerCase now u input
  = [AddUserMessage input; SetInputText []; ReplyLater 300 reply].
Proof.
  intros Hinput Hin Hfind. unfold handleSubmit.
  rewrite Hinput, Hfind. simpl.
  by rewrite (BUILT_IN_RESPONSES_truthy _ _ Hin).
Qed.

(** C9. An input whose normalized (lower-cased, trimmed) text is a key
    of the built-in table is answered with the response of that key,
    and the handler returns without calling the chat API: by voice
    ([processVoiceInput]) and, for a non-blank input, by the form
    ([handleSubmit], which lower-cases the text once more before the
    matcher does). *)
Theorem exact_match_answered_locally
    (u : Net.sample) (input key reply : jsstring) :
  (key, reply) ∈ BUILT_IN_RESPONSES now →
  (trim (toLowerCase input) = key →
   processVoiceInput toLowerCase now u input
   = [AddUserMessage input; ReplyLater 300 reply]
   ∧ existsb calls_api (processVoiceInput toLowerCase now u input) = false)
  ∧ (truthy (trim input) = true →
     trim (toLowerCase (toLowerCase input)) = key →
     handleSubmit toLowerCase now u input
     = [AddUserMessage input; SetInputText []; ReplyLater 300 reply]
     ∧ existsb calls_api (handleSubmit toLowerCase now u input) = false).
Proof.
  intros Hin. split.
  - intros Hkey.
    rewrite (processVoiceInput_built_in u input key reply Hin);
      [done|by apply (findBestMatch_exact _ key)].
  - intros Hinput Hkey.
    rewrite (handleSubmit_built_in u input key reply Hinput Hin);
      [done|by apply (findBestMatch_exact _ key)].
Qed.

End WithEnv.

Lemma exact_match_answered_locally_witness :
  processVoiceInput toLowerCaseASCII Examples.morning Examples.two_fifths
    (js "Hello")
  = [AddUserMessage (js "Hello");
     ReplyLater 300 (js "Hello! How can I assist you today?")]
  ∧ handleSubmit toLowerCaseASCII Examples.morning Examples.two_fifths
      (js " Thanks ")
    = [AddUserMessage (js " Thanks "); SetInputText [];
       ReplyLater 300
         (js "No problem at all! Let me know if you need anything else.")].
Proof.
  split.
  - apply (exact_match_answered_locally toLowerCaseASCII Examples.morning
             Examples.two_fifths (js "Hello") (js "hello")
             (js "Hello! How can I assist you today?"));
      [set_solver|reflexivity].
  - apply (exact_match_answered_locally toLowerCaseASCII Examples.morning
             Examples.two_fifths (js " Thanks ") (js "thanks")
             (js "No problem at all! Let me know if you need anything else."));
      [unfold BUILT_IN_RESPONSES; set_solver|reflexivity|reflexivity].
Defined.

(** C10, as stated, fails: [hi, how are you] contains the key
    [how are you], and the matcher answers with the response of [hi],
    which comes first in the table. *)
Lemma findBestMatch_answers_first_key :
  findBestMatch toLowerCaseASCII Examples.morning (js "hi, how are you")
  = Some (js "Hi there! How can I help you?")
  ∧ ¬ answers_with_that_key toLowerCaseASCII Examples.morning
        (js "hi, how are you").
Proof.
  split; [vm_compute; reflexivity|].
  intros H.
  specialize (H (js "how are you")
                (js "I'm doing well, thank you! How can I help you?")).
  assert (Hfind : findBestMatch toLowerCaseASCII Examples.morning
                    (js "hi, how are you")
                  = Some (js "I'm doing well, thank you! How can I help you?")).
  { apply H; [set_solver|left; vm_compute; reflexivity]. }
  vm_compute in Hfind. discriminate Hfind.
Qed.

Section WithEnv.
Context (toLowerCase : jsstring → jsstring) (now : clock).

(** C10, amended. An input whose normalized text contains some key of
    the built-in table, or is contained in one, is answered with a
    canned response, and nothing is sent to the chat API: the response
    of the normalized text when that is itself a key, and otherwise the
    response of the first key, in the order of the table, that it
    contains or is contained in. *)
Theorem partial_match_answered_locally (u : Net.sample) (input : jsstring) :
  let n := trim (toLowerCase input) in
  let table := BUILT_IN_RESPONSES now in
  (∃ key, key ∈ keys table
          ∧ (includes n key = true ∨ includes key n = true)) →
  ∃ i first reply,
    list_find (fun key => includes n key || includes key n = true)
              (keys table) = Some (i, first)
    ∧ get table (if bool_decide (n ∈ keys table) then n else first)
      = Some reply
    ∧ findBestMatch toLowerCase now input = Some reply
    ∧ processVoiceInput toLowerCase now u input
      = [AddUserMessage input; ReplyLater 300 reply]
    ∧ existsb calls_api (processVoiceInput toLowerCase now u input) = false.
Proof.
  intros n table (key & Hkey & Hhit). subst table.
  destruct (list_find (fun key => includes n key || includes key n = true)
                      (keys (BUILT_IN_RESPONSES now))) as [[i first]|] eqn:Hfind.
  2:{ apply list_find_None in Hfind.
      rewrite Forall_forall in Hfind. destruct (Hfind key Hkey).
      apply orb_true_iff. done. }
  assert (Hfirst : first ∈ keys (BUILT_IN_RESPONSES now)).
  { apply list_find_Some in Hfind as (Hi & _). by eapply list_elem_of_lookup_2. }
  assert (Hreply : ∃ reply,
            get (BUILT_IN_RESPONSES now) (if bool_decide (n ∈ keys (BUILT_IN_RESPONSES now)) then n else first)
            = Some reply
            ∧ findBestMatch toLowerCase now input = Some reply).
  { unfold findBestMatch. fold n.
    case_bool_decide as Hn.
    - apply list_elem_of_fmap in Hn as ([k v] & Hk & Hin).
      cbn [fst] in Hk. rewrite Hk.
      rewrite (get_Some _ _ _ (BUILT_IN_RESPONSES_keys now) Hin).
      cbn [truthy_opt].
      rewrite (BUILT_IN_RESPONSES_truthy now _ _ Hin). eauto.
    - rewrite (get_None _ _ Hn). cbn [truthy_opt].
      rewrite first_hit_find, Hfind. cbn [fmap option_fmap option_map snd].
      apply list_elem_of_fmap in Hfirst as ([k v] & -> & Hin).
      cbn [fst].
      rewrite (get_Some _ _ _ (BUILT_IN_RESPONSES_keys now) Hin). eauto. }
  destruct Hreply as (reply & Hget & Hbest).
  exists i, first, reply. split; [done|]. split; [done|]. split; [done|].
  apply get_elem_of in Hget.
  by rewrite (processVoiceInput_built_in toLowerCase now u input _ reply Hget).
Qed.

End WithEnv.

Lemma partial_match_answered_locally_witness :
  processVoiceInput toLowerCaseASCII Examples.morning Examples.two_fifths
    (js "this is something")
  = [AddUserMessage (js "this is something");
     ReplyLater 300 (js "Hi there! How can I help you?")].
Proof.
  destruct (partial_match_answered_locally toLowerCaseASCII Examples.morning
              Examples.two_fifths (js "this is something"))
    as (i & first & reply & Hfind & Hget & _ & Hrun & _).
  - exists (js "hi"). split; [set_solver|left; vm_compute; reflexivity].
  - rewrite Hrun. vm_compute in Hfind. injection Hfind as <- <-.
    vm_compute in Hget. injection Hget as <-. reflexivity.
Defined.

End VoiceAssistantFacts.

(** * Further properties *)

(** ** More of the command router *)

Module RouterExtras.
Import JS JSFacts RegExp RegExpFacts Chat Spec Notions RouterFacts.

Lemma canonicalize_same x y :
  canonicalize true x = canonicalize true y →
  x = y ∨ (other_case x = Some y ∧ other_case y = Some x).
Proof.
  unfold canonicalize, other_case. cbn [andb].
  repeat (match goal with
          | |- context [?a <=? ?b] => destruct (N.leb_spec a b)
          end; cbn [andb]); intros; try (left; lia);
    right; split; f_equal; lia.
Qed.

Lemma other_case_letter x y :
  other_case x = Some y → isLineTerminator x = false.
Proof.
  unfold other_case, isLineTerminator.
  repeat (match goal with
          | |- context [?a <=? ?b] => destruct (N.leb_spec a b)
          end; cbn [andb]); try done;
    intros _; repeat (match goal with
                      | |- context [?a =? ?b] => destruct (N.eqb_spec a b)
                      end; cbn [orb]); try done; lia.
Qed.

(** Under the [i] flag a character matcher does not tell the two cases of
    a letter apart. *)
Lemma atom_matches_same a x y :
  canonicalize true x = canonicalize true y →
  atom_matches true a x = atom_matches true a y.
Proof.
  intros Hxy. destruct a as [c| |ranges]; simpl.
  - by rewrite Hxy.
  - destruct (canonicalize_same _ _ Hxy) as [->|[Hx Hy]]; [done|].
    by rewrite (other_case_letter _ _ Hx), (other_case_letter _ _ Hy).
  - destruct (canonicalize_same _ _ Hxy) as [->|[Hx Hy]]; [done|].
    unfold class_matches. rewrite Hx, Hy. cbn [andb]. apply orb_comm.
Qed.

Lemma rep_same greedy a s t lo hi :
  same_letters s t →
  Forall2 same_letters (rep true greedy a s lo hi) (rep true greedy a t lo hi).
Proof.
  intros Hst. revert lo hi.
  induction Hst as [|x y s t Hxy Hst IH]; intros lo hi.
  - simpl. destruct lo, hi as [[|h]|], greedy; simpl;
      repeat constructor.
  - cbn [rep]. rewrite (atom_matches_same a x y Hxy).
    assert (Hstop : Forall2 same_letters
                      match lo with O => [x :: s] | S _ => [] end
                      match lo with O => [y :: t] | S _ => [] end).
    { destruct lo; repeat constructor; done. }
    assert (Hmore : Forall2 same_letters
                      (if atom_matches true a y
                       then rep true greedy a s (pred lo) (pred <$> hi) else [])
                      (if atom_matches true a y
                       then rep true greedy a t (pred lo) (pred <$> hi) else [])).
    { destruct (atom_matches true a y); [apply IH|constructor]. }
    destruct hi as [[|h]|], greedy;
      repeat (apply Forall2_app || done || constructor).
Qed.

(** Matching follows the same paths on two inputs that differ in case
    only. *)
Lemma run_same r s t c1 c2 :
  same_letters s t →
  Forall2 (fun p q => same_letters p.1 q.1) (run true r s c1) (run true r t c2).
Proof.
  revert s t c1 c2. induction r; intros s t c1 c2 Hst; simpl.
  - by repeat constructor.
  - destruct Hst as [|x y s t Hxy Hst]; [constructor|].
    rewrite (atom_matches_same a x y Hxy).
    destruct (atom_matches true a y); by repeat constructor.
  - eapply Forall2_bind, Forall2_impl; [by apply IHr1|].
    intros p q Hpq. by apply IHr2.
  - apply Forall2_app; eauto.
  - apply Forall2_app; [by eauto|]. by repeat constructor.
  - apply Forall2_fmap.
    eapply Forall2_impl; [by apply rep_same|]. done.
  - apply Forall2_fmap.
    eapply Forall2_impl; [by apply IHr|]. done.
Qed.

Lemma exec_from_same re s t k k' :
  ignoreCase re = true → same_letters s t →
  is_Some (exec_from re s k) ↔ is_Some (exec_from re t k').
Proof.
  intros Hic Hst. revert k k'.
  induction Hst as [|x y s t Hxy Hst IH]; intros k k'; cbn [exec_from];
    rewrite Hic.
  - pose proof (run_same (source re) [] [] ∅ ∅ ltac:(constructor)) as H.
    destruct H as [|[? ?] [? ?]]; simpl; [done|]. split; eauto.
  - pose proof (run_same (source re) (x :: s) (y :: t) ∅ ∅
                  ltac:(by constructor)) as H.
    destruct H as [|[? ?] [? ?]]; simpl; [apply IH|]. split; eauto.
Qed.

(** A pattern with the [i] flag matches both or neither of two inputs
    that differ in case only. *)
Lemma test_same re s t :
  ignoreCase re = true → same_letters s t → test re s = test re t.
Proof.
  intros Hic Hst. unfold test, exec.
  pose proof (exec_from_same re s t 0 0 Hic Hst) as [H1 H2].
  destruct (exec_from re s 0) as [m|], (exec_from re t 0) as [m'|];
    try done.
  - by destruct H1 as [? ?].
  - by destruct H2 as [? ?].
Qed.

(** X1. The router does not look at the case of ASCII letters: two inputs
    that differ in case only get the same intent. *)
Theorem detectCommands_ignores_case (s t : jsstring) :
  same_letters s t →
  ∃ d1 d2, detectCommands s = Normal d1 ∧ detectCommands t = Normal d2
           ∧ command d1 = command d2.
Proof.
  intros Hst. eexists _, _.
  split; [apply detectCommands_eq|]. split; [apply detectCommands_eq|].
  rewrite !(test_same _ s t) by done.
  repeat (match goal with
          | |- context [test ?re t] => destruct (test re t)
          end; try done).
Qed.

Lemma detectCommands_ignores_case_witness :
  same_letters (js "HELP ME") (js "help me")
  ∧ ∃ d1 d2, detectCommands (js "HELP ME") = Normal d1
             ∧ detectCommands (js "help me") = Normal d2
             ∧ command d1 = command d2.
Proof.
  assert (H : same_letters (js "HELP ME") (js "help me"))
    by (repeat constructor).
  split; [exact H|]. exact (detectCommands_ignores_case _ _ H).
Defined.

(** *** The help pattern as a search for phrases *)

Lemma canonicalize_lower a b :
  (canonicalize true a =? canonicalize true b)
  = ((if (65 <=? a) && (a <=? 90) then a + 32 else a)
     =? (if (65 <=? b) && (b <=? 90) then b + 32 else b)).
Proof.
  unfold canonicalize. cbn [andb].
  repeat (match goal with
          | |- context [?x <=? ?y] => destruct (N.leb_spec x y)
          end; cbn [andb]);
    apply eq_true_iff_eq; rewrite !N.eqb_eq; lia.
Qed.

(** A literal pattern matches at the head of the input when the input,
    lower-cased, starts with the literal, lower-cased. *)
Lemma run_literal p s c :
  run true (literal p) s c
  = if startsWith (toLowerCaseASCII s) (toLowerCaseASCII p)
    then [(drop (length p) s, c)] else [].
Proof.
  revert s. induction p as [|x p IH]; intros s; [done|].
  cbn [literal foldr run]. fold (literal p).
  destruct s as [|c0 s]; [done|].
  cbn [atom_matches toLowerCaseASCII fmap list_fmap startsWith length drop].
  rewrite canonicalize_lower.
  destruct (_ =? _); cbn [andb]; [|done].
  cbn [mbind list_bind fst snd]. rewrite app_nil_r. apply IH.
Qed.

Lemma exec_from_is_Some re s k :
  is_Some (exec_from re s k)
  ↔ ∃ j, is_Some (head (run (ignoreCase re) (source re) (drop j s) ∅)).
Proof.
  revert k. induction s as [|c s IH]; intros k; cbn [exec_from].
  - destruct (head _) as [[rest caps]|] eqn:Hh.
    + split; [|by eauto]. intros _. exists 0%nat. cbn [drop]. by rewrite Hh.
    + split; [by intros [? ?]|]. intros [j Hj].
      rewrite drop_nil, Hh in Hj. by destruct Hj.
  - destruct (head _) as [[rest caps]|] eqn:Hh.
    + split; [|by eauto]. intros _. exists 0%nat. by rewrite drop_0, Hh.
    + rewrite IH. split.
      * intros [j Hj]. by exists (S j).
      * intros [[|j] Hj]; [|by eauto].
        rewrite drop_0, Hh in Hj. by destruct Hj.
Qed.

(** The text occurs in the string when the string starts with it at some
    position. *)
Lemma includes_drop s p :
  includes s p = true ↔ ∃ j, startsWith (drop j s) p = true.
Proof.
  rewrite includes_true. split.
  - intros (a & b & ->). exists (length a).
    rewrite drop_app_length. apply startsWith_true. eauto.
  - intros [j [rest Hj]%startsWith_true]. exists (take j s), rest.
    by rewrite <-Hj, take_drop.
Qed.

Lemma help_run s :
  is_Some (head (run true (source COMMAND_PATTERNS.help) s ∅))
  ↔ Exists (fun p => startsWith (toLowerCaseASCII s) p = true) help_phrases.
Proof.
  change (source COMMAND_PATTERNS.help)
    with (Alt (literal (js "help"))
            (Alt (literal (js "assist"))
               (Alt (literal (js "guidance"))
                  (Alt (literal (js "commands"))
                     (literal (js "what can you do")))))).
  cbn [run]. rewrite !run_literal.
  change (toLowerCaseASCII (js "help")) with (js "help").
  change (toLowerCaseASCII (js "assist")) with (js "assist").
  change (toLowerCaseASCII (js "guidance")) with (js "guidance").
  change (toLowerCaseASCII (js "commands")) with (js "commands").
  change (toLowerCaseASCII (js "what can you do")) with (js "what can you do").
  unfold help_phrases. rewrite !Exists_cons, Exists_nil.
  destruct (startsWith _ (js "help")); [by split; eauto|].
  destruct (startsWith _ (js "assist")); [by split; eauto|].
  destruct (startsWith _ (js "guidance")); [by split; eauto|].
  destruct (startsWith _ (js "commands")); [by split; eauto|].
  destruct (startsWith _ (js "what can you do")); [by split; eauto 10|].
  split; [by intros [? ?]|]. intros H. by decompose [or] H.
Qed.

(** The help pattern matches the inputs that contain one of its phrases,
    in letters of either case. *)
Lemma test_help text :
  test COMMAND_PATTERNS.help text = true
  ↔ Exists (fun p => includes (toLowerCaseASCII text) p = true) help_phrases.
Proof.
  assert (test COMMAND_PATTERNS.help text = true
          ↔ is_Some (exec COMMAND_PATTERNS.help text)) as ->.
  { unfold test. destruct (exec _ _); split; try done; eauto; by intros [? ?]. }
  unfold exec. rewrite exec_from_is_Some.
  change (ignoreCase COMMAND_PATTERNS.help) with true.
  setoid_rewrite help_run. setoid_rewrite Exists_exists. split.
  - intros (j & p & Hp & Hs). exists p. split; [done|].
    apply includes_drop. exists j.
    unfold toLowerCaseASCII in *. by rewrite <-fmap_drop.
  - intros (p & Hp & [j Hj]%includes_drop). exists j, p. split; [done|].
    unfold toLowerCaseASCII in *. by rewrite fmap_drop.
Qed.

(** X2. The router answers with the help intent, and no parameters, for
    exactly the inputs that contain one of the phrases [help], [assist],
    [guidance], [commands], [what can you do] in letters of either case,
    inside a longer word or not; no other pattern is looked at for them. *)
Theorem detectCommands_help (text : jsstring) :
  detectCommands text = Normal {| command := Some (js "help"); params := [] |}
  ↔ Exists (fun p => includes (toLowerCaseASCII text) p = true) help_phrases.
Proof.
  rewrite <-test_help, detectCommands_eq. split.
  - intros H. destruct (test COMMAND_PATTERNS.help text); [done|].
    exfalso.
    apply (f_equal (fun c => match c with
                             | Normal d => command d
                             | Throw _ => None
                             end)) in H.
    repeat match type of H with
           | context [test ?re text] => destruct (test re text)
           end; cbn [command] in H; by vm_compute in H.
  - by intros ->.
Qed.

(** *** What the ticker group captures *)

Lemma rep_matched ic greedy a s lo hi s' :
  s' ∈ rep ic greedy a s lo hi →
  ∃ v, s = v ++ s' ∧ repeats ic a lo hi v.
Proof.
  revert lo hi. induction s as [|c s IH]; intros lo hi; cbn [rep].
  - assert (Hstop : s' ∈ match lo with O => [[]] | S _ => [] end →
                    ∃ v, [] = v ++ s' ∧ repeats ic a lo hi v).
    { destruct lo; [|by rewrite elem_of_nil].
      rewrite list_elem_of_singleton. intros ->. exists [].
      split; [done|]. split; [constructor|]. split; simpl; lia. }
    destruct hi as [[|h]|], greedy; rewrite ?app_nil_l, ?app_nil_r; eauto;
      rewrite ?elem_of_nil; done.
  - assert (Hstop : s' ∈ match lo with O => [c :: s] | S _ => [] end →
                    ∃ v, c :: s = v ++ s' ∧ repeats ic a lo hi v).
    { destruct lo; [|by rewrite elem_of_nil].
      rewrite list_elem_of_singleton. intros ->. exists [].
      split; [done|]. split; [constructor|]. split; simpl; lia. }
    assert (Hmore : hi ≠ Some 0%nat →
              s' ∈ (if atom_matches ic a c
                    then rep ic greedy a s (pred lo) (pred <$> hi) else []) →
              ∃ v, c :: s = v ++ s' ∧ repeats ic a lo hi v).
    { intros Hhi. destruct (atom_matches ic a c) eqn:Hc;
        [|by rewrite elem_of_nil].
      intros (v & -> & Hv & Hlo & Hmax)%IH. exists (c :: v).
      split; [done|]. split; [by constructor|]. split; [simpl; lia|].
      intros h ->. destruct h as [|h]; [done|].
      specialize (Hmax h eq_refl). simpl. lia. }
    destruct hi as [[|h]|], greedy; rewrite ?elem_of_app, ?elem_of_nil;
      intros H; decompose [or] H; eauto; try done;
      apply Hmore; done.
Qed.

Lemma matched_app v s' : matched (v ++ s') s' = v.
Proof.
  unfold matched. rewrite length_app.
  replace (length v + length s' - length s')%nat with (length v) by lia.
  by rewrite take_app_length.
Qed.

(** A group whose body is a quantified atom only ever holds text that the
    quantified atom can consume. *)
Lemma run_group_is n greedy a lo hi ic r s caps p :
  group_is n (Rep greedy a lo hi) r →
  (∀ v, caps !! n = Some v → repeats ic a lo hi v) →
  p ∈ run ic r s caps →
  ∀ v, p.2 !! n = Some v → repeats ic a lo hi v.
Proof.
  revert s caps p. induction r; intros s caps p; cbn [group_is run].
  - intros _ Hc. rewrite list_elem_of_singleton. by intros ->.
  - intros _ Hc. destruct s as [|c s]; [by rewrite elem_of_nil|].
    destruct (atom_matches ic a0 c); [|by rewrite elem_of_nil].
    rewrite list_elem_of_singleton. by intros ->.
  - intros [H1 H2] Hc. rewrite list_elem_of_bind. intros (q & Hp & Hq).
    eapply IHr2; [done| |done]. eapply IHr1; done.
  - intros [H1 H2] Hc. rewrite elem_of_app. intros [H|H]; eauto.
  - intros H1 Hc. rewrite elem_of_app, list_elem_of_singleton.
    intros [H| ->]; eauto.
  - intros _ Hc. rewrite list_elem_of_fmap. by intros (s' & -> & _).
  - intros Hg Hc. rewrite list_elem_of_fmap. intros (q & -> & Hq). simpl.
    destruct (decide (n0 = n)) as [->|Hne].
    + subst r. rewrite lookup_insert_eq. intros v [= <-].
      cbn [run] in Hq. apply list_elem_of_fmap in Hq as (s' & -> & Hs').
      apply rep_matched in Hs' as (v & -> & Hv). simpl.
      by rewrite matched_app.
    + rewrite lookup_insert_ne by done. eapply IHr; done.
Qed.

Lemma exec_group_is n greedy a lo hi re s m v :
  group_is n (Rep greedy a lo hi) (source re) →
  exec re s = Some m → group m n = Some v →
  repeats (ignoreCase re) a lo hi v.
Proof.
  intros Hg. unfold exec. generalize 0%nat as k.
  assert (Hhead : ∀ s0 rest caps,
            head (run (ignoreCase re) (source re) s0 ∅) = Some (rest, caps) →
            caps !! n = Some v → repeats (ignoreCase re) a lo hi v).
  { intros s0 rest caps Hh%head_Some_elem_of.
    apply (run_group_is n greedy a lo hi _ _ s0 ∅ (rest, caps) Hg); [|done].
    intros v0. by rewrite lookup_empty. }
  induction s as [|c s IH]; intros k; cbn [exec_from];
    destruct (head _) as [[rest caps]|] eqn:Hh; try done.
  - intros [= <-]. apply (Hhead _ _ _ Hh).
  - intros [= <-]. apply (Hhead _ _ _ Hh).
  - apply IH.
Qed.

Lemma upper_class_letter c :
  atom_matches true (Class upper) c = true → isLetter c = true.
Proof.
  unfold atom_matches, class_matches, upper, in_ranges, other_case, isLetter.
  cbn [existsb andb orb].
  repeat (match goal with
          | |- context [?x <=? ?y] => destruct (N.leb_spec x y)
          end; cbn [andb orb]); try done; lia.
Qed.

Lemma isLetter_not_space c : isLetter c = true → isWhiteSpace c = false.
Proof.
  unfold isLetter. rewrite orb_true_iff, !andb_true_iff, !N.leb_le.
  intros Hc. apply not_true_is_false. unfold isWhiteSpace.
  rewrite !orb_true_iff, !andb_true_iff, !N.eqb_eq, !N.leb_le. lia.
Qed.

(** Trimming leaves a text of letters as it is. *)
Lemma trim_letters s : Forall (fun c => isLetter c = true) s → trim s = s.
Proof.
  intros Hs.
  assert (Hstart : ∀ l, Forall (fun c => isLetter c = true) l → trimStart l = l).
  { intros l [|c l' Hc _]; [done|]. simpl. by rewrite isLetter_not_space. }
  unfold trim, trimEnd. rewrite (Hstart s Hs), Hstart.
  - apply reverse_involutive.
  - by apply Forall_reverse.
Qed.

(** X3. The parameter of the stock intent is a ticker of one to five
    ASCII letters, in upper or lower case. *)
Theorem detectCommands_ticker (text : jsstring) (d : detection) :
  detectCommands text = Normal d → command d = Some (js "stock") →
  ∃ ticker, params d = [ticker]
            ∧ (1 ≤ length ticker ≤ 5)%nat
            ∧ Forall (fun c => isLetter c = true) ticker.
Proof.
  rewrite detectCommands_eq. intros [= <-].
  destruct (test COMMAND_PATTERNS.help text); [by intros [=]|].
  destruct (test COMMAND_PATTERNS.time text); [by intros [=]|].
  destruct (test COMMAND_PATTERNS.date text); [by intros [=]|].
  destruct (test COMMAND_PATTERNS.joke text); [by intros [=]|].
  destruct (test COMMAND_PATTERNS.weather text); [by intros [=]|].
  destruct (test COMMAND_PATTERNS.stockPrice text) eqn:Hstock.
  2:{ repeat (match goal with
              | |- context [test ?re text] => destruct (test re text)
              end; try (by intros [=])). }
  intros _. cbn [params]. eexists. split; [done|].
  unfold test in Hstock. unfold captured.
  destruct (exec COMMAND_PATTERNS.stockPrice text) as [m|] eqn:Hm; [|done].
  destruct (exec_defines 1 COMMAND_PATTERNS.stockPrice _ _ eq_refl Hm)
    as (v & Hv & Hne).
  cbn [mbind option_bind]. rewrite Hv. cbn [default from_option id].
  assert (Hrep : repeats true (Class upper) 1 (Some 5%nat) v).
  { eapply (exec_group_is 1 true (Class upper) 1 (Some 5%nat)
              COMMAND_PATTERNS.stockPrice); [|done..].
    repeat split. }
  destruct Hrep as (Hall & Hlo & Hhi).
  assert (Hletters : Forall (fun c => isLetter c = true) v).
  { eapply Forall_impl; [done|]. apply upper_class_letter. }
  rewrite trim_letters by done. split; [|done].
  specialize (Hhi 5%nat eq_refl). lia.
Qed.

Lemma detectCommands_ticker_witness :
  ∃ ticker,
    params {| command := Some (js "stock"); params := [js "msft"] |} = [ticker]
    ∧ (1 ≤ length ticker ≤ 5)%nat
    ∧ Forall (fun c => isLetter c = true) ticker.
Proof.
  apply (detectCommands_ticker (js "what is the price of msft"));
    [vm_compute; reflexivity|reflexivity].
Defined.

End RouterExtras.

(** ** The chat endpoint, every path *)

Module ChatExtras.
Import JS JSFacts RegExp RegExpFacts Net Chat Spec Notions RouterFacts.
Import GenerationFacts.

(** *** Post-processing cuts, it does not write *)

Lemma cleanResponse_cuts raw :
  ∃ out, cleanResponse raw = Normal out ∧ part_of out raw.
Proof.
  unfold cleanResponse.
  destruct (includes raw (js "AI:")) eqn:HAI.
  { apply split_includes in HAI as (a & b & rest & Hs); [|done].
    rewrite Hs. eexists. split; [reflexivity|].
    eapply part_of_trans; [apply trim_part|].
    apply (split_rounds_part (length raw) (js "AI:")).
    fold (split raw (js "AI:")). rewrite Hs. set_solver. }
  destruct (includes raw (js "Human:")) eqn:HH;
    [|eexists; split; [reflexivity|apply part_of_refl]].
  apply split_includes in HH as (a & b & rest & Hs); [|done].
  rewrite Hs. eexists. split; [reflexivity|].
  eapply part_of_trans; [apply trim_part|].
  apply (split_rounds_part (length raw) (js "Human:")).
  fold (split raw (js "Human:")). rewrite Hs. set_solver.
Qed.

(** X4. Post-processing never throws, and what it returns is a contiguous
    part of the raw output: it only cuts text off at the two ends. *)
Theorem cleanResponse_part (raw : jsstring) :
  ∃ out, cleanResponse raw = Normal out ∧ part_of out raw.
Proof. apply cleanResponse_cuts. Qed.

(** *** The paths of the handler *)

Lemma detectCommands_command text :
  ∃ d, detectCommands text = Normal d
       ∧ (d = {| command := None; params := [] |}
          ∨ ∃ c, command d = Some c ∧ truthy c = true).
Proof.
  rewrite detectCommands_eq. eexists. split; [done|].
  repeat (match goal with
          | |- context [test ?re text] => destruct (test re text)
          end; try (right; eexists; split; reflexivity)).
  by left.
Qed.

Lemma jokes_nonempty : Forall (fun j => j ≠ []) jokes.
Proof. repeat constructor; discriminate. Qed.

(** A command handler issues no call, draws at most one number and
    answers with a non-empty text. *)
Lemma executeCommand_run E c ps w :
  ∃ resp w', executeCommand E c ps w = (Normal resp, w')
             ∧ calls w' = calls w
             ∧ (draws w ≤ draws w' ≤ S (draws w))%nat
             ∧ resp ≠ [].
Proof.
  unfold executeCommand, pick, Math_random. run_M.
  repeat (case_bool_decide;
          [eexists _, _; split; [reflexivity|]; cbn [calls draws];
           repeat split; try lia; try discriminate|]).
  - apply (proj1 (Forall_forall _ _) jokes_nonempty).
    apply list_elem_of_lookup_total_2, floor_times_lt; simpl; lia.
  - eexists _, _. split; [reflexivity|]. repeat split; try lia. discriminate.
Qed.

(** The generation path: the reply, the calls, and whose text it is. *)
Lemma generation_run E text ctx hist :
  let prompt := build_prompt text hist in
  let p := primary_request E prompt in
  let b := backup_request E prompt in
  let o1 := fetch_outcome E 0 p in
  let o2 := fetch_outcome E 1 b in
  ∃ rep w,
    try_catch
      (generate E text ctx hist)
      (fun apiError =>
         fallbackResponse ← pick E fallbackResponses;
         mret (error_reply 200 (js "API processing failed")
                 fallbackResponse (Some apiError))) start
    = (Normal rep, w)
    ∧ status rep = 200%Z
    ∧ response rep ≠ []
    ∧ calls w = (if failed o1 then [p; b] else [p])
    ∧ (draws w ≤ 1)%nat
    ∧ (model_used rep = None
       ∨ model_used rep = Some (js "fallback")
       ∨ (model_used rep = Some primaryModel ∧ failed o1 = false
          ∧ part_of (response rep) (output o1))
       ∨ (model_used rep = Some backupModel ∧ failed o1 = true
          ∧ failed o2 = false ∧ part_of (response rep) (output o2))).
Proof.
  cbv zeta.
  destruct (drawn_pool E 0) as (Hin & _ & Hlen).
  pose proof (attempts_run E (build_prompt text hist)) as Ha. cbv zeta in Ha.
  unfold generate. run_M.
  set (prompt := build_prompt _ _) in *.
  set (o1 := fetch_outcome E 0 _) in *.
  set (o2 := fetch_outcome E 1 _) in *.
  assert (Hresp : ∀ raw model cs,
    ∃ rep w, respond E ctx (raw, model) {| calls := cs; draws := 0 |}
             = (Normal rep, w)
      ∧ status rep = 200%Z ∧ response rep ≠ [] ∧ calls w = cs
      ∧ (draws w ≤ 1)%nat
      ∧ (model_used rep = Some (js "fallback")
         ∨ model_used rep = Some model ∧ part_of (response rep) raw)).
  { intros raw model cs.
    destruct (respond_run E ctx raw model {| calls := cs; draws := 0 |}
                eq_refl) as (out & rep & Hc & Hr & Hst & Hresp & Hmodel).
    destruct (cleanResponse_cuts raw) as (out' & Hc' & Hpart).
    rewrite Hc in Hc'. injection Hc' as <-.
    exists rep. eexists. split; [exact Hr|]. cbn [calls draws].
    rewrite Hresp, Hmodel.
    destruct (length out <? 5)%nat eqn:Ho.
    - repeat split; try done; [by apply long_nonempty|by left].
    - repeat split; try done; [|lia|by right].
      apply long_nonempty. by apply Nat.ltb_ge. }
  destruct (failed o1) eqn:Hf1; [destruct (failed o2) eqn:Hf2|].
  - destruct Ha as [e ->].
    unfold pick, Math_random. run_M. cbn [calls draws]. fold (drawn E 0).
    eexists _, _. split; [reflexivity|]. cbn [status response calls draws].
    repeat split; try done; [by apply long_nonempty|by left].
  - rewrite Ha.
    destruct (Hresp (output o2) backupModel
                [primary_request E prompt; backup_request E prompt])
      as (rep & w & -> & Hst & Hne & Hcs & Hds & Hm).
    exists rep, w. repeat split; try done.
    destruct Hm as [Hm|[Hm Hp]]; [by right; left|]. by right; right; right.
  - rewrite Ha.
    destruct (Hresp (output o1) primaryModel [primary_request E prompt])
      as (rep & w & -> & Hst & Hne & Hcs & Hds & Hm).
    exists rep, w. repeat split; try done.
    destruct Hm as [Hm|[Hm Hp]]; [by right; left|]. by right; right; left.
Qed.

(** The three ways a request is answered: turned down, by a command
    handler, by the model. *)
Lemma POST_paths E req :
  ∃ rep w,
    POST E req start = (Normal rep, w)
    ∧ ((truthy_opt (apiKey E) && truthy_opt (req ≫= message) = false
        ∧ (∃ e r, rep = error_reply 400 e r None ∧ r ≠ []) ∧ w = start)
       ∨ (truthy_opt (apiKey E) = true
          ∧ ∃ body text d c resp,
              req = Some body ∧ message body = Some text
              ∧ truthy text = true
              ∧ detectCommands text = Normal d ∧ command d = Some c
              ∧ executeCommand E c (params d) start = (Normal resp, w)
              ∧ resp ≠ [] ∧ calls w = [] ∧ (draws w ≤ 1)%nat
              ∧ rep = {| status := 200;
                         response := resp;
                         error := None;
                         details := None;
                         reply_context :=
                           Some {| previousTopic :=
                                     (context body) ≫= previousTopic;
                                   recentEntities :=
                                     (context body) ≫= recentEntities;
                                   messageCount :=
                                     Number.add
                                       (default Number.zero
                                          (messageCount <$> context body))
                                       Number.one;
                                   lastCommand := Some c |};
                         detected_command := Some c;
                         command_params := Some (params d);
                         model_used := None |})
       ∨ (truthy_opt (apiKey E) = true
          ∧ ∃ body text,
              req = Some body ∧ message body = Some text
              ∧ truthy text = true
              ∧ detectCommands text = Normal {| command := None; params := [] |}
              ∧ let prompt := build_prompt text (default [] (history body)) in
                let p := primary_request E prompt in
                let b := backup_request E prompt in
                let o1 := fetch_outcome E 0 p in
                let o2 := fetch_outcome E 1 b in
                status rep = 200%Z
                ∧ response rep ≠ []
                ∧ calls w = (if failed o1 then [p; b] else [p])
                ∧ (draws w ≤ 1)%nat
                ∧ (model_used rep = None
                   ∨ model_used rep = Some (js "fallback")
                   ∨ (model_used rep = Some primaryModel ∧ failed o1 = false
                      ∧ part_of (response rep) (output o1))
                   ∨ (model_used rep = Some backupModel ∧ failed o1 = true
                      ∧ failed o2 = false
                      ∧ part_of (response rep) (output o2))))).
Proof.
  unfold POST.
  destruct (truthy_opt (apiKey E)) eqn:Hkey; cbn [negb andb].
  2:{ run_M. eexists _, _. split; [reflexivity|]. left.
      split; [done|]. split; [|done]. eexists _, _.
      split; [reflexivity|by vm_compute]. }
  destruct req as [body|].
  2:{ run_M. eexists _, _. split; [reflexivity|]. left.
      split; [done|]. split; [|done]. eexists _, _.
      split; [reflexivity|by vm_compute]. }
  cbn [mbind option_bind].
  destruct (truthy_opt (message body)) eqn:Hmsg; cbn [negb].
  2:{ run_M. eexists _, _. split; [reflexivity|]. left.
      split; [done|]. split; [|done]. eexists _, _.
      split; [reflexivity|by vm_compute]. }
  destruct (message body) as [text|] eqn:Hbody; [|done].
  cbn [truthy_opt default from_option id] in *.
  destruct (detectCommands_command text) as (d & Hd & [->|(c & Hc & Hct)]).
  - destruct (generation_run E text
                (default {| previousTopic := None; recentEntities := None;
                            messageCount := Number.zero;
                            lastCommand := None |}
                         (context body))
                (default [] (history body)))
      as (rep & w & Hgen & Hfacts).
    exists rep, w. split.
    + revert Hgen. run_M. rewrite Hd. cbn [command truthy_opt].
      by intros ->.
    + right; right. split; [done|]. exists body, text.
      do 4 (split; [done|]). exact Hfacts.
  - destruct (executeCommand_run E c (params d) start)
      as (resp & w & Hex & Hcs & Hds & Hne).
    eexists _, w. split.
    + run_M. rewrite Hd, Hc. cbn [truthy_opt default from_option id].
      rewrite Hct, Hex. reflexivity.
    + right; left. split; [done|]. exists body, text, d, c, resp.
      repeat split; try done; [cbn [start draws] in Hds; lia|].
      by destruct (context body).
Qed.

(** X5. For every environment and every request the handler of the chat
    endpoint returns a reply and does not throw: the response text is not
    empty, the status is 200 or 400, at most two model calls are made and
    at most one random number is drawn. *)
Theorem POST_total (E : env) (req : option chat_body) :
  ∃ rep w,
    POST E req start = (Normal rep, w)
    ∧ response rep ≠ []
    ∧ (status rep = 200 ∨ status rep = 400)%Z
    ∧ (length (calls w) ≤ 2)%nat
    ∧ (draws w ≤ 1)%nat.
Proof.
  destruct (POST_paths E req) as (rep & w & HP & Hpath).
  exists rep, w. split; [done|].
  destruct Hpath as [(_ & (e & r & -> & Hr) & ->)
                    |[(_ & body & text & d & c & resp & _ & _ & _ & _ & _
                         & _ & Hne & Hcs & Hds & ->)
                     |(_ & body & text & _ & _ & _ & _ & Hst & Hne & Hcs
                         & Hds & _)]].
  - repeat split; try done; [by right|simpl; lia..].
  - cbn [response status]. rewrite Hcs.
    repeat split; try done; [by left|simpl; lia].
  - rewrite Hcs. repeat split; try done; [by left|].
    destruct (failed _); simpl; lia.
Qed.

(** X6. The reply has status 400 exactly when no key is configured or the
    request carries no message (no body that parses, no [message] field,
    or an empty one); the handler then calls no model, draws no number and
    returns no context. *)
Theorem POST_turned_down (E : env) (req : option chat_body)
    (rep : reply) (w : world) :
  POST E req start = (Normal rep, w) →
  (status rep = 400%Z
   ↔ truthy_opt (apiKey E) && truthy_opt (req ≫= message) = false)
  ∧ (status rep = 400%Z →
     w = start ∧ reply_context rep = None ∧ model_used rep = None).
Proof.
  intros HP. destruct (POST_paths E req) as (rep' & w' & HP' & Hpath).
  rewrite HP in HP'. injection HP' as <- <-.
  destruct Hpath as [(Hno & (e & r & -> & Hr) & ->)
                    |[(Hkey & body & text & d & c & resp & -> & Hm & Ht & _
                         & _ & _ & _ & _ & _ & ->)
                     |(Hkey & body & text & -> & Hm & Ht & _ & Hst & _)]].
  - done.
  - cbn [status mbind option_bind]. rewrite Hkey, Hm. cbn [truthy_opt andb].
    rewrite Ht. split; [split; done|done].
  - cbn [mbind option_bind]. rewrite Hkey, Hm, Hst. cbn [truthy_opt andb].
    rewrite Ht. split; [split; done|done].
Qed.

Lemma POST_turned_down_witness :
  ∃ rep,
    POST Examples.offline None start = (Normal rep, start)
    ∧ (status rep = 400%Z
       ↔ truthy_opt (apiKey Examples.offline)
         && truthy_opt (None ≫= message) = false)
    ∧ (status rep = 400%Z →
       start = start ∧ reply_context rep = None ∧ model_used rep = None).
Proof.
  eexists. split; [vm_compute; reflexivity|].
  apply (POST_turned_down Examples.offline None). vm_compute. reflexivity.
Defined.

(** X7. With a key configured, when the router finds an intent in the
    message, the handler calls no model: the reply has status 200, names
    the intent and its parameters, names no model, and its context
    records the intent as the last command and holds the message count
    after [count++]: the binary64 sum of the count and one, which is one
    more for an integer count from [-2^53] up to but not including
    [2^53].  For the five intents without a handler (weather, stock, news,
    translate, sentiment) the response is the sentence that the feature
    will be implemented soon. *)
Theorem POST_command (E : env) (body : chat_body) (text : jsstring)
    (d : detection) (c : jsstring) :
  truthy_opt (apiKey E) = true → message body = Some text →
  detectCommands text = Normal d → command d = Some c →
  ∃ rep w,
    POST E (Some body) start = (Normal rep, w)
    ∧ calls w = []
    ∧ status rep = 200%Z
    ∧ detected_command rep = Some c
    ∧ command_params rep = Some (params d)
    ∧ model_used rep = None
    ∧ (∃ ctx, reply_context rep = Some ctx ∧ lastCommand ctx = Some c
              ∧ messageCount ctx
                = Number.add
                    (default Number.zero (messageCount <$> context body))
                    Number.one
              ∧ ∀ z, (- 2 ^ 53 <= z)%Z → (z < 2 ^ 53)%Z →
                     default Number.zero (messageCount <$> context body)
                     = Number.of_Z z →
                     messageCount ctx = Number.of_Z (z + 1))
    ∧ (c ∈ unimplemented →
       response rep
       = js "I recognized your " ++ c ++ js " command with parameters: "
         ++ join (params d) (js ", ")
         ++ js ". This feature will be implemented soon.").
Proof.
  intros Hkey Hmsg Hd Hc.
  destruct (POST_paths E (Some body)) as (rep & w & HP & Hpath).
  exists rep, w. split; [done|].
  destruct Hpath as [(Hno & _)
                    |[(_ & body' & text' & d' & c' & resp & [= <-] & Hm & _
                         & Hd' & Hc' & Hex & _ & Hcs & _ & ->)
                     |(_ & body' & text' & [= <-] & Hm & _ & Hd' & _)]].
  - exfalso. revert Hno. cbn [mbind option_bind]. rewrite Hkey, Hmsg.
    cbn [truthy_opt andb]. destruct text; [|done].
    vm_compute in Hd. injection Hd as <-. done.
  - rewrite Hmsg in Hm. injection Hm as <-.
    rewrite Hd in Hd'. injection Hd' as <-.
    rewrite Hc in Hc'. injection Hc' as <-.
    cbn [status detected_command command_params model_used reply_context
         response].
    do 5 (split; [done|]). split.
    { eexists. do 3 (split; [done|]). intros z Hlo Hhi Hz.
      cbn [messageCount]. rewrite Hz. by apply NumberFacts.add_one. }
    intros Hun. unfold unimplemented in Hun.
    rewrite !elem_of_cons, elem_of_nil in Hun.
    revert Hex. unfold executeCommand.
    decompose [or] Hun; try done; subst c;
      repeat (case_bool_decide as Heq; [by vm_compute in Heq|]);
      run_M; by intros [= <- <-].
  - rewrite Hmsg in Hm. injection Hm as <-.
    rewrite Hd in Hd'. injection Hd' as ->. done.
Qed.

Lemma POST_command_witness :
  ∃ rep w,
    POST Examples.offline (Some MoreExamples.price_of_msft) start
    = (Normal rep, w)
    ∧ calls w = []
    ∧ (messageCount <$> reply_context rep) = Some (Number.of_Z 1)
    ∧ response rep
      = js "I recognized your stock command with parameters: msft. This feature will be implemented soon.".
Proof.
  destruct (POST_command Examples.offline MoreExamples.price_of_msft
              (js "what is the price of msft")
              {| command := Some (js "stock"); params := [js "msft"] |}
              (js "stock") eq_refl eq_refl ltac:(vm_compute; reflexivity)
              eq_refl)
    as (rep & w & HP & Hcs & _ & _ & _ & _
          & (ctx & Hctx & _ & _ & Hcount) & Hresp).
  exists rep, w. split; [exact HP|]. split; [exact Hcs|]. split.
  - rewrite Hctx. cbn [fmap option_fmap option_map].
    by rewrite (Hcount 0%Z) by (reflexivity || lia).
  - rewrite Hresp; [vm_compute; reflexivity|].
    unfold unimplemented. right; left.
Defined.

(** X8. When the reply names a model other than [fallback], that model
    is the one the handler called last, that call succeeded, and the
    response is a contiguous part of the text that call produced. *)
Theorem POST_names_the_model_that_answered (E : env) (req : option chat_body)
    (rep : reply) (w : world) (m : jsstring) :
  POST E req start = (Normal rep, w) →
  model_used rep = Some m → m ≠ js "fallback" →
  ∃ call,
    last (calls w) = Some call
    ∧ url call = api ++ m
    ∧ failed (fetch_outcome E (length (calls w) - 1) call) = false
    ∧ part_of (response rep)
              (output (fetch_outcome E (length (calls w) - 1) call)).
Proof.
  intros HP Hm Hfb. destruct (POST_paths E req) as (rep' & w' & HP' & Hpath).
  rewrite HP in HP'. injection HP' as <- <-.
  destruct Hpath as [(_ & (e & r & -> & _) & _)
                    |[(_ & body & text & d & c & resp & _ & _ & _ & _ & _
                         & _ & _ & _ & _ & ->)
                     |(_ & body & text & _ & _ & _ & _ & Hgen)]];
    [done..|].
  cbv zeta in Hgen. destruct Hgen as (_ & _ & Hcs & _ & Hmodel).
  rewrite Hm in Hmodel. rewrite Hcs.
  destruct Hmodel as [?|[[= ->]|[([= ->] & Hf1 & Hpart)
                                |([= ->] & Hf1 & Hf2 & Hpart)]]];
    [done..| |]; rewrite Hf1; eexists; (split; [reflexivity|]); by repeat split.
Qed.

Lemma POST_names_the_model_that_answered_witness :
  ∃ rep w call,
    POST MoreExamples.answering (Some MoreExamples.name_the_capital) start
    = (Normal rep, w)
    ∧ model_used rep = Some primaryModel
    ∧ response rep = js "Paris is the capital."
    ∧ last (calls w) = Some call
    ∧ url call = api ++ primaryModel
    ∧ part_of (response rep)
        (output (fetch_outcome MoreExamples.answering
                   (length (calls w) - 1) call)).
Proof.
  eexists _, _, _. split; [vm_compute; reflexivity|].
  split; [reflexivity|]. split; [reflexivity|].
  destruct (POST_names_the_model_that_answered MoreExamples.answering
              (Some MoreExamples.name_the_capital) _ _ primaryModel
              ltac:(vm_compute; reflexivity) eq_refl
              ltac:(by vm_compute))
    as (call & Hlast & Hurl & _ & Hpart).
  injection Hlast as <-. by repeat split.
Defined.

(** *** The history in the prompt *)

Lemma build_prompt_recent text old recent :
  (10 ≤ length recent)%nat →
  build_prompt text (old ++ recent) = build_prompt text recent.
Proof.
  intros Hlen. unfold build_prompt, slice_last. rewrite length_app.
  assert ((0 <? length old + length recent)%nat = true) as ->
    by (apply Nat.ltb_lt; lia).
  assert ((0 <? length recent)%nat = true) as -> by (apply Nat.ltb_lt; lia).
  replace (length old + length recent - 10)%nat
    with (length old + (length recent - 10))%nat by lia.
  by rewrite drop_app_add'.
Qed.

(** X9. Of the history sent along only the last ten entries count: with
    ten entries or more, whatever precedes them changes neither the model
    calls nor the reply. *)
Theorem POST_recent_history (E : env) (m : option jsstring)
    (ctx : option ConversationContext) (old recent : list jsstring)
    (w : world) :
  (10 ≤ length recent)%nat →
  POST E (Some {| message := m; context := ctx;
                  history := Some (old ++ recent) |}) w
  = POST E (Some {| message := m; context := ctx;
                    history := Some recent |}) w.
Proof.
  intros Hlen. unfold POST, generate. cbn [message context history].
  cbn [default from_option id]. by rewrite build_prompt_recent.
Qed.

Lemma POST_recent_history_witness :
  POST MoreExamples.answering
    (Some {| message := Some (js "Name the capital of France");
             context := None;
             history := Some ([js "Human: first"]
                              ++ replicate 10 (js "AI: later")) |}) start
  = POST MoreExamples.answering
      (Some {| message := Some (js "Name the capital of France");
               context := None;
               history := Some (replicate 10 (js "AI: later")) |}) start.
Proof.
  apply (POST_recent_history MoreExamples.answering
           (Some (js "Name the capital of France")) None
           [js "Human: first"] (replicate 10 (js "AI: later")) start).
  simpl. lia.
Defined.

End ChatExtras.

(** ** The translation endpoint, every path *)

Module TranslateExtras.
Import JS Net Translate Notions TranslateFacts.

Lemma table_values (P : jsstring → Prop) entries k v :
  Forall (fun e => P (js e.2)) entries → table entries !! k = Some v → P v.
Proof.
  unfold table. intros HF Hl. apply elem_of_list_to_map_2 in Hl.
  apply list_elem_of_fmap in Hl as (e & [= -> ->] & He).
  by apply (proj1 (Forall_forall _ _) HF).
Qed.

(** Discharging [plain_names] on a request that is given. *)
Ltac plain_names :=
  intros ? ? [= <-] [[= <-]|[= <-]];
  split; refine (bool_decide_unpack _ _); vm_compute; exact I.

(** X10. Whatever the language name and whatever the lower-casing, the
    code computed for a language has exactly two code units: a code of
    the table, the lower-cased name when that has two, or [en]. *)
Theorem getLanguageCode_length (toLowerCase : jsstring → jsstring)
    (language : jsstring) :
  toLowerCase language ∉ inherited →
  length (getLanguageCode toLowerCase language) = 2%nat.
Proof.
  intros _. unfold getLanguageCode.
  destruct (truthy_opt (languageCodes !! toLowerCase language)) eqn:Hin.
  - destruct (languageCodes !! toLowerCase language) as [v|] eqn:Hv; [|done].
    cbn [default from_option id]. unfold languageCodes in Hv.
    refine (table_values (fun v => length v = 2%nat) _ _ _ _ Hv).
    repeat constructor.
  - destruct (length (toLowerCase language) =? 2)%nat eqn:Hl; [|done].
    by apply Nat.eqb_eq.
Qed.

Lemma getLanguageCode_length_witness :
  length (getLanguageCode toLowerCaseASCII (js "Klingon")) = 2%nat.
Proof.
  apply (getLanguageCode_length toLowerCaseASCII (js "Klingon")).
  refine (bool_decide_unpack _ _). vm_compute. exact I.
Defined.

(** X11. Whatever the pair of codes, the model selected for the first
    call is one of the [Helsinki-NLP/opus-mt-] family: a specialized one
    from the table, or the generic one named after the two codes. *)
Theorem select_primary_family (indian : bool)
    (sourceCode targetCode : jsstring) :
  ∃ pair, select_primary indian sourceCode targetCode
          = js "Helsinki-NLP/opus-mt-" ++ pair.
Proof.
  unfold select_primary.
  destruct (indian && truthy_opt _) eqn:Hsel; [|by eexists].
  apply andb_true_iff in Hsel as [_ Hin].
  destruct (INDIAN_LANGUAGE_MODELS !! _) as [v|] eqn:Hv; [|done].
  cbn [default from_option id]. unfold INDIAN_LANGUAGE_MODELS in Hv.
  refine (table_values
            (fun v => ∃ pair, v = js "Helsinki-NLP/opus-mt-" ++ pair)
            _ _ _ _ Hv).
  repeat constructor; by eexists.
Qed.

Section WithEnv.
Context (toLowerCase : jsstring → jsstring) (E : env).

(** A guarded attempt: its call, what it assigns, and that it assigns
    nothing when the call is declined. *)
Lemma guarded_named req model read w :
  ∃ a, guarded E req model read w
       = (Normal a, {| calls := calls w ++ [req]; draws := draws w |})
       ∧ (∀ p, a = Some p → p.2 = Some model)
       ∧ (declined (fetch_outcome E (length (calls w)) req) → a = None).
Proof.
  unfold guarded, fetch, json_of, declined. run_M.
  destruct (fetch_outcome E (length (calls w)) req) as [e|st [result|]].
  - by eexists.
  - cbn [fst snd]. destruct (ok st); [|by eexists].
    destruct (read result) as [[t|]|]; eexists; (split; [done|]);
      (split; [|done]); by intros p [= <-].
  - cbn [fst snd]. destruct (ok st); by eexists.
Qed.

Lemma names_last_call_snoc p cs req m :
  p.2 = Some m → url req = api ++ m → names_last_call p (cs ++ [req]).
Proof. intros Hp Hurl _. exists m, req. by rewrite last_snoc. Qed.

Lemma names_last_call_none p cs :
  truthy_opt p.1 = false → names_last_call p cs.
Proof. by intros Hp Hp'; rewrite Hp in Hp'. Qed.

(** The backup loop: the models it calls, a prefix of the list; all of
    the list when every call is declined. *)
Lemma try_backups_named models t sl tl p w :
  names_last_call p (calls w) →
  ∃ p' tried,
    try_backups toLowerCase E models t sl tl p w
    = (Normal p',
       {| calls := calls w
                   ++ ((fun m => backup_request toLowerCase E m t sl tl)
                         <$> tried);
          draws := draws w |})
    ∧ tried `prefix_of` models
    ∧ names_last_call p'
        (calls w ++ ((fun m => backup_request toLowerCase E m t sl tl)
                       <$> tried))
    ∧ (truthy_opt p.1 = false →
       (∀ k req, (length (calls w) ≤ k)%nat →
                 declined (fetch_outcome E k req)) →
       p' = p ∧ tried = models).
Proof.
  revert w. induction models as [|m models IH]; intros w Hp; simpl.
  - exists p, []. simpl. rewrite app_nil_r. by destruct w.
  - destruct (truthy_opt p.1) eqn:Htr.
    { exists p, []. simpl. rewrite app_nil_r.
      repeat split; [by destruct w|apply prefix_nil|done|done..]. }
    run_M.
    destruct (guarded_named
                (backup_request toLowerCase E m t sl tl) m read_backup w)
      as (a & -> & Ha & Hdecl).
    destruct a as [p'|].
    + exists p', [m]. split; [done|]. split; [|split].
      * by apply prefix_cons, prefix_nil.
      * apply (names_last_call_snoc _ _ _ m); [by apply Ha|done].
      * intros _ Hall. by specialize (Hdecl (Hall _ _ (le_n _))).
    + destruct (IH {| calls := calls w
                               ++ [backup_request toLowerCase E m t sl tl];
                      draws := draws w |})
        as (p' & tried & -> & Hpre & Hnames & Hall).
      { by apply names_last_call_none. }
      exists p', (m :: tried). cbn [calls draws fmap list_fmap] in *.
      rewrite <-app_assoc in *. cbn [app] in *.
      split; [done|]. split; [by apply prefix_cons|]. split; [done|].
      intros _ Hall'. destruct Hall as [-> ->]; [done| |done].
      intros k req Hk. apply Hall'.
      rewrite length_app in Hk. simpl in Hk. lia.
Qed.

(** The attempts after the primary one. *)
Lemma fall_back_named indian t sl tl sourceCode targetCode p primary :
  names_last_call p [primary] →
  ∃ p' rest,
    fall_back toLowerCase E indian t sl tl sourceCode targetCode p
      {| calls := [primary]; draws := 0 |}
    = (Normal p', {| calls := primary :: rest; draws := 0 |})
    ∧ (length rest ≤ 4)%nat
    ∧ names_last_call p' (primary :: rest)
    ∧ (truthy_opt p.1 = true → p' = p ∧ rest = [])
    ∧ (truthy_opt p.1 = false →
       (∀ k req, (1 ≤ k)%nat → declined (fetch_outcome E k req)) →
       p' = p
       ∧ rest = (if indian
                 then [indic_request toLowerCase E t sourceCode targetCode]
                 else [])
                ++ ((fun m => backup_request toLowerCase E m t sl tl)
                      <$> BACKUP_MODELS)).
Proof.
  intros Hp. unfold fall_back. run_M.
  destruct (truthy_opt p.1) eqn:Htr; cbn [negb].
  { exists p, []. repeat split; try done. simpl. lia. }
  destruct indian.
  - destruct (guarded_named
                (indic_request toLowerCase E t sourceCode targetCode)
                indicModel read_indic {| calls := [primary]; draws := 0 |})
      as (a & -> & Ha & Hdecl).
    cbn [calls draws app] in *.
    destruct (try_backups_named BACKUP_MODELS t sl tl (default p a)
                {| calls := [primary;
                             indic_request toLowerCase E t sourceCode
                               targetCode];
                   draws := 0 |})
      as (p' & tried & -> & Hpre & Hnames & Hall).
    { destruct a as [p1|]; cbn [default from_option id calls].
      - apply (names_last_call_snoc p1 [primary] _ indicModel);
          [by apply Ha|done].
      - by apply names_last_call_none. }
    cbn [calls draws app] in *.
    eexists _, _. split; [done|]. split; [|split; [done|split; [done|]]].
    + apply prefix_length in Hpre. simpl in *.
      rewrite length_fmap. lia.
    + intros _ Hall'. rewrite (Hdecl (Hall' 1%nat _ (le_n _))) in *.
      cbn [default from_option id] in *.
      destruct Hall as [-> ->]; [done| |done].
      intros k req Hk. apply Hall'. simpl in Hk. lia.
  - destruct (try_backups_named BACKUP_MODELS t sl tl p
                {| calls := [primary]; draws := 0 |})
      as (p' & tried & -> & Hpre & Hnames & Hall);
      [by apply names_last_call_none|].
    cbn [calls draws app] in *.
    eexists _, _. split; [done|]. split; [|split; [done|split; [done|]]].
    + apply prefix_length in Hpre. simpl in *.
      rewrite length_fmap. lia.
    + intros _ Hall'. destruct Hall as [-> ->]; [done| |done].
      intros k req Hk. apply Hall'. simpl in Hk. lia.
Qed.

(** The ways a request is answered: without key, turned down, or by
    calling models. *)
Lemma translation_paths req :
  ∃ rep w,
    POST toLowerCase E req start = (Normal rep, w)
    ∧ draws w = 0%nat
    ∧ translation rep ≠ []
    ∧ ((truthy_opt (apiKey E) = false ∧ w = start ∧ status rep = 200%Z
        ∧ mockData rep = Some true ∧ model_used rep = None)
       ∨ (truthy_opt (apiKey E) = true ∧ has_fields req = false
          ∧ w = start ∧ status rep = 400%Z ∧ model_used rep = None)
       ∨ (truthy_opt (apiKey E) = true ∧ has_fields req = true
          ∧ answered_by_models rep w)).
Proof.
  unfold POST, has_fields.
  destruct (truthy_opt (apiKey E)) eqn:Hkey; cbn [negb].
  2:{ run_M. eexists _, _. split; [reflexivity|]. split; [done|].
      split; [by vm_compute|]. by left. }
  destruct req as [body|].
  2:{ run_M. eexists _, _. split; [reflexivity|]. split; [done|].
      split; [by vm_compute|]. right; left. done. }
  cbn [mbind option_bind].
  destruct (truthy_opt (text body)) eqn:Ht; cbn [negb orb andb].
  2:{ run_M. eexists _, _. split; [reflexivity|]. split; [done|].
      split; [by vm_compute|]. right; left. done. }
  destruct (truthy_opt (sourceLang body)) eqn:Hsl; cbn [negb orb andb].
  2:{ run_M. eexists _, _. split; [reflexivity|]. split; [done|].
      split; [by vm_compute|]. right; left. done. }
  destruct (truthy_opt (targetLang body)) eqn:Htl; cbn [negb orb andb].
  2:{ run_M. eexists _, _. split; [reflexivity|]. split; [done|].
      split; [by vm_compute|]. right; left. done. }
  destruct (text body) as [t|]; [|done].
  destruct (sourceLang body) as [sl|]; [|done].
  destruct (targetLang body) as [tl|]; [|done].
  cbn [truthy_opt default from_option id] in *.
  match goal with
  | |- ∃ rep w, ?run = _ ∧ _ =>
      cut (∃ rep w, run = (Normal rep, w) ∧ draws w = 0%nat
                    ∧ translation rep ≠ [] ∧ answered_by_models rep w)
  end.
  { intros (rep & w & Hrun & Hds & Hne & Hans). exists rep, w.
    do 3 (split; [done|]). right; right. by do 2 (split; [done|]). }
  set (sourceCode := getLanguageCode toLowerCase sl).
  set (targetCode := getLanguageCode toLowerCase tl).
  set (indian := isIndianLanguage toLowerCase sourceCode
                 || isIndianLanguage toLowerCase targetCode).
  set (primaryModel := select_primary indian sourceCode targetCode).
  set (primary := primary_request E primaryModel t).
  assert (Hthrown : ∀ e,
    ∃ rep w,
      (Normal (error_reply 500 (js "Failed to translate text")
                 (js "Error occurred: " ++ e) (Some e)),
       {| calls := [primary]; draws := 0 |}) = (Normal rep, w)
      ∧ draws w = 0%nat ∧ translation rep ≠ [] ∧ answered_by_models rep w).
  { intros e. eexists _, _. split; [reflexivity|]. split; [done|].
    split; [by vm_compute|].
    exists primary, []. split; [done|]. split; [simpl; lia|]. by left. }
  run_M. unfold fetch at 1, json_of. run_M. cbn [start calls draws length app].
  destruct (fetch_outcome E 0 primary) as [e|st body']; [apply Hthrown|].
  cbn [fst snd].
  destruct (ok st);
    [destruct body' as [result|]; [|apply Hthrown];
     destruct (read_primary result) as [t0|e]; [|apply Hthrown]|].
  all: match goal with
       | |- context [fall_back _ _ _ _ _ _ _ _ ?p _] =>
           destruct (fall_back_named indian t sl tl sourceCode targetCode
                       p primary)
             as (p' & rest & -> & Hlen & Hnames & _);
             [first [by apply names_last_call_none
                    |destruct (truthy_opt t0);
                     [intros _; by exists primaryModel, primary
                     |by apply names_last_call_none]]|]
       end.
  all: destruct (truthy_opt p'.1) eqn:Hp'; cbn [negb].
  all: eexists _, _; (split; [reflexivity|]); (split; [done|]).
  all: cbn [translation status error mockData model_used calls].
  1,3: destruct (Hnames Hp') as (m & call & Hm & Hlast & Hurl).
  1,2: split; [by destruct p'.1 as [[|? ?]|]|].
  1,2: exists primary, rest; (split; [done|]); (split; [done|]).
  1,2: right; right; do 3 (split; [done|]); by exists m, call.
  all: split; [by vm_compute|].
  all: exists primary, rest; (split; [done|]); (split; [done|]).
  all: by right; left.
Qed.

(** X12. For every environment and every request the handler of the
    translation endpoint returns a reply and does not throw: the
    translation text is not empty, the status is 200, 400 or 500, at most
    five model calls are made and no random number is drawn. *)
Theorem translation_total (req : option translate_body) :
  plain_names toLowerCase req →
  ∃ rep w,
    POST toLowerCase E req start = (Normal rep, w)
    ∧ translation rep ≠ []
    ∧ (status rep = 200 ∨ status rep = 400 ∨ status rep = 500)%Z
    ∧ (length (calls w) ≤ 5)%nat
    ∧ draws w = 0%nat.
Proof.
  intros _.
  destruct (translation_paths req) as (rep & w & HP & Hds & Hne & Hpath).
  exists rep, w. do 2 (split; [done|]).
  destruct Hpath as [(_ & -> & Hst & _)
                    |[(_ & _ & -> & Hst & _)
                     |(_ & _ & first & rest & Hcs & Hlen & Hsub)]].
  - repeat split; try done; [by left|simpl; lia].
  - repeat split; try done; [by right; left|simpl; lia].
  - rewrite Hcs. split; [|split; [simpl; lia|done]].
    destruct Hsub as [(Hst & _)|[(Hst & _)|(Hst & _)]]; rewrite Hst; tauto.
Qed.

(** X13. The handler calls a model exactly when a key is configured and
    the request carries its three fields, none of them empty; and it
    answers with status 400 exactly when a key is configured and a field
    is missing. *)
Theorem POST_calls_iff (req : option translate_body) (rep : reply)
    (w : world) :
  plain_names toLowerCase req →
  POST toLowerCase E req start = (Normal rep, w) →
  (calls w ≠ [] ↔ truthy_opt (apiKey E) && has_fields req = true)
  ∧ (status rep = 400%Z
     ↔ truthy_opt (apiKey E) && negb (has_fields req) = true).
Proof.
  intros _ HP.
  destruct (translation_paths req) as (rep' & w' & HP' & _ & _ & Hpath).
  rewrite HP in HP'. injection HP' as <- <-.
  destruct Hpath as [(-> & -> & -> & _)
                    |[(-> & -> & -> & -> & _)
                     |(-> & -> & first & rest & -> & _ & Hsub)]];
    cbn [andb negb calls start]; [done..|].
  split; [done|].
  destruct Hsub as [(-> & _)|[(-> & _)|(-> & _)]]; done.
Qed.

(** X14. When the reply names a model, the reply is a success (status
    200, no error) and that model is the one the handler called last. *)
Theorem POST_names_the_last_call (req : option translate_body)
    (rep : reply) (w : world) (m : jsstring) :
  plain_names toLowerCase req →
  POST toLowerCase E req start = (Normal rep, w) →
  model_used rep = Some m →
  status rep = 200%Z ∧ error rep = None
  ∧ ∃ call, last (calls w) = Some call ∧ url call = api ++ m.
Proof.
  intros _ HP Hm.
  destruct (translation_paths req) as (rep' & w' & HP' & _ & _ & Hpath).
  rewrite HP in HP'. injection HP' as <- <-.
  destruct Hpath as [(_ & _ & _ & _ & Hno)
                    |[(_ & _ & _ & _ & Hno)
                     |(_ & _ & first & rest & _ & _ & Hsub)]];
    [by rewrite Hm in Hno..|].
  destruct Hsub as [(_ & _ & Hno)|[(_ & _ & Hno)
                   |(Hst & Herr & _ & m' & call & Hm' & Hlast & Hurl)]];
    [by rewrite Hm in Hno..|].
  rewrite Hm in Hm'. injection Hm' as <-.
  do 2 (split; [done|]). by exists call.
Qed.

(** X15. When the primary model answers with a status that is not a
    success and every later call is declined, the handler has called every
    candidate, in order: the primary model, the specialized model if the
    pair has an Indian language, and the three backup models.  The reply
    then has status 200 and the sentence that the translation is not
    available, and lists the primary and the backup models as tried, not
    the specialized one. *)
Theorem POST_exhausted (body : translate_body) (t sl tl : jsstring)
    (st : Z) (b : option json) :
  truthy_opt (apiKey E) = true →
  text body = Some t → truthy t = true →
  sourceLang body = Some sl → truthy sl = true →
  targetLang body = Some tl → truthy tl = true →
  plain_name toLowerCase sl → plain_name toLowerCase tl →
  let sourceCode := getLanguageCode toLowerCase sl in
  let targetCode := getLanguageCode toLowerCase tl in
  let indian := isIndianLanguage toLowerCase sourceCode
                || isIndianLanguage toLowerCase targetCode in
  let primaryModel := select_primary indian sourceCode targetCode in
  let primary := primary_request E primaryModel t in
  fetch_outcome E 0 primary = Responds st b → ok st = false →
  (∀ k req, (1 ≤ k)%nat → declined (fetch_outcome E k req)) →
  POST toLowerCase E (Some body) start
  = (Normal {| status := 200;
               translation :=
                 js "Translation not available for " ++ sl
                 ++ js " to " ++ tl
                 ++ js ". Please try another language pair.";
               error := Some (js "All translation models failed");
               details := None; model_used := None;
               is_indian_language_pair := None;
               modelsTried := Some (primaryModel :: BACKUP_MODELS);
               mockData := None |},
     {| calls :=
          primary
          :: (if indian
              then [indic_request toLowerCase E t sourceCode targetCode]
              else [])
          ++ ((fun m => backup_request toLowerCase E m t sl tl)
                <$> BACKUP_MODELS);
        draws := 0 |}).
Proof.
  intros Hkey Ht Ht' Hsl Hsl' Htl Htl' _ _. cbv zeta.
  intros Hfirst Hok Hall.
  unfold POST. run_M.
  rewrite Hkey, Ht, Hsl, Htl.
  cbn [negb truthy_opt default from_option id orb].
  rewrite Ht', Hsl', Htl'. cbn [negb orb].
  set (sourceCode := getLanguageCode toLowerCase sl) in *.
  set (targetCode := getLanguageCode toLowerCase tl) in *.
  set (indian := isIndianLanguage toLowerCase sourceCode
                 || isIndianLanguage toLowerCase targetCode) in *.
  set (primary := primary_request E _ t) in *.
  unfold fetch at 1, json_of. run_M. cbn [start calls draws length app].
  rewrite Hfirst. cbn [fst snd]. rewrite Hok.
  destruct (fall_back_named indian t sl tl sourceCode targetCode
              (None, None) primary)
    as (p' & rest & -> & _ & _ & _ & Hdecl);
    [by apply names_last_call_none|].
  destruct (Hdecl eq_refl Hall) as [-> ->]. done.
Qed.

(** X16. When the primary model answers with a translation, the handler
    makes that one call and no other: the reply carries the translation,
    names the primary model and tells whether the pair has an Indian
    language. *)
Theorem POST_primary_answers (body : translate_body) (t sl tl : jsstring)
    (st : Z) (result : json) (tr : jsstring) :
  truthy_opt (apiKey E) = true →
  text body = Some t → truthy t = true →
  sourceLang body = Some sl → truthy sl = true →
  targetLang body = Some tl → truthy tl = true →
  plain_name toLowerCase sl → plain_name toLowerCase tl →
  let sourceCode := getLanguageCode toLowerCase sl in
  let targetCode := getLanguageCode toLowerCase tl in
  let indian := isIndianLanguage toLowerCase sourceCode
                || isIndianLanguage toLowerCase targetCode in
  let primaryModel := select_primary indian sourceCode targetCode in
  let primary := primary_request E primaryModel t in
  fetch_outcome E 0 primary = Responds st (Some result) → ok st = true →
  read_primary result = Normal (Some tr) → truthy tr = true →
  POST toLowerCase E (Some body) start
  = (Normal {| status := 200;
               translation := tr;
               error := None; details := None;
               model_used := Some primaryModel;
               is_indian_language_pair := Some indian;
               modelsTried := None; mockData := None |},
     {| calls := [primary]; draws := 0 |}).
Proof.
  intros Hkey Ht Ht' Hsl Hsl' Htl Htl' _ _. cbv zeta.
  intros Hfirst Hok Hread Htr.
  unfold POST. run_M.
  rewrite Hkey, Ht, Hsl, Htl.
  cbn [negb truthy_opt default from_option id orb].
  rewrite Ht', Hsl', Htl'. cbn [negb orb].
  unfold fetch at 1, json_of. run_M. cbn [start calls draws length app].
  rewrite Hfirst. cbn [fst snd]. rewrite Hok, Hread.
  cbn [truthy_opt]. rewrite Htr.
  unfold fall_back. run_M. cbn [fst snd truthy_opt]. rewrite Htr.
  cbn [negb fst snd truthy_opt default from_option id]. rewrite Htr. done.
Qed.

End WithEnv.

Lemma POST_calls_iff_witness :
  ∃ rep w,
    POST toLowerCaseASCII MoreExamples.unavailable
      (Some MoreExamples.english_to_hindi) start = (Normal rep, w)
    ∧ (calls w ≠ []
       ↔ truthy_opt (apiKey MoreExamples.unavailable)
         && has_fields (Some MoreExamples.english_to_hindi) = true)
    ∧ (status rep = 400%Z
       ↔ truthy_opt (apiKey MoreExamples.unavailable)
         && negb (has_fields (Some MoreExamples.english_to_hindi)) = true).
Proof.
  eexists _, _. split; [vm_compute; reflexivity|].
  apply (POST_calls_iff toLowerCaseASCII MoreExamples.unavailable
           (Some MoreExamples.english_to_hindi)); [plain_names|].
  vm_compute. reflexivity.
Defined.

Lemma translation_total_witness :
  ∃ rep w,
    POST toLowerCaseASCII MoreExamples.unavailable
      (Some MoreExamples.english_to_hindi) start = (Normal rep, w)
    ∧ translation rep ≠ []
    ∧ (status rep = 200 ∨ status rep = 400 ∨ status rep = 500)%Z
    ∧ (length (calls w) ≤ 5)%nat
    ∧ draws w = 0%nat.
Proof.
  apply (translation_total toLowerCaseASCII MoreExamples.unavailable
           (Some MoreExamples.english_to_hindi)).
  plain_names.
Defined.

Lemma POST_names_the_last_call_witness :
  ∃ rep w call,
    POST toLowerCaseASCII MoreExamples.answering
      (Some Examples.french_to_german) start = (Normal rep, w)
    ∧ model_used rep = Some (js "Helsinki-NLP/opus-mt-fr-de")
    ∧ status rep = 200%Z ∧ error rep = None
    ∧ last (calls w) = Some call
    ∧ url call = api ++ js "Helsinki-NLP/opus-mt-fr-de".
Proof.
  eexists _, _, _. split; [vm_compute; reflexivity|].
  split; [vm_compute; reflexivity|].
  destruct (POST_names_the_last_call toLowerCaseASCII MoreExamples.answering
              (Some Examples.french_to_german) _ _
              (js "Helsinki-NLP/opus-mt-fr-de")
              ltac:(plain_names)
              ltac:(vm_compute; reflexivity) ltac:(vm_compute; reflexivity))
    as (Hst & Herr & call & Hlast & Hurl).
  do 2 (split; [done|]). injection Hlast as <-. by split.
Defined.

(** From English to Hindi with every model out of service: five calls,
    four models listed. *)
Lemma POST_exhausted_witness :
  ∃ rep w,
    POST toLowerCaseASCII MoreExamples.unavailable
      (Some MoreExamples.english_to_hindi) start = (Normal rep, w)
    ∧ length (calls w) = 5%nat
    ∧ modelsTried rep
      = Some [js "Helsinki-NLP/opus-mt-en-hi";
              js "facebook/mbart-large-50-many-to-many-mmt";
              js "facebook/nllb-200-distilled-600M";
              js "ai4bharat/indictrans2-indic-en-1B"].
Proof.
  eexists _, _. split.
  - apply (POST_exhausted toLowerCaseASCII MoreExamples.unavailable
             MoreExamples.english_to_hindi (js "Good morning")
             (js "English") (js "Hindi") 503 None);
      try reflexivity;
      split; refine (bool_decide_unpack _ _); vm_compute; exact I.
  - split; vm_compute; reflexivity.
Defined.

Lemma POST_primary_answers_witness :
  ∃ w,
    POST toLowerCaseASCII MoreExamples.answering
      (Some Examples.french_to_german) start
    = (Normal {| status := 200;
                 translation := js "Hallo";
                 error := None; details := None;
                 model_used := Some (js "Helsinki-NLP/opus-mt-fr-de");
                 is_indian_language_pair := Some false;
                 modelsTried := None; mockData := None |}, w)
    ∧ length (calls w) = 1%nat.
Proof.
  eexists. split.
  - apply (POST_primary_answers toLowerCaseASCII MoreExamples.answering
             Examples.french_to_german (js "Bonjour") (js "French")
             (js "German") 200
             (JArray [JObject (Some (js "AI: Paris is the capital."))
                              (Some (js "Hallo"))])
             (js "Hallo"));
      try reflexivity;
      split; refine (bool_decide_unpack _ _); vm_compute; exact I.
  - reflexivity.
Defined.

End TranslateExtras.

(** ** The voice assistant beyond the exact and the partial match *)

Module VoiceExtras.
Import JS JSFacts Net VoiceAssistant Notions VoiceAssistantFacts.

(** *** Word overlap *)

Section WithEnv.
Context (toLowerCase : jsstring → jsstring) (now : clock).

Lemma key_reply key :
  key ∈ keys (BUILT_IN_RESPONSES now) →
  ∃ reply, (key, reply) ∈ BUILT_IN_RESPONSES now
           ∧ get (BUILT_IN_RESPONSES now) key = Some reply
           ∧ truthy reply = true.
Proof.
  unfold keys. intros ([k reply] & -> & Hin)%list_elem_of_fmap.
  exists reply. split; [done|]. split.
  - by apply get_Some; [apply BUILT_IN_RESPONSES_keys|].
  - by apply (BUILT_IN_RESPONSES_truthy now k).
Qed.

Lemma first_hit_reply (hit : jsstring → bool) r :
  first_hit (BUILT_IN_RESPONSES now) (keys (BUILT_IN_RESPONSES now)) hit
  = Some r →
  ∃ key reply, (key, reply) ∈ BUILT_IN_RESPONSES now ∧ r = Some reply
               ∧ truthy reply = true.
Proof.
  rewrite first_hit_find.
  destruct (list_find _ _) as [[i key]|] eqn:Hfind; [|done].
  intros [= <-]. apply list_find_Some in Hfind as (Hi & _ & _).
  apply list_elem_of_lookup_2 in Hi.
  destruct (key_reply key Hi) as (reply & Hin & Hget & Htr).
  by exists key, reply.
Qed.

(** A key that shares words with the input, at least half of its own,
    makes the matcher answer from the table. *)
Lemma overlap_reply input key :
  key ∈ keys (BUILT_IN_RESPONSES now) →
  let overlap :=
    common_words (split key (js " "))
                 (split (trim (toLowerCase input)) (js " ")) in
  (0 < length overlap)%nat →
  (length (split key (js " ")) ≤ 2 * length overlap)%nat →
  ∃ key' reply,
    (key', reply) ∈ BUILT_IN_RESPONSES now
    ∧ truthy reply = true
    ∧ findBestMatch toLowerCase now input = Some reply.
Proof.
  intros Hkey overlap Hpos Hhalf. unfold findBestMatch.
  destruct (get _ (trim (toLowerCase input))) as [r|] eqn:Hget;
    cbn [truthy_opt].
  - destruct (truthy r) eqn:Hr.
    { apply get_elem_of in Hget. by eexists _, r. }
    apply get_elem_of, BUILT_IN_RESPONSES_truthy in Hget. congruence.
  - destruct (first_hit _ _ (fun key0 => includes _ key0 || includes key0 _))
      as [r|] eqn:Hpartial.
    { apply first_hit_reply in Hpartial as (k & reply & Hin & -> & Htr).
      by exists k, reply. }
    destruct (first_hit _ _ (fun key0 => (0 <? _)%nat && _))
      as [r|] eqn:Hwords.
    { apply first_hit_reply in Hwords as (k & reply & Hin & -> & Htr).
      by exists k, reply. }
    exfalso. rewrite first_hit_find in Hwords.
    destruct (list_find _ _) as [[i k]|] eqn:Hfind; [done|].
    apply list_find_None in Hfind.
    apply (proj1 (Forall_forall _ _) Hfind key Hkey). fold overlap.
    apply andb_true_iff. split; [by apply Nat.ltb_lt|by apply Nat.leb_le].
Qed.

(** X17. An input that shares words with a key of the built-in table, at
    least half of the key's words, is answered from the table: the reply
    is one of the built-in replies and nothing is sent to the chat API. *)
Theorem word_overlap_answered_locally (u : sample) (input key : jsstring) :
  key ∈ keys (BUILT_IN_RESPONSES now) →
  let overlap :=
    common_words (split key (js " "))
                 (split (trim (toLowerCase input)) (js " ")) in
  (0 < length overlap)%nat →
  (length (split key (js " ")) ≤ 2 * length overlap)%nat →
  ∃ key' reply,
    (key', reply) ∈ BUILT_IN_RESPONSES now
    ∧ processVoiceInput toLowerCase now u input
      = [AddUserMessage input; ReplyLater 300 reply]
    ∧ existsb calls_api (processVoiceInput toLowerCase now u input) = false.
Proof.
  intros Hkey overlap Hpos Hhalf.
  destruct (overlap_reply input key Hkey Hpos Hhalf)
    as (key' & reply & Hin & Htr & Hfind).
  exists key', reply. split; [done|].
  unfold processVoiceInput. rewrite Hfind. cbn [truthy_opt]. rewrite Htr.
  by split.
Qed.

(** X18. A spoken input that has the words [what] and [is] never reaches
    the list of common questions or the chat API: the matcher of built-in
    replies answers it, by word overlap with the key of the time reply if
    by nothing before.  So the answers listed for the common questions
    that begin with these two words are not given. *)
Theorem what_is_answered_by_built_in (u : sample) (input : jsstring) :
  let words := split (trim (toLowerCase input)) (js " ") in
  js "what" ∈ words → js "is" ∈ words →
  ∃ key reply,
    (key, reply) ∈ BUILT_IN_RESPONSES now
    ∧ processVoiceInput toLowerCase now u input
      = [AddUserMessage input; ReplyLater 300 reply].
Proof.
  intros words Hwhat His.
  destruct (overlap_reply input (js "what time is it"))
    as (key' & reply & Hin & Htr & Hfind).
  - unfold keys, BUILT_IN_RESPONSES. cbn [fmap list_fmap fst]. set_solver.
  - fold words.
    change (split (js "what time is it") (js " "))
      with [js "what"; js "time"; js "is"; js "it"].
    unfold common_words. rewrite !filter_cons, filter_nil.
    rewrite (decide_True (P := js "what" ∈ words)) by done.
    simpl. lia.
  - fold words.
    change (split (js "what time is it") (js " "))
      with [js "what"; js "time"; js "is"; js "it"].
    unfold common_words. rewrite !filter_cons, filter_nil.
    rewrite (decide_True (P := js "what" ∈ words)) by done.
    rewrite (decide_True (P := js "is" ∈ words)) by done.
    repeat case_decide; simpl; lia.
  - exists key', reply. split; [done|].
    unfold processVoiceInput. rewrite Hfind. cbn [truthy_opt]. by rewrite Htr.
Qed.

End WithEnv.

Lemma word_overlap_answered_locally_witness :
  ∃ key' reply,
    (key', reply) ∈ BUILT_IN_RESPONSES Examples.morning
    ∧ processVoiceInput toLowerCaseASCII Examples.morning Examples.two_fifths
        (js "please tell a joke")
      = [AddUserMessage (js "please tell a joke"); ReplyLater 300 reply]
    ∧ existsb calls_api
        (processVoiceInput toLowerCaseASCII Examples.morning
           Examples.two_fifths (js "please tell a joke")) = false.
Proof.
  apply (word_overlap_answered_locally toLowerCaseASCII Examples.morning
           Examples.two_fifths (js "please tell a joke")
           (js "tell me a joke")).
  - refine (bool_decide_unpack _ _). vm_compute. exact I.
  - vm_compute. lia.
  - vm_compute. lia.
Defined.

(** The question for the capital of France gets the time. *)
Lemma what_is_answered_by_built_in_witness :
  processVoiceInput toLowerCaseASCII Examples.morning Examples.two_fifths
    (js "What is the capital of France")
  = [AddUserMessage (js "What is the capital of France");
     ReplyLater 300 (js "It's currently 10:00:00 AM.")].
Proof.
  destruct (what_is_answered_by_built_in toLowerCaseASCII Examples.morning
              Examples.two_fifths (js "What is the capital of France"))
    as (key & reply & _ & Hrun).
  - refine (bool_decide_unpack _ _). vm_compute. exact I.
  - refine (bool_decide_unpack _ _). vm_compute. exact I.
  - rewrite Hrun. vm_compute in Hrun. injection Hrun as <-. reflexivity.
Defined.

(** *** Keywords *)

Lemma breakOn_char_Some x s b a : breakOn [x] s = Some (b, a) → x ∉ b.
Proof.
  revert b. induction s as [|c s IH]; intros b; rewrite breakOn_eq;
    cbn [startsWith]; [done|].
  destruct (x =? c) eqn:Hx; cbn [andb].
  - intros [= <- <-]. apply not_elem_of_nil.
  - destruct (breakOn [x] s) as [[b' a']|] eqn:Hb; [|done].
    intros [= <- <-]. apply not_elem_of_cons. split; [|by apply IH].
    by apply N.eqb_neq in Hx.
Qed.

Lemma breakOn_char_None x s : breakOn [x] s = None → x ∉ s.
Proof.
  induction s as [|c s IH]; rewrite breakOn_eq; cbn [startsWith];
    [intros _; apply not_elem_of_nil|].
  destruct (x =? c) eqn:Hx; cbn [andb]; [done|].
  destruct (breakOn [x] s) as [[b' a']|] eqn:Hb; [done|].
  intros _. apply not_elem_of_cons. split; [|by apply IH].
  by apply N.eqb_neq in Hx.
Qed.

(** No piece of a string split at a character holds that character. *)
Lemma split_rounds_char_free n x s p :
  (length s ≤ n)%nat → p ∈ split_rounds n [x] s → x ∉ p.
Proof.
  revert s. induction n as [|n IH]; intros s Hlen; cbn [split_rounds].
  - destruct s; [|simpl in Hlen; lia].
    rewrite list_elem_of_singleton. intros ->. apply not_elem_of_nil.
  - destruct (breakOn [x] s) as [[b a]|] eqn:Hb.
    + rewrite elem_of_cons. intros [->|Hin].
      * by apply breakOn_char_Some in Hb.
      * apply (IH a); [|done]. apply breakOn_Some in Hb as ->.
        rewrite !length_app in Hlen. simpl in Hlen. lia.
    + rewrite list_elem_of_singleton. intros ->.
      by apply breakOn_char_None.
Qed.

(** X19. Every keyword extracted from a text has more than two code
    units, is no stop word, and is made of word characters and of white
    space other than the space: it holds neither punctuation nor a
    space. *)
Theorem extractKeywords_shape (toLowerCase : jsstring → jsstring)
    (text : jsstring) :
  Forall (fun word =>
            (2 < length word)%nat
            ∧ (word ∉ stopWords)
            ∧ Forall (fun c => isWordChar c || isWhiteSpace c = true
                               ∧ c ≠ 32) word)
         (extractKeywords toLowerCase text).
Proof.
  apply Forall_forall. intros word Hword. unfold extractKeywords in Hword.
  apply list_elem_of_filter in Hword as [Hkeep Hin].
  apply andb_true_iff in Hkeep as [Hlen Hstop].
  apply Nat.ltb_lt in Hlen.
  apply negb_true_iff, bool_decide_eq_false in Hstop.
  do 2 (split; [done|]).
  change (js " ") with [32] in Hin. unfold split in Hin.
  pose proof (split_rounds_char_free _ _ _ _ (le_n _) Hin) as Hfree.
  apply split_rounds_part in Hin as (a & b & Hparts).
  assert (Hall : Forall (fun c => isWordChar c || isWhiteSpace c = true)
                   (a ++ word ++ b)).
  { rewrite <-Hparts. apply Forall_forall. intros c Hc.
    by apply list_elem_of_filter in Hc as [Hc _]. }
  apply Forall_app in Hall as [_ [Hall _]%Forall_app].
  apply Forall_forall. intros c Hc. split.
  - by apply (proj1 (Forall_forall _ _) Hall).
  - by intros ->.
Qed.

(** *** Sending a message *)

Lemma generateFallbackResponse_nonempty toLowerCase keywords text :
  generateFallbackResponse toLowerCase keywords text ≠ [].
Proof.
  unfold generateFallbackResponse.
  destruct (length keywords =? 0)%nat; [done|].
  by destruct (_ || _).
Qed.

(** X20. Unless throttled, the component makes one request, which carries
    at most the last six messages, then shows and speaks one and the same
    answer and ends processing.  The answer is never empty: it is the
    response string of the server when the status is a success and the
    body has a non-empty one, and the fallback made of the keywords in
    every other case. *)
Theorem sendMessageToAPI_answers (toLowerCase : jsstring → jsstring)
    (messages : list Message) (lastAPICallTime now now' : Z)
    (o : chat_outcome) (text : jsstring) :
  isThrottled now lastAPICallTime = false →
  ∃ shown,
    sendMessageToAPI toLowerCase messages lastAPICallTime now now' o text
    = [ SetIsProcessing true;
        SetLastAPICallTime now';
        FetchChat text (history_line <$> slice_last 6 messages);
        AddAssistantMessage shown;
        SpeakText shown;
        SetIsProcessing false ]
    ∧ shown ≠ []
    ∧ (length (slice_last 6 messages) ≤ 6)%nat
    ∧ (∀ r, answered o r → shown = r)
    ∧ ((∀ r, ¬ answered o r) →
       shown = generateFallbackResponse toLowerCase
                 (extractKeywords toLowerCase text) text).
Proof.
  intros Hfree. unfold sendMessageToAPI. rewrite Hfree.
  eexists. split; [reflexivity|]. split; [|split; [|split]].
  - unfold read_chat. destruct o as [e|st [[|[r|]]|]];
      try apply generateFallbackResponse_nonempty;
      destruct (ok st); cbn [negb truthy_opt];
      try apply generateFallbackResponse_nonempty.
    destruct r; [apply generateFallbackResponse_nonempty|done].
  - unfold slice_last. rewrite length_drop. lia.
  - intros r (st & -> & Hok & Hr). unfold read_chat. rewrite Hok.
    cbn [negb truthy_opt]. by destruct r.
  - intros Hnone. unfold read_chat.
    destruct o as [e|st [[|[r|]]|]]; try done;
      destruct (ok st) eqn:Hok; cbn [negb truthy_opt]; try done.
    destruct r as [|c r]; [done|].
    destruct (Hnone (c :: r)). by exists st.
Qed.


Lemma sendMessageToAPI_answers_witness :
  sendMessageToAPI toLowerCaseASCII [] 0 5000 5001
    (ChatResponds 200 (Some (Data (Some (js "Paris."))))) (js "capital?")
  = [ SetIsProcessing true;
      SetLastAPICallTime 5001;
      FetchChat (js "capital?") [];
      AddAssistantMessage (js "Paris.");
      SpeakText (js "Paris.");
      SetIsProcessing false ].
Proof.
  destruct (sendMessageToAPI_answers toLowerCaseASCII [] 0 5000 5001
              (ChatResponds 200 (Some (Data (Some (js "Paris.")))))
              (js "capital?") eq_refl)
    as (shown & Hrun & _ & _ & Hanswer & _).
  rewrite Hrun. rewrite (Hanswer (js "Paris.")); [reflexivity|].
  exists 200%Z. by repeat split.
Defined.


End VoiceExtras.

(** ** The translator component against the translation endpoint *)

Module TranslatorExtras.
Import JS Net Notions Translator.

(** X22. Every language that the component offers is understood by the
    endpoint: from the name that the component sends for a code of its
    list, the endpoint computes that same code, and the code it passes to
    the backup models begins with it. *)
Theorem offered_languages_understood (toLowerCase : jsstring → jsstring)
    (s : state) :
  lowers_ascii toLowerCase →
  sourceLang s ∈ languages.*1 → targetLang s ∈ languages.*1 →
  let source := default [] (Translate.sourceLang (request_body s)) in
  let target := default [] (Translate.targetLang (request_body s)) in
  Translate.getLanguageCode toLowerCase source = sourceLang s
  ∧ Translate.getLanguageCode toLowerCase target = targetLang s
  ∧ take 2 (Translate.getM2MLangCode toLowerCase source) = sourceLang s
  ∧ take 2 (Translate.getM2MLangCode toLowerCase target) = targetLang s.
Proof.
  intros Hlow.
  assert (Hcode : ∀ code fallback,
            code ∈ languages.*1 →
            Translate.getLanguageCode toLowerCase (name_of code fallback)
            = code
            ∧ take 2 (Translate.getM2MLangCode toLowerCase
                        (name_of code fallback)) = code).
  { intros code fallback Hin. unfold languages in Hin.
    cbn [fmap list_fmap fst] in Hin.
    rewrite !elem_of_cons, elem_of_nil in Hin.
    decompose [or] Hin; try done; subst code;
      match goal with
      | |- Translate.getLanguageCode _ (name_of ?c _) = _ ∧ _ =>
          let n := eval vm_compute in (name_of c fallback) in
          change (name_of c fallback) with n
      end;
      unfold Translate.getLanguageCode, Translate.getM2MLangCode;
      (rewrite Hlow by (repeat constructor));
      split; vm_compute; reflexivity. }
  intros Hs Ht. unfold request_body.
  cbn [Translate.sourceLang Translate.targetLang default from_option id].
  destruct (Hcode (sourceLang s) (js "English") Hs) as [? ?].
  destruct (Hcode (targetLang s) (js "Hindi") Ht) as [? ?].
  done.
Qed.

Lemma offered_languages_understood_witness :
  Translate.getLanguageCode toLowerCaseASCII (js "Telugu") = js "te"
  ∧ Translate.getLanguageCode toLowerCaseASCII (js "Japanese") = js "ja"
  ∧ take 2 (Translate.getM2MLangCode toLowerCaseASCII (js "Telugu"))
    = js "te"
  ∧ take 2 (Translate.getM2MLangCode toLowerCaseASCII (js "Japanese"))
    = js "ja".
Proof.
  apply (offered_languages_understood toLowerCaseASCII
           {| sourceText := js "hello"; translatedText := [];
              sourceLang := js "te"; targetLang := js "ja";
              loading := false; error := None; modelUsed := None;
              isIndianLanguagePair := false |}).
  - intros s _. reflexivity.
  - refine (bool_decide_unpack _ _). vm_compute. exact I.
  - refine (bool_decide_unpack _ _). vm_compute. exact I.
Defined.

Lemma name_of_nonempty code fallback :
  fallback ≠ [] → name_of code fallback ≠ [].
Proof.
  intros Hfb. unfold name_of.
  destruct (list_find _ _) as [[i lang]|]; [|done].
  by destruct (truthy lang.2) eqn:Hl; [destruct lang.2|].
Qed.

(** X23. The component against the translation endpoint, for a source
    text that is not blank: it ends with [loading] off, and either there
    is no error and the translated text is the endpoint's, not empty, or
    the error is [Failed to translate text], the translated text is as it
    was and no model is named.  The endpoint's status 400 never comes
    about, since the component sends all three fields. *)
Theorem translate_with_server (toLowerCase : jsstring → jsstring) (E : env)
    (s : state) :
  plain_names toLowerCase (Some (request_body s)) →
  truthy (trim (sourceText s)) = true →
  let s' := translate (server toLowerCase E) s in
  ∃ rep w,
    Translate.POST toLowerCase E (Some (request_body s)) start
    = (Normal rep, w)
    ∧ Translate.status rep ≠ 400%Z
    ∧ loading s' = false
    ∧ sourceText s' = sourceText s
    ∧ ((Translate.status rep = 200%Z ∧ error s' = None
        ∧ translatedText s' = Translate.translation rep
        ∧ translatedText s' ≠ [])
       ∨ (Translate.status rep = 500%Z
          ∧ error s' = Some (js "Failed to translate text")
          ∧ translatedText s' = translatedText s
          ∧ modelUsed s' = None)).
Proof.
  intros _ Htext s'. subst s'.
  destruct (TranslateExtras.translation_paths toLowerCase E (Some (request_body s)))
    as (rep & w & HP & _ & Hne & Hpath).
  exists rep, w. split; [done|].
  unfold translate, server. rewrite Htext, HP. cbn [negb receive].
  assert (Hfields : has_fields (Some (request_body s)) = true).
  { unfold has_fields, request_body.
    cbn [mbind option_bind Translate.text Translate.sourceLang
         Translate.targetLang truthy_opt].
    assert (Hsrc : sourceText s ≠ []).
    { intros Hs. by rewrite Hs in Htext. }
    pose proof (name_of_nonempty (sourceLang s) (js "English")
                  ltac:(done)) as Hsl.
    pose proof (name_of_nonempty (targetLang s) (js "Hindi")
                  ltac:(done)) as Htl.
    destruct (sourceText s), (name_of (sourceLang s) _),
      (name_of (targetLang s) _); done. }
  destruct Hpath as [(_ & _ & Hst & _)
                    |[(_ & Hno & _)
                     |(_ & _ & first & rest & _ & _ & Hsub)]].
  - rewrite Hst. cbn. split; [done|]. do 2 (split; [done|]). left. done.
  - congruence.
  - destruct Hsub as [(Hst & _)|[(Hst & _)|(Hst & _)]]; rewrite Hst; cbn;
      (split; [done|]); do 2 (split; [done|]);
      [by right|by left|by left].
Qed.

(** X24. Without a key on the server, the component shows the notice
    about the key as if it were the translation, and shows no error. *)
Theorem translate_without_key (toLowerCase : jsstring → jsstring) (E : env)
    (s : state) :
  truthy_opt (apiKey E) = false →
  truthy (trim (sourceText s)) = true →
  translatedText (translate (server toLowerCase E) s)
  = js "API key not configured. Please add your HUGGINGFACE_API_KEY to .env.local file."
  ∧ error (translate (server toLowerCase E) s) = None.
Proof.
  intros Hkey Htext. unfold translate, server, Translate.POST. run_M.
  rewrite Htext, Hkey. cbn. done.
Qed.

Lemma translate_with_server_witness :
  let s := {| sourceText := js "Bonjour"; translatedText := [];
              sourceLang := js "fr"; targetLang := js "de";
              loading := false; error := None; modelUsed := None;
              isIndianLanguagePair := false |} in
  translatedText (translate (server toLowerCaseASCII MoreExamples.answering) s)
  = js "Hallo"
  ∧ error (translate (server toLowerCaseASCII Examples.offline) s)
    = Some (js "Failed to translate text").
Proof.
  intros s. split.
  - destruct (translate_with_server toLowerCaseASCII MoreExamples.answering s
                ltac:(TranslateExtras.plain_names) eq_refl)
      as (rep & w & HP & _ & _ & _ & Hend).
    vm_compute in HP. injection HP as <- <-.
    destruct Hend as [(_ & _ & -> & _)|(Hst & _)]; [reflexivity|].
    discriminate Hst.
  - destruct (translate_with_server toLowerCaseASCII Examples.offline s
                ltac:(TranslateExtras.plain_names) eq_refl)
      as (rep & w & HP & _ & _ & _ & Hend).
    vm_compute in HP. injection HP as <- <-.
    destruct Hend as [(Hst & _)|(_ & -> & _)]; [|reflexivity].
    discriminate Hst.
Defined.

Lemma translate_without_key_witness :
  let s := {| sourceText := js "Bonjour"; translatedText := [];
              sourceLang := js "fr"; targetLang := js "de";
              loading := false; error := None; modelUsed := None;
              isIndianLanguagePair := false |} in
  let E := {| apiKey := None;
              fetch_outcome := fetch_outcome Examples.offline;
              random := random Examples.offline;
              timeString := timeString Examples.offline;
              dateString := dateString Examples.offline |} in
  translatedText (translate (server toLowerCaseASCII E) s)
  = js "API key not configured. Please add your HUGGINGFACE_API_KEY to .env.local file.".
Proof.
  intros s E.
  apply (translate_without_key toLowerCaseASCII E s); reflexivity.
Defined.

End TranslatorExtras.
